(** * filecoin-verifier: allocation workflow, retry helper and record store

    A shallow embedding of the Go sources [aws.go], [lotus.go] and of the
    HTTP handlers [serveVerifyAccount] and [serveFaucet].

    - Go [int64] / [time.Duration] values are [Z] with the wrap-around
      written out ([wrap64]); [time.Time] is an unbounded nanosecond count.
    - [big.Int] wrappers ([types.BigInt], [types.FIL], [verifreg.DataCap])
      hold a pointer that may be nil ([BigNil]); the sources test for it
      themselves ([dcap.Int != nil]).
    - The DynamoDB table is a [gmap] from the key [ID] to an item; condition
      expressions are a small syntax with an evaluator.
    - Effects (clock, table, external calls, HTTP replies) are threaded
      through a state monad [M] over [World]; the lotus node and the other
      collaborators answer through an oracle record that may inspect the
      whole world, so an answer can differ from one attempt to the next.
    - A [go] statement records the goroutine, by the variables its closure
      captures, as an event; [serve] runs a handler and then the goroutines
      it started, which is one of the schedules Go allows: after [go] the
      handler only returns, and its deferred functions read nothing the
      goroutine writes.
    - Unbounded loops ([retry]) take fuel; a run that exhausts it ends in
      [OutOfFuel], which is never a result of the Go program. Twelve turns
      are enough under the deadlines the handlers set ([serve_total]). *)

From Stdlib Require Import ZArith QArith Lia List Bool.
From stdpp Require Import gmap strings list pretty.

Local Open Scope string_scope.
Local Open Scope list_scope.
Local Open Scope Z_scope.

(* ===================================================================== *)
(** * Part I: definitions *)
(* ===================================================================== *)

(** ** Machine integers and time *)

(** Two's complement wrap-around of Go's [int64]. *)
Definition wrap64 (z : Z) : Z := (z + 2 ^ 63) mod 2 ^ 64 - 2 ^ 63.

(** [time.Duration]: an [int64] count of nanoseconds. *)
Definition Duration := Z.

Definition minDuration : Duration := - 2 ^ 63.
Definition maxDuration : Duration := 2 ^ 63 - 1.

Definition Nanosecond : Duration := 1.
Definition Microsecond : Duration := 1000 * Nanosecond.
Definition Millisecond : Duration := 1000 * Microsecond.
Definition Second : Duration := 1000 * Millisecond.
Definition Minute : Duration := 60 * Second.
Definition Hour : Duration := 60 * Minute.

(** Product of two durations, as [int64] multiplication. *)
Definition Duration_mul (a b : Duration) : Duration := wrap64 (a * b).

(** [Duration.Hours]: [float64(d / Hour) + float64(d % Hour) / (60*60*1e9)].
    The floating point value is taken as the exact rational; it is exact in
    [float64] too whenever [d] is a whole number of hours. *)
Definition Duration_Hours (d : Duration) : Q :=
  Qplus (inject_Z (Z.quot d Hour))
        (Qdiv (inject_Z (Z.rem d Hour)) (inject_Z (60 * 60 * 1000000000))).

(** [time.Time]: nanoseconds since the zero time, not bounded. *)
Definition Time := Z.

Definition Time_zero : Time := 0.

(** [t.Sub(u)]: the difference, saturated to the range of a [Duration]. *)
Definition Time_Sub (t u : Time) : Duration :=
  if t - u <? minDuration then minDuration
  else if maxDuration <? t - u then maxDuration
  else t - u.

Definition Time_Add (t : Time) (d : Duration) : Time := t + d.

(** [t.After(u)] *)
Definition Time_After (t u : Time) : bool := u <? t.

(** ** Errors and big integers *)

(** A Go [error] value that is not nil, by its message. *)
Definition error := string.

(** [strings.Contains] *)
Fixpoint strings_Contains (s sub : string) : bool :=
  if String.prefix sub s then true
  else match s with
       | EmptyString => false
       | String _ s' => strings_Contains s' sub
       end.

(** [ignoreNotFound] of [lotus.go]; [None] is the nil error. *)
Definition ignoreNotFound (err : option error) : option error :=
  match err with
  | Some e => if strings_Contains e "not found" then None else err
  | None => err
  end.

(** How a computation ends. [Panic] is a Go run-time panic; [OutOfFuel]
    marks a run cut short by the fuel of this model. *)
Inductive Outcome (A : Type) : Type :=
| Done (a : A)
| Panic (msg : string)
| OutOfFuel.
Arguments Done {A} a.
Arguments Panic {A} msg.
Arguments OutOfFuel {A}.

Definition nil_dereference : string :=
  "invalid memory address or nil pointer dereference".

(** [big.Int] of specs-actors ([types.BigInt], [types.FIL] and
    [verifreg.DataCap] are the same struct): a struct around a [*big.Int],
    whose zero value holds the nil pointer. *)
Inductive BigInt : Type :=
| BigNil
| Big (z : Z).

Global Instance BigInt_eq_dec : EqDecision BigInt.
Proof. solve_decision. Defined.

Definition FIL := BigInt.

(** [types.NewInt], [big.NewInt] *)
Definition NewInt (z : Z) : BigInt := Big z.

(** The arithmetic helpers call the method of [math/big] on the embedded
    pointers; a nil operand is dereferenced there. *)
Definition BigSub (a b : BigInt) : Outcome BigInt :=
  match a, b with
  | Big x, Big y => Done (Big (x - y))
  | _, _ => Panic nil_dereference
  end.

Definition BigMul (a b : BigInt) : Outcome BigInt :=
  match a, b with
  | Big x, Big y => Done (Big (x * y))
  | _, _ => Panic nil_dereference
  end.

(** [math/big]'s [Div] is Euclidean division: the remainder is never
    negative. Division by zero panics. *)
Definition euclid_div (x y : Z) : Z :=
  if 0 <? y then x / y else - (x / - y).

Definition BigDiv (a b : BigInt) : Outcome BigInt :=
  match a, b with
  | Big x, Big y =>
      if y =? 0 then Panic "division by zero" else Done (Big (euclid_div x y))
  | _, _ => Panic nil_dereference
  end.

(** [types.BigCmp a b] is [a.Int.Cmp(b.Int)]: -1, 0 or 1. *)
Definition BigCmp (a b : BigInt) : Outcome Z :=
  match a, b with
  | Big x, Big y =>
      Done (match x ?= y with Lt => -1 | Eq => 0 | Gt => 1 end)
  | _, _ => Panic nil_dereference
  end.

(** [String] of a big integer; the nil pointer prints as ["<nil>"]. *)
Definition BigInt_String (a : BigInt) : string :=
  match a with
  | BigNil => "<nil>"
  | Big z => pretty z
  end.

(** ** Addresses, transactions and the subject record *)

(** [address.Address] is a struct around a string; its zero value is the
    undefined address. *)
Definition Address := string.
Definition Address_Undef : Address := "".
Definition Address_Empty (a : Address) : bool := bool_decide (a = Address_Undef).

(** [cid.Cid], by its string form; the zero value is the undefined cid. *)
Definition Cid := string.
Definition Cid_Undef : Cid := "".

(** [types.TipSetKey]; [types.EmptyTSK] stands for the current head. *)
Definition TipSetKey := string.
Definition EmptyTSK : TipSetKey := "".

(** The fields of [types.Message] the program sets. *)
Record Message : Type := mkMessage {
  msg_To : Address;
  msg_From : Address;
  msg_Value : BigInt;
  msg_GasPrice : BigInt;
  msg_GasLimit : Z;
  msg_Method : Z;
  msg_Params : string;
}.

(** [api.MsgLookup]: the receipt's exit code and the tipset that holds it. *)
Record MsgLookup : Type := mkMsgLookup {
  Receipt_ExitCode : Z;
  TipSet : TipSetKey;
}.

Record AccountData : Type := mkAccountData {
  UniqueID : string;
  Name : string;
  CreatedAt : Time;
}.

(** The [User] item. [aws.go] declares [ID], [Accounts] and
    [MostRecentAllocation]; the handlers also read and write the address
    binding and the faucet fields below. *)
Record User : Type := mkUser {
  ID : string;
  Accounts : gmap string AccountData;
  MostRecentAllocation : Time;
  VerifiedFilecoinAddress : string;
  ReceivedNonMinerFaucetGrant : bool;
  MostRecentMinerFaucetGrant : Time;
  MostRecentMinerFaucetGrantCid : Cid;
}.

(** The zero value [User{}]. *)
Definition User_zero : User :=
  mkUser "" ∅ Time_zero "" false Time_zero Cid_Undef.

Definition set_ID (id : string) (u : User) : User :=
  mkUser id (Accounts u) (MostRecentAllocation u) (VerifiedFilecoinAddress u)
         (ReceivedNonMinerFaucetGrant u) (MostRecentMinerFaucetGrant u)
         (MostRecentMinerFaucetGrantCid u).

Definition set_MostRecentAllocation (t : Time) (u : User) : User :=
  mkUser (ID u) (Accounts u) t (VerifiedFilecoinAddress u)
         (ReceivedNonMinerFaucetGrant u) (MostRecentMinerFaucetGrant u)
         (MostRecentMinerFaucetGrantCid u).

Definition set_VerifiedFilecoinAddress (a : string) (u : User) : User :=
  mkUser (ID u) (Accounts u) (MostRecentAllocation u) a
         (ReceivedNonMinerFaucetGrant u) (MostRecentMinerFaucetGrant u)
         (MostRecentMinerFaucetGrantCid u).

Definition set_ReceivedNonMinerFaucetGrant (b : bool) (u : User) : User :=
  mkUser (ID u) (Accounts u) (MostRecentAllocation u) (VerifiedFilecoinAddress u)
         b (MostRecentMinerFaucetGrant u) (MostRecentMinerFaucetGrantCid u).

Definition set_MostRecentMinerFaucetGrant (t : Time) (u : User) : User :=
  mkUser (ID u) (Accounts u) (MostRecentAllocation u) (VerifiedFilecoinAddress u)
         (ReceivedNonMinerFaucetGrant u) t (MostRecentMinerFaucetGrantCid u).

Definition set_MostRecentMinerFaucetGrantCid (c : Cid) (u : User) : User :=
  mkUser (ID u) (Accounts u) (MostRecentAllocation u) (VerifiedFilecoinAddress u)
         (ReceivedNonMinerFaucetGrant u) (MostRecentMinerFaucetGrant u) c.

(** [UserLock] and its two values. *)
Definition UserLock := string.
Definition UserLock_Verifier : UserLock := "Verifier".
Definition UserLock_Faucet : UserLock := "Faucet".

(** ** The DynamoDB table *)

(** A value and its error, as Go functions return them. *)
Inductive Result (A : Type) : Type :=
| Ok (a : A)
| Err (e : error).
Arguments Ok {A} a.
Arguments Err {A} e.

Inductive AttributeValue : Type :=
| AttrBool (b : bool)
| AttrString (s : string).

Global Instance AttributeValue_eq_dec : EqDecision AttributeValue.
Proof. solve_decision. Defined.

(** An item of the table: the marshalled [User] struct, and the attributes
    that are not fields of the struct. The lock flags ["Locked_<lock>"] and
    the attribute ["Locked"] are of the second kind, since no field of
    [User] has such a name. *)
Record Item : Type := mkItem {
  item_doc : User;
  item_attrs : gmap string AttributeValue;
}.

(** The condition expressions the program builds. *)
Inductive Cond : Type :=
| CondEq (name : string) (v : AttributeValue)   (* ['name' = ?] *)
| CondNotExists (path : string)                 (* [attribute_not_exists(path)] *)
| CondOr (c1 c2 : Cond).                        (* [c1 OR c2] *)

(** Evaluation on the stored item, if there is one. A comparison with an
    attribute the item lacks is false. *)
Fixpoint Cond_eval (c : Cond) (it : option Item) : bool :=
  match c with
  | CondEq name v =>
      match it with
      | Some i => bool_decide (item_attrs i !! name = Some v)
      | None => false
      end
  | CondNotExists path =>
      match it with
      | Some i => bool_decide (item_attrs i !! path = None)
      | None => true
      end
  | CondOr c1 c2 => Cond_eval c1 it || Cond_eval c2 it
  end.

Definition ErrConditionalCheckFailed : error := "ConditionalCheckFailedException".
Definition ErrNotFound : error := "dynamo: no item found".

(** [table.Update("ID", key).Set(name, v).If(cond).Run()]: when the
    condition holds the attribute is written, and the item is created if
    the key is new; otherwise nothing is written. *)
Definition Update_Set_If_Run (tbl : gmap string Item) (key name : string)
    (v : AttributeValue) (cond : Cond) : option error * gmap string Item :=
  if Cond_eval cond (tbl !! key) then
    let it := match tbl !! key with
              | Some i => mkItem (item_doc i) (<[name := v]> (item_attrs i))
              | None => mkItem (set_ID key User_zero) {[name := v]}
              end in
    (None, <[key := it]> tbl)
  else (Some ErrConditionalCheckFailed, tbl).

(** [table.Put(user).Run()]: the item is replaced as a whole, so the
    attributes the struct does not have are gone. *)
Definition Put_Run (tbl : gmap string Item) (user : User) : gmap string Item :=
  <[ID user := mkItem user ∅]> tbl.

(** [table.Get("ID", key).One(&user)] *)
Definition Get_One (tbl : gmap string Item) (key : string) : User * option error :=
  match tbl !! key with
  | Some i => (item_doc i, None)
  | None => (User_zero, Some ErrNotFound)
  end.

(** The lock flag of a subject, as stored. *)
Definition lock_attr (lock : UserLock) : string := "Locked_" +:+ lock.

Definition lock_flag (tbl : gmap string Item) (userID : string) (lock : UserLock)
    : option AttributeValue :=
  match tbl !! userID with
  | Some i => item_attrs i !! lock_attr lock
  | None => None
  end.

(** ** The world and the effect monad *)

(** How [lotusGetMinerAddr] ends: no error, [ErrNotMiner] as the cause, or
    another error. *)
Inductive MinerErr : Type :=
| MinerNil
| MinerNotMiner
| MinerOther (e : error).

(** The body of an HTTP reply. *)
Inductive Body : Type :=
| BodyError (msg : string)
| BodyCid (c : string)
| BodyCidSent (c : string) (sent : FIL)
| BodyRateLimit (limit : Duration).

(** A goroutine started with [go], by the variables its closure captures:
    the one of [serveVerifyAccount] and the one of [serveFaucet]. *)
Inductive Goroutine : Type :=
| GoVerifyAccount (userID : string) (user : User) (TargetAddr : string) (cid : Cid)
| GoFaucet (userID : string) (user : User) (minerAddr : Address) (cid : Cid).

(** What a run does that can be observed from outside, with the answer of
    the collaborator where there is one. *)
Inductive Event : Type :=
| EvLockUser (userID : string) (lock : UserLock) (err : option error)
| EvUnlockUser (userID : string) (lock : UserLock) (err : option error)
| EvGetUser (userID : string) (r : User * option error)
| EvSaveUser (user : User)
| EvNewFullNodeRPC (err : option error)
| EvWalletDefaultAddress (r : Result Address)
| EvGasEstimateGasLimit (msg : Message) (r : Result Z)
| EvGasEstimateGasPrice (nblocks : Z) (sender : Address) (gasLimit : Z) (r : Result BigInt)
| EvMpoolPushMessage (msg : Message) (r : Result Cid)
| EvStateWaitMsg (c : Cid) (confidence : Z) (r : Result MsgLookup)
| EvStateSearchMsg (c : Cid) (r : Result (option MsgLookup))
| EvStateGetActor (a : Address) (r : Result Cid)
| EvCborGet (c : Cid) (r : Result Cid)
| EvHamtLoadNode (root : Cid) (err : option error)
| EvHamtFind (root : Cid) (key : string) (r : BigInt * option error)
| EvGetMinerAddr (target : Address) (r : Address * MinerErr)
| EvGetMinerPower (miner : Address) (tsk : TipSetKey) (r : Result BigInt)
| EvSleep (d : Duration)
| EvJSON (status : Z) (body : Body)
| EvLog (msg : string)
| EvGo (g : Goroutine).

Record World : Type := mkWorld {
  clock : Time;
  table : gmap string Item;
  trace : list Event;
}.

Definition M (A : Type) : Type := World -> Outcome A * World.

Definition ret {A} (a : A) : M A := fun w => (Done a, w).

Definition bind {A B} (m : M A) (k : A -> M B) : M B :=
  fun w =>
    match m w with
    | (Done a, w') => k a w'
    | (Panic msg, w') => (Panic msg, w')
    | (OutOfFuel, w') => (OutOfFuel, w')
    end.

Notation "x <- c1 ;; c2" := (bind c1 (fun x => c2))
  (at level 100, c1 at next level, right associativity).
Notation "c1 ;;; c2" := (bind c1 (fun _ => c2))
  (at level 100, right associativity).

Definition lift {A} (o : Outcome A) : M A := fun w => (o, w).

Definition panic {A} (msg : string) : M A := lift (Panic msg).

Definition emit (e : Event) : M unit :=
  fun w => (Done tt, mkWorld (clock w) (table w) (trace w ++ [e])).

(** Time passes; never backwards. *)
Definition elapse (d : Duration) : M unit :=
  fun w => (Done tt, mkWorld (clock w + Z.max 0 d) (table w) (trace w)).

(** [time.Now()] *)
Definition time_Now : M Time := fun w => (Done (clock w), w).

(** [time.Sleep(d)]: returns at once when [d] is zero or negative. *)
Definition time_Sleep (d : Duration) : M unit :=
  emit (EvSleep d) ;;; elapse d.

(** A call to a collaborator: the oracle sees the world, takes its time
    and answers; the call and the answer are recorded. *)
Definition ask {A} (oracle : World -> Duration * A) (ev : A -> Event) : M A :=
  fun w =>
    let '(d, a) := oracle w in
    (Done a, mkWorld (clock w + Z.max 0 d) (table w) (trace w ++ [ev a])).

(** [defer]: the deferred call runs when the body returns and when it
    panics, and sees the way the body ended; a panic of the deferred call
    replaces the result. *)
Definition with_defer {A} (body : M A) (deferred : Outcome A -> M unit) : M A :=
  fun w =>
    match body w with
    | (OutOfFuel, w') => (OutOfFuel, w')
    | (r, w') =>
        match deferred r w' with
        | (Done _, w'') => (r, w'')
        | (Panic msg, w'') => (Panic msg, w'')
        | (OutOfFuel, w'') => (OutOfFuel, w'')
        end
    end.

(** The [go] statement: the goroutine is started; it runs later. *)
Definition go_ (g : Goroutine) : M unit := emit (EvGo g).

(** The goroutines started in a trace, in order. *)
Definition go_of (e : Event) : option Goroutine :=
  match e with EvGo g => Some g | _ => None end.

Definition spawned (evs : list Event) : list Goroutine := omap go_of evs.

(** [log.Println] *)
Definition log_Println (msg : string) : M unit := emit (EvLog msg).

(** [c.JSON(status, body)] *)
Definition c_JSON (status : Z) (body : Body) : M unit := emit (EvJSON status body).

Definition StatusOK : Z := 200.
Definition StatusBadRequest : Z := 400.
Definition StatusForbidden : Z := 403.
Definition StatusInternalServerError : Z := 500.

(** ** [context.Context] *)

(** A context is done once its deadline has come; [context.Background()]
    has none. *)
Record Context : Type := mkContext { ctx_deadline : option Time }.

Definition context_Background : Context := mkContext None.

Definition ctx_done (ctx : Context) (w : World) : bool :=
  match ctx_deadline ctx with
  | Some d => d <=? clock w
  | None => false
  end.

(** [context.WithTimeout(context.Background(), d)] *)
Definition context_WithTimeout (d : Duration) : M Context :=
  fun w => (Done (mkContext (Some (Time_Add (clock w) d))), w).

(** The non-blocking [select] on [ctx.Done()]. *)
Definition ctx_Done (ctx : Context) : M bool := fun w => (Done (ctx_done ctx w), w).

(** ** [aws.go]: locks and the record store *)

(** [lockUser] sets ["Locked_<lock>"] to true under the condition
    ['Locked_<lock>' = false OR attribute_not_exists(Locked)]. *)
Definition lockUser (userID : string) (lock : UserLock) : M (option error) :=
  fun w =>
    let '(err, tbl) :=
      Update_Set_If_Run (table w) userID (lock_attr lock) (AttrBool true)
        (CondOr (CondEq (lock_attr lock) (AttrBool false)) (CondNotExists "Locked")) in
    (Done err, mkWorld (clock w) tbl (trace w ++ [EvLockUser userID lock err])).

(** [unlockUser] sets ["Locked_<lock>"] to false under the condition
    ['Locked_<lock>' = true]. *)
Definition unlockUser (userID : string) (lock : UserLock) : M (option error) :=
  fun w =>
    let '(err, tbl) :=
      Update_Set_If_Run (table w) userID (lock_attr lock) (AttrBool false)
        (CondEq (lock_attr lock) (AttrBool true)) in
    (Done err, mkWorld (clock w) tbl (trace w ++ [EvUnlockUser userID lock err])).

Definition getUserByID (userID : string) : M (User * option error) :=
  fun w => (Done (Get_One (table w) userID),
            mkWorld (clock w) (table w)
                    (trace w ++ [EvGetUser userID (Get_One (table w) userID)])).

Definition saveUser (user : User) : M (option error) :=
  fun w => (Done None,
            mkWorld (clock w) (Put_Run (table w) user) (trace w ++ [EvSaveUser user])).

(** ** Configuration and collaborators *)

(** The process-wide configuration [env]. *)
Record Env : Type := mkEnv {
  MinAccountAgeDays : Z;
  VerifierMinAccountAgeDays : Z;
  FaucetMinAccountAge : Duration;
  FaucetRateLimit : Duration;
  FaucetMinGrant : FIL;
  FaucetBaseRate : FIL;
  MaxAllowanceBytes : BigInt;
  GasMultiple : Z;
  FaucetAddr : Address;
  LotusVerifierAddr : Address;
}.

(** The answers of the lotus node and of the chain state it serves. Each
    takes the arguments of the call and the world at the time of the call,
    and gives the time the call takes and its result.
    [GetMinerAddr] and [GetMinerPower] stand for [lotusGetMinerAddr] and
    [lotusGetMinerPower], which the handlers call. *)
Record Node : Type := mkNode {
  NewFullNodeRPC : World -> Duration * option error;
  WalletDefaultAddress : World -> Duration * Result Address;
  GasEstimateGasLimit : Message -> World -> Duration * Result Z;
  GasEstimateGasPrice : Z -> Address -> Z -> World -> Duration * Result BigInt;
  MpoolPushMessage : Message -> World -> Duration * Result Cid;
  StateWaitMsg : Cid -> Z -> World -> Duration * Result MsgLookup;
  StateSearchMsg : Cid -> World -> Duration * Result (option MsgLookup);
  StateGetActor : Address -> World -> Duration * Result Cid;
  CborGet : Cid -> World -> Duration * Result Cid;
  HamtLoadNode : Cid -> World -> Duration * option error;
  HamtFind : Cid -> string -> World -> Duration * (BigInt * option error);
  GetMinerAddr : Address -> World -> Duration * (Address * MinerErr);
  GetMinerPower : Address -> TipSetKey -> World -> Duration * Result BigInt;
}.

(** Pure functions of the libraries: [address.NewFromString],
    [types.BigFromString], [actors.SerializeParams] of
    [verifreg.AddVerifiedClientParams], and the method
    [User.HasRequestedFromFaucetAsMiner] the faucet handler calls. *)
Record Library : Type := mkLibrary {
  address_NewFromString : string -> Result Address;
  types_BigFromString : string -> Result BigInt;
  actors_SerializeParams : Address -> BigInt -> Result string;
  HasRequestedFromFaucetAsMiner : User -> bool;
}.

(** [builtin.VerifiedRegistryActorAddr] *)
Definition VerifiedRegistryActorAddr : Address := "t06".
(** [builtin.MethodsVerifiedRegistry.AddVerifiedClient] *)
Definition AddVerifiedClient : Z := 4.
(** [build.MessageConfidence] *)
Definition MessageConfidence : Z := 5.

(** A handle on the node ([api.FullNode] with its closer); [ApiNil] is the
    nil interface. *)
Inductive FullNode : Type :=
| ApiNil
| ApiClient.

Section Program.

Context (env : Env) (node : Node) (lib : Library).

(** ** [aws.go]: eligibility *)

(** The test in the loop of [HasAccountOlderThan] for one account, at the
    time [now]: both sides are compared in hours. *)
Definition account_is_old (now : Time) (account : AccountData) : bool :=
  Qle_bool
    (Duration_Hours
       (Duration_mul (Duration_mul (wrap64 (MinAccountAgeDays env)) 24) Hour))
    (Duration_Hours (Time_Sub now (CreatedAt account))).

(** [user.HasAccountOlderThan(threshold)]: the loop over [user.Accounts]
    returns true at the first account that passes the test. *)
Definition HasAccountOlderThan (user : User) (threshold : Duration) : M bool :=
  now <- time_Now ;;
  ret (existsb (fun kv => account_is_old now (snd kv))
               (map_to_list (Accounts user))).

(** ** [lotus.go]: the retry helper *)

(** The wait after the one of [wait]: [wait += wait / 2] on [int64]. *)
Definition next_wait (wait : Duration) : Duration :=
  wrap64 (wait + Z.quot wait 2).

(** The loop of [retry]. [fn] is a closure: it may assign variables of
    its caller, which are the state [S] here. [err] is the named result,
    nil ([None]) when the loop starts. *)
Fixpoint retry_loop {S : Type} (fuel : nat) (ctx : Context)
    (fn : S -> M (S * option error)) (wait : Duration) (err : option error)
    (s : S) : M (S * option error) :=
  match fuel with
  | O => lift OutOfFuel
  | Datatypes.S fuel' =>
      done <- ctx_Done ctx ;;
      if done then ret (s, err)
      else
        r <- fn s ;;
        match snd r with
        | Some e =>
            time_Sleep wait ;;;
            retry_loop fuel' ctx fn (next_wait wait) (Some e) (fst r)
        | None => ret (fst r, None)
        end
  end.

Definition retry {S : Type} (fuel : nat) (ctx : Context)
    (fn : S -> M (S * option error)) (s : S) : M (S * option error) :=
  retry_loop fuel ctx fn (5 * Second) None s.

(** ** [lotus.go]: the node *)

(** [lotusGetFullNodeAPI]: the closure assigns the named results
    [apiClient] and [closer]. *)
Definition lotusGetFullNodeAPI (fuel : nat) (ctx : Context)
    : M (FullNode * option error) :=
  retry fuel ctx
    (fun _ : FullNode =>
       innerErr <- ask (NewFullNodeRPC node) EvNewFullNodeRPC ;;
       ret (match innerErr with None => ApiClient | Some _ => ApiNil end, innerErr))
    ApiNil.

(** A method call on the handle; on the nil interface it panics. *)
Definition api_call {A} (api : FullNode) (oracle : World -> Duration * A)
    (ev : A -> Event) : M A :=
  match api with
  | ApiNil => panic nil_dereference
  | ApiClient => ask oracle ev
  end.

(** [defer closer()]; calling the nil function panics. *)
Definition defer_closer {A} (closer : FullNode) (body : M A) : M A :=
  with_defer body
    (fun _ => match closer with
              | ApiNil => panic nil_dereference
              | ApiClient => ret tt
              end).

Definition lotusEstimateGasLimit (ctx : Context) (api : FullNode) (msg : Message)
    : M (Z * option error) :=
  r <- api_call api (GasEstimateGasLimit node msg) (EvGasEstimateGasLimit msg) ;;
  match r with
  | Err e => ret (0, Some e)
  | Ok gasLimit => ret (gasLimit, None)
  end.

Definition lotusEstimateGasPrice (ctx : Context) (api : FullNode)
    (address : Address) (gasLimit : Z) : M (BigInt * option error) :=
  r <- api_call api (GasEstimateGasPrice node 0 address gasLimit)
                    (EvGasEstimateGasPrice 0 address gasLimit) ;;
  match r with
  | Err e => ret (NewInt 0, Some e)
  | Ok gasPrice => ret (gasPrice, None)
  end.

Definition lotusVerifyAccount (fuel : nat) (ctx : Context)
    (targetAddr allowanceStr : string) : M (Cid * option error) :=
  match address_NewFromString lib targetAddr with
  | Err e => ret (Cid_Undef, Some e)
  | Ok target =>
  match types_BigFromString lib allowanceStr with
  | Err e => ret (Cid_Undef, Some e)
  | Ok allowance =>
  match actors_SerializeParams lib target allowance with
  | Err e => ret (Cid_Undef, Some e)
  | Ok params =>
  a <- lotusGetFullNodeAPI fuel ctx ;;
  match snd a with
  | Some e => ret (Cid_Undef, Some e)
  | None =>
  let api := fst a in
  defer_closer api (
    let msg := mkMessage VerifiedRegistryActorAddr (LotusVerifierAddr env)
                         BigNil (NewInt 0) 0 AddVerifiedClient params in
    l <- lotusEstimateGasLimit ctx api msg ;;
    match snd l with
    | Some e => ret (Cid_Undef, Some e)
    | None =>
    let gasLimit := fst l in
    p <- lotusEstimateGasPrice ctx api (LotusVerifierAddr env) gasLimit ;;
    match snd p with
    | Some e => ret (Cid_Undef, Some e)
    | None =>
    let gasPrice := fst p in
    price <- lift (BigMul gasPrice (NewInt (GasMultiple env))) ;;
    let msg' := mkMessage (msg_To msg) (msg_From msg) (msg_Value msg) price
                          (wrap64 (gasLimit * wrap64 (GasMultiple env)))
                          (msg_Method msg) (msg_Params msg) in
    smsg <- api_call api (MpoolPushMessage node msg') (EvMpoolPushMessage msg') ;;
    match smsg with
    | Err e => ret (Cid_Undef, Some e)
    | Ok c => ret (c, None)
    end
    end
    end)
  end
  end
  end
  end.

(** [lotusCheckAccountRemainingBytes]: three reads tolerate an error that
    says "not found" and go on with the zero value. *)
Definition lotusCheckAccountRemainingBytes (fuel : nat) (ctx : Context)
    (targetAddr : string) : M (BigInt * option error) :=
  match address_NewFromString lib targetAddr with
  | Err e => ret (BigNil, Some e)
  | Ok caddr =>
  a <- lotusGetFullNodeAPI fuel ctx ;;
  match snd a with
  | Some e => ret (BigNil, Some e)
  | None =>
  let api := fst a in
  defer_closer api (
    act <- api_call api (StateGetActor node VerifiedRegistryActorAddr)
                        (EvStateGetActor VerifiedRegistryActorAddr) ;;
    match act with
    | Err e => ret (BigNil, Some e)
    | Ok head =>
    st <- ask (CborGet node head) (EvCborGet head) ;;
    match ignoreNotFound (match st with Err e => Some e | Ok _ => None end),
          (match st with Err e => Some e | Ok _ => None end) with
    | Some _, err => ret (BigNil, err)
    | None, _ =>
    let VerifiedClients := match st with Ok root => root | Err _ => Cid_Undef end in
    ld <- ask (HamtLoadNode node VerifiedClients) (EvHamtLoadNode VerifiedClients) ;;
    match ignoreNotFound ld with
    | Some _ => ret (BigNil, ld)
    | None =>
    match ld with
    | Some _ => panic nil_dereference   (* [vh] is nil *)
    | None =>
    f <- ask (HamtFind node VerifiedClients caddr) (EvHamtFind VerifiedClients caddr) ;;
    match ignoreNotFound (snd f) with
    | Some _ => ret (BigNil, snd f)
    | None =>
    match fst f with
    | Big z => ret (Big z, None)
    | BigNil => ret (NewInt 0, None)
    end
    end
    end
    end
    end
    end)
  end
  end.

Definition lotusSendFIL (fuel : nat) (ctx : Context) (fromAddr toAddr : Address)
    (filAmount : FIL) : M (Cid * option error) :=
  a <- lotusGetFullNodeAPI fuel ctx ;;
  match snd a with
  | Some e => ret (Cid_Undef, Some e)
  | None =>
  let api := fst a in
  defer_closer api (
    d <- api_call api (WalletDefaultAddress node) EvWalletDefaultAddress ;;
    match d with
    | Err e => ret (Cid_Undef, Some e)
    | Ok resolvableAddress =>
    let msgForGasEstimation :=
      mkMessage resolvableAddress resolvableAddress filAmount (NewInt 0) 0 0 "" in
    l <- lotusEstimateGasLimit ctx api msgForGasEstimation ;;
    match snd l with
    | Some e => ret (Cid_Undef, Some e)
    | None =>
    let gasLimit := fst l in
    p <- lotusEstimateGasPrice ctx api fromAddr gasLimit ;;
    match snd p with
    | Some e => ret (Cid_Undef, Some e)
    | None =>
    let gasPrice := fst p in
    price <- lift (BigMul gasPrice (NewInt (GasMultiple env))) ;;
    let msg := mkMessage toAddr fromAddr filAmount price
                         (wrap64 (gasLimit * wrap64 (GasMultiple env))) 0 "" in
    sm <- api_call api (MpoolPushMessage node msg) (EvMpoolPushMessage msg) ;;
    match sm with
    | Err e => ret (Cid_Undef, Some e)
    | Ok c => ret (c, None)
    end
    end
    end
    end)
  end.

(** [lotusWaitMessageResult]: the closure assigns [mwait]. *)
Definition lotusWaitMessageResult (fuel : nat) (ctx : Context) (cid : Cid)
    : M (bool * option error) :=
  a <- lotusGetFullNodeAPI fuel ctx ;;
  match snd a with
  | Some e =>
      log_Println ("error getting FullNodeAPI: " +:+ e) ;;;
      ret (false, Some e)
  | None =>
  let client := fst a in
  defer_closer client (
    r <- retry fuel ctx
           (fun _ : option MsgLookup =>
              m <- api_call client (StateWaitMsg node cid MessageConfidence)
                                   (EvStateWaitMsg cid MessageConfidence) ;;
              match m with
              | Ok mwait => ret (Some mwait, None)
              | Err e => ret (None, Some e)
              end)
           None ;;
    match snd r with
    | Some e =>
        log_Println ("error awaiting message result: " +:+ e) ;;;
        ret (false, Some e)
    | None =>
    match fst r with
    | None => panic nil_dereference   (* [mwait] is nil *)
    | Some mwait => ret (Receipt_ExitCode mwait =? 0, None)
    end
    end)
  end.

(** [lotusGetMinerAddr] and [lotusGetMinerPower], by their results. *)
Definition lotusGetMinerAddr (ctx : Context) (targetAddr : Address)
    : M (Address * MinerErr) :=
  ask (GetMinerAddr node targetAddr) (EvGetMinerAddr targetAddr).

Definition lotusGetMinerPower (ctx : Context) (minerAddr : Address) (tsk : TipSetKey)
    : M (Result BigInt) :=
  ask (GetMinerPower node minerAddr tsk) (EvGetMinerPower minerAddr tsk).

(** ** The HTTP handlers *)

Definition ErrUnsupportedProvider : error := "unsupported oauth provider".
Definition ErrUserTooNew : error := "user account is too new".
Definition ErrSufficientAllowance : error := "allowance is already sufficient".
Definition ErrAllocatedTooRecently : error :=
  "you must wait 30 days in between reallocations".

(** What a handler reads from [*gin.Context]: the bound JSON body (its
    [TargetAddr]), the path parameter [target_addr], and the result of
    [getUserIDFromJWT] on the [Authorization] header. *)
Record Request : Type := mkRequest {
  ShouldBindJSON : Result string;
  Param_target_addr : string;
  getUserIDFromJWT : string * option error;
}.

(** Sequencing in [Outcome], for the big integer arithmetic. *)
Definition obind {A B} (o : Outcome A) (k : A -> Outcome B) : Outcome B :=
  match o with
  | Done a => k a
  | Panic msg => Panic msg
  | OutOfFuel => OutOfFuel
  end.

(** The goroutine of [serveVerifyAccount]. *)
Definition serveVerifyAccount_go (fuel : nat) (userID : string) (user : User)
    (TargetAddr : string) (cid : Cid) : M unit :=
  with_defer (
    ctx <- context_WithTimeout (10 * Minute) ;;
    r <- lotusWaitMessageResult fuel ctx cid ;;
    match snd r with
    | Some _ => ret tt
    | None =>
        let ok := fst r in
        let user := set_VerifiedFilecoinAddress TargetAddr user in
        now <- time_Now ;;
        let user := if ok then set_MostRecentAllocation now user else user in
        err <- saveUser user ;;
        match err with
        | Some e => log_Println ("error saving user: " +:+ e)
        | None => ret tt
        end
    end)
  (fun _ => unlockUser userID UserLock_Verifier ;;; ret tt).

(** [serveVerifyAccount]. The body after the lock returns the value of
    [successfullySubmittedMessage], which the deferred function reads. *)
Definition serveVerifyAccount (fuel : nat) (c : Request) : M unit :=
  match ShouldBindJSON c with
  | Err e => c_JSON StatusBadRequest (BodyError e) ;;; ret tt
  | Ok TargetAddr =>
  match snd (getUserIDFromJWT c) with
  | Some e => c_JSON StatusForbidden (BodyError e) ;;; ret tt
  | None =>
  let userID := fst (getUserIDFromJWT c) in
  err <- lockUser userID UserLock_Verifier ;;
  match err with
  | Some e => c_JSON StatusForbidden (BodyError e) ;;; ret tt
  | None =>
  _ <- with_defer (
    u <- getUserByID userID ;;
    match snd u with
    | Some _ =>
        c_JSON StatusForbidden (BodyError "user not found, have you authenticated?") ;;;
        ret false
    | None =>
    let user := fst u in
    let minAccountAge :=
      Duration_mul (Duration_mul (wrap64 (VerifierMinAccountAgeDays env)) 24) Hour in
    old <- HasAccountOlderThan user minAccountAge ;;
    if negb old then
      c_JSON StatusForbidden (BodyError ErrUserTooNew) ;;; ret false
    else
    now <- time_Now ;;
    if Time_After (Time_Add (MostRecentAllocation user) (30 * 24 * Hour)) now then
      c_JSON StatusForbidden (BodyError ErrAllocatedTooRecently) ;;; ret false
    else
    ctx <- context_WithTimeout (2 * Minute) ;;
    rem <- lotusCheckAccountRemainingBytes fuel ctx TargetAddr ;;
    match snd rem with
    | Some e => c_JSON StatusInternalServerError (BodyError e) ;;; ret false
    | None =>
    let remaining := fst rem in
    owed <- lift (BigSub (MaxAllowanceBytes env) remaining) ;;
    cmp <- lift (BigCmp owed (NewInt 0)) ;;
    if cmp <=? 0 then
      c_JSON StatusBadRequest
             (BodyError "you have verified data already, Greedy McRichbags") ;;;
      ret false
    else
    ctx <- context_WithTimeout (10 * Minute) ;;
    v <- lotusVerifyAccount fuel ctx TargetAddr (BigInt_String owed) ;;
    match snd v with
    | Some e => c_JSON StatusInternalServerError (BodyError e) ;;; ret false
    | None =>
    let cid := fst v in
    c_JSON StatusOK (BodyCid cid) ;;;
    go_ (GoVerifyAccount userID user TargetAddr cid) ;;;
    ret true
    end
    end
    end)
  (fun r =>
     match r with
     | Done true => ret tt
     | _ => unlockUser userID UserLock_Verifier ;;; ret tt
     end) ;;
  ret tt
  end
  end
  end.

(** The grant of a miner who has requested before, from the two power
    readings: [powerDiff], the two divisions when it is positive, and the
    lower bound. [owed] starts as the zero value of [types.FIL]. *)
Definition minerGrantSize (prevPower currentPower : BigInt) : Outcome FIL :=
  obind (BigSub prevPower currentPower) (fun powerDiff =>
  obind (BigCmp powerDiff (NewInt 0)) (fun c =>
  obind (if 0 <? c then
           obind (BigDiv powerDiff (NewInt 1073741824)) (fun powerDiffGiB =>
           BigDiv powerDiffGiB (NewInt 2))
         else Done BigNil) (fun owed =>
  obind (BigCmp owed (FaucetMinGrant env)) (fun c' =>
  if c' <? 0 then Done (FaucetMinGrant env) else Done owed)))).

(** The goroutine of [serveFaucet]. *)
Definition serveFaucet_go (fuel : nat) (userID : string) (user : User)
    (minerAddr : Address) (cid : Cid) : M unit :=
  with_defer (
    ctx <- context_WithTimeout (10 * Minute) ;;
    r <- lotusWaitMessageResult fuel ctx cid ;;
    match snd r with
    | Some _ => ret tt
    | None =>
        if negb (fst r) then log_Println "ERROR: faucet transaction failed"
        else
          now <- time_Now ;;
          let user :=
            if negb (Address_Empty minerAddr) then
              set_MostRecentMinerFaucetGrantCid cid
                (set_MostRecentMinerFaucetGrant now user)
            else set_ReceivedNonMinerFaucetGrant true user in
          err <- saveUser user ;;
          match err with
          | Some e => log_Println ("error saving user: " +:+ e)
          | None => ret tt
          end
    end)
  (fun _ => unlockUser userID UserLock_Faucet ;;; ret tt).

(** The part of [serveFaucet] that determines the grant size and the
    address to pay: [None] when it has replied with an error. *)
Definition faucetGrant (ctx : Context) (api : FullNode) (user : User)
    (targetAddr minerAddr : Address) (isMiner : bool) : M (option (Address * FIL)) :=
  if isMiner then
    if HasRequestedFromFaucetAsMiner lib user then
      now <- time_Now ;;
      if Time_After (Time_Add (MostRecentMinerFaucetGrant user) (FaucetRateLimit env)) now
      then
        c_JSON StatusForbidden (BodyRateLimit (FaucetRateLimit env)) ;;;
        ret None
      else
      let targetAddr := minerAddr in
      s <- api_call api (StateSearchMsg node (MostRecentMinerFaucetGrantCid user))
                        (EvStateSearchMsg (MostRecentMinerFaucetGrantCid user)) ;;
      match s with
      | Err e => c_JSON StatusInternalServerError (BodyError e) ;;; ret None
      | Ok None => panic nil_dereference   (* [receipt] is nil *)
      | Ok (Some receipt) =>
      prev <- lotusGetMinerPower ctx minerAddr (TipSet receipt) ;;
      match prev with
      | Err e => c_JSON StatusInternalServerError (BodyError e) ;;; ret None
      | Ok prevPower =>
      cur <- lotusGetMinerPower ctx minerAddr EmptyTSK ;;
      match cur with
      | Err e => c_JSON StatusInternalServerError (BodyError e) ;;; ret None
      | Ok currentPower =>
      owed <- lift (minerGrantSize prevPower currentPower) ;;
      ret (Some (targetAddr, owed))
      end
      end
      end
    else ret (Some (targetAddr, FaucetBaseRate env))
  else ret (Some (targetAddr, FaucetBaseRate env)).

Definition serveFaucet (fuel : nat) (c : Request) : M unit :=
  let targetAddrStr := Param_target_addr c in
  ctx <- context_WithTimeout (2 * Minute) ;;
  match address_NewFromString lib targetAddrStr with
  | Err e => c_JSON StatusBadRequest (BodyError e) ;;; ret tt
  | Ok targetAddr =>
  a <- lotusGetFullNodeAPI fuel ctx ;;
  match snd a with
  | Some e => c_JSON StatusInternalServerError (BodyError e) ;;; ret tt
  | None =>
  let api := fst a in
  defer_closer api (
  f <- (if Address_Empty (FaucetAddr env)
        then api_call api (WalletDefaultAddress node) EvWalletDefaultAddress
        else ret (Ok (FaucetAddr env))) ;;
  match f with
  | Err e => c_JSON StatusInternalServerError (BodyError e) ;;; ret tt
  | Ok faucetAddr =>
  match snd (getUserIDFromJWT c) with
  | Some e => c_JSON StatusForbidden (BodyError e) ;;; ret tt
  | None =>
  let userID := fst (getUserIDFromJWT c) in
  err <- lockUser userID UserLock_Faucet ;;
  match err with
  | Some e => c_JSON StatusForbidden (BodyError e) ;;; ret tt
  | None =>
  _ <- with_defer (
    u <- getUserByID userID ;;
    match snd u with
    | Some _ =>
        c_JSON StatusForbidden (BodyError "user not found, have you authenticated?") ;;;
        ret false
    | None =>
    let user := fst u in
    old <- HasAccountOlderThan user (FaucetMinAccountAge env) ;;
    if negb old then
      c_JSON StatusForbidden (BodyError ErrUserTooNew) ;;; ret false
    else
    m <- lotusGetMinerAddr ctx targetAddr ;;
    let minerAddr := fst m in
    match snd m with
    | MinerOther e =>
        c_JSON StatusInternalServerError (BodyError e) ;;; ret false
    | _ =>
    let isMiner := negb (Address_Empty minerAddr) in
    if negb isMiner && ReceivedNonMinerFaucetGrant user then
      c_JSON StatusForbidden (BodyError "non-miners can only use the faucet once") ;;;
      ret false
    else
    g <- faucetGrant ctx api user targetAddr minerAddr isMiner ;;
    match g with
    | None => ret false
    | Some (targetAddr, owed) =>
    s <- lotusSendFIL fuel ctx faucetAddr targetAddr owed ;;
    match snd s with
    | Some e => c_JSON StatusInternalServerError (BodyError e) ;;; ret false
    | None =>
    let cid := fst s in
    c_JSON StatusOK (BodyCidSent cid owed) ;;;
    go_ (GoFaucet userID user minerAddr cid) ;;;
    ret true
    end
    end
    end
    end)
  (fun r =>
     match r with
     | Done true => ret tt
     | _ => unlockUser userID UserLock_Faucet ;;; ret tt
     end) ;;
  ret tt
  end
  end
  end)
  end
  end.

(** What a goroutine runs. *)
Definition Goroutine_run (fuel : nat) (g : Goroutine) : M unit :=
  match g with
  | GoVerifyAccount userID user TargetAddr cid =>
      serveVerifyAccount_go fuel userID user TargetAddr cid
  | GoFaucet userID user minerAddr cid =>
      serveFaucet_go fuel userID user minerAddr cid
  end.

Fixpoint run_goroutines (fuel : nat) (gs : list Goroutine) : M unit :=
  match gs with
  | [] => ret tt
  | g :: gs' => Goroutine_run fuel g ;;; run_goroutines fuel gs'
  end.

(** A request from the handler's start to the end of the goroutines it
    started. A panic of the handler is recovered by the router
    ([gin.Default()]); the goroutines started before it run all the same. *)
Definition serve (fuel : nat) (handler : M unit) : M unit :=
  fun w =>
    match handler w with
    | (OutOfFuel, w1) => (OutOfFuel, w1)
    | (_, w1) =>
        run_goroutines fuel (spawned (drop (length (trace w)) (trace w1))) w1
    end.

End Program.

(** ** Reading a trace *)

Definition unlock_of (e : Event) : option (string * UserLock) :=
  match e with EvUnlockUser userID lock _ => Some (userID, lock) | _ => None end.

Definition acquire_of (e : Event) : option (string * UserLock) :=
  match e with EvLockUser userID lock None => Some (userID, lock) | _ => None end.

Definition save_of (e : Event) : option User :=
  match e with EvSaveUser user => Some user | _ => None end.

Definition sleep_of (e : Event) : option Duration :=
  match e with EvSleep d => Some d | _ => None end.

Definition push_of (e : Event) : option Message :=
  match e with EvMpoolPushMessage msg _ => Some msg | _ => None end.

Definition estimation_of (e : Event) : option unit :=
  match e with
  | EvGasEstimateGasLimit _ _ | EvGasEstimateGasPrice _ _ _ _ => Some tt
  | _ => None
  end.

(** The calls to [unlockUser] in a trace, in order. *)
Definition unlocks (evs : list Event) : list (string * UserLock) := omap unlock_of evs.

(** The calls to [lockUser] in a trace that acquired the lock. *)
Definition acquired (evs : list Event) : list (string * UserLock) := omap acquire_of evs.

(** The records written with [saveUser]. *)
Definition saves (evs : list Event) : list User := omap save_of evs.

(** The durations slept. *)
Definition sleeps (evs : list Event) : list Duration := omap sleep_of evs.

(** The messages pushed to the message pool. *)
Definition pushed (evs : list Event) : list Message := omap push_of evs.

(** The number of gas estimation calls, of both kinds. *)
Definition estimations (evs : list Event) : nat := length (omap estimation_of evs).

(** An event that touches neither the table nor the locks, pushes no
    message and replies to nobody: a read of the node, a sleep, a log line. *)
Definition is_reading (e : Event) : bool :=
  match e with
  | EvLockUser _ _ _ | EvUnlockUser _ _ _ | EvGetUser _ _ | EvSaveUser _
  | EvMpoolPushMessage _ _ | EvJSON _ _ | EvGo _ => false
  | _ => true
  end.

(** The [n]-th wait of [retry], counted from zero. *)
Fixpoint nth_wait (n : nat) : Duration :=
  match n with
  | O => 5 * Second
  | S n' => next_wait (nth_wait n')
  end.

(** The first [k] waits. *)
Definition waits (k : nat) : list Duration := map nth_wait (seq 0 k).

(** The persisted records without their lock flags. *)
Definition docs (tbl : gmap string Item) : gmap string User := item_doc <$> tbl.

(** ** Sample configuration and collaborators *)

Definition GiB : Z := 1073741824.
Definition day : Duration := 24 * Hour.

Definition sample_env : Env :=
  mkEnv 7 30 (7 * day) (24 * Hour) (Big 5) (Big 100) (Big (32 * GiB)) 2 "t3faucet" "t3verifier".

Definition sample_lib : Library :=
  mkLibrary (fun s => if bool_decide (s = "") then Err "unknown address" else Ok s)
            (fun s => Ok (Big 1))
            (fun a b => Ok a)
            (fun u => negb (bool_decide (MostRecentMinerFaucetGrantCid u = Cid_Undef))).

(** A node that answers at once: it accepts connections and estimates
    gas; what it answers to [StateWaitMsg], the allowance it reports, what
    it answers to a pushed message, the miner behind an address and the
    power at a tipset are given. *)
Definition sample_node_of (wait : Result MsgLookup) (dcap : BigInt)
    (push : Result Cid) (miner : Address * MinerErr)
    (power : TipSetKey -> Result BigInt) : Node :=
  mkNode (fun _ => (0, None))
         (fun _ => (0, Ok "t3wallet"))
         (fun _ _ => (0, Ok 1000))
         (fun _ _ _ _ => (0, Ok (Big 3)))
         (fun _ _ => (0, push))
         (fun _ _ _ => (0, wait))
         (fun _ _ => (0, Ok (Some (mkMsgLookup 0 "tipset-0"))))
         (fun _ _ => (0, Ok "bafy-head"))
         (fun _ _ => (0, Ok "bafy-clients"))
         (fun _ _ => (0, None))
         (fun _ _ _ => (0, (dcap, None)))
         (fun _ _ => (0, miner))
         (fun _ tsk _ => (0, power tsk)).

(** The same, for an address that is no miner and 1 GiB of allowance
    left; every message is taken, and ends with the exit code [exit]. *)
Definition sample_node (exit : Z) : Node :=
  sample_node_of (Ok (mkMsgLookup exit "tipset-1")) (Big GiB) (Ok "bafy-message")
                 (Address_Undef, MinerNotMiner) (fun _ => Ok (Big 0)).

(** A node that refuses every connection. *)
Definition node_down : Node :=
  mkNode (fun _ => (0, Some "connection refused"))
         (fun _ => (0, Err "down"))
         (fun _ _ => (0, Err "down"))
         (fun _ _ _ _ => (0, Err "down"))
         (fun _ _ => (0, Err "down"))
         (fun _ _ _ => (0, Err "down"))
         (fun _ _ => (0, Err "down"))
         (fun _ _ => (0, Err "down"))
         (fun _ _ => (0, Err "down"))
         (fun _ _ => (0, Some "down"))
         (fun _ _ _ => (0, (BigNil, Some "down")))
         (fun _ _ => (0, (Address_Undef, MinerOther "down")))
         (fun _ _ _ => (0, Err "down")).

(** A node whose gas estimations fail the first time they are asked and
    succeed from then on. *)
Definition node_flaky : Node :=
  mkNode (fun _ => (0, None))
         (fun _ => (0, Ok "t3wallet"))
         (fun _ w => (0, if (estimations (trace w) =? 0)%nat then Err "busy" else Ok 1000))
         (fun _ _ _ w => (0, if (estimations (trace w) =? 0)%nat then Err "busy" else Ok (Big 3)))
         (fun _ _ => (0, Ok "bafy-message"))
         (fun _ _ _ => (0, Ok (mkMsgLookup 0 "tipset-1")))
         (fun _ _ => (0, Ok (Some (mkMsgLookup 0 "tipset-0"))))
         (fun _ _ => (0, Ok "bafy-head"))
         (fun _ _ => (0, Ok "bafy-clients"))
         (fun _ _ => (0, None))
         (fun _ _ _ => (0, (Big GiB, None)))
         (fun _ _ => (0, (Address_Undef, MinerNotMiner)))
         (fun _ _ _ => (0, Ok (Big 0))).

(** A subject with one linked account, created at [created]. *)
Definition sample_user (created : Time) : User :=
  mkUser "alice" {[ "github" := mkAccountData "gh-1" "alice" created ]}
         Time_zero "" false Time_zero Cid_Undef.

(** A table that holds [user], with the given extra attributes. *)
Definition sample_table (user : User) (attrs : gmap string AttributeValue)
    : gmap string Item :=
  {[ ID user := mkItem user attrs ]}.

(** The moment the examples run at, well after the zero time. *)
Definition sample_now : Time := 1000 * day.

(** ** A record of the attempts of [retry] *)

(** [logged fn] behaves as [fn] and also notes the error of each call, in
    order, in a list kept next to the state of the closure. The list is
    not read by the program; it serves to state what [retry] does. *)
Definition logged {S : Type} (fn : S -> M (S * option error))
    : S * list (option error) -> M ((S * list (option error)) * option error) :=
  fun sl =>
    r <- fn (fst sl) ;;
    ret ((fst r, snd sl ++ [snd r]), snd r).

(** A closure that emits no [EvSleep] of its own. *)
Definition sleepless {S : Type} (fn : S -> M (S * option error)) : Prop :=
  forall s w, sleeps (trace (snd (fn s w))) = sleeps (trace w).

(** ** Relations between worlds, and runs by their events *)

(** [keeps R m]: from any world, [m] ends in a world related to it by
    [R], however it ends. *)
Definition keeps (R : relation World) {A : Type} (m : M A) : Prop :=
  forall w, R w (snd (m w)).

(** [quietly E]: time has not gone back, the table is as it was, and the
    trace has grown by events that all satisfy [E]. *)
Definition quietly (E : Event -> bool) (w w' : World) : Prop :=
  clock w <= clock w' /\ table w' = table w /\
  exists evs, trace w' = trace w ++ evs /\ forallb E evs = true.

(** An event of a payment run: a read, or a message pushed to [to] with
    the value [amount]. *)
Definition reads_or_pays (to : Address) (amount : BigInt) (e : Event) : bool :=
  match e with
  | EvMpoolPushMessage msg _ =>
      bool_decide (msg_To msg = to) && bool_decide (msg_Value msg = amount)
  | _ => is_reading e
  end.

(** [wpt m w P]: the run of [m] from [w] adds some events [evs] to the
    trace, and [P] holds of the way it ends, of [evs] and of the world it
    ends in. *)
Definition wpt {A : Type} (m : M A) (w : World)
    (P : Outcome A -> list Event -> World -> Prop) : Prop :=
  exists evs, trace (snd (m w)) = trace w ++ evs /\ P (fst (m w)) evs (snd (m w)).

(** The time slept before the [n]-th wait. *)
Fixpoint slept_before (n : nat) : Duration :=
  match n with
  | O => 0
  | S n' => slept_before n' + nth_wait n'
  end.

(** A context whose deadline is at most ten minutes away. *)
Definition within (ctx : Context) (w : World) : Prop :=
  match ctx_deadline ctx with
  | Some D => D - clock w <= 10 * Minute
  | None => False
  end.

(** A run that does not end for want of fuel. *)
Definition ends {A} (r : Outcome A) (evs : list Event) (w' : World) : Prop :=
  r <> OutOfFuel.

(** ** Properties of a run *)

(** The subject and the lock a goroutine releases. *)
Definition lock_of (g : Goroutine) : string * UserLock :=
  match g with
  | GoVerifyAccount userID _ _ _ => (userID, UserLock_Verifier)
  | GoFaucet userID _ _ _ => (userID, UserLock_Faucet)
  end.

(** How a handler leaves the lock of [userID]: never acquired; acquired
    and released, the flag not being true at the end; or acquired and
    handed to the one goroutine it started. *)
Definition handler_post (userID : string) (lock : UserLock)
    (r : Outcome unit) (evs : list Event) (w' : World) : Prop :=
  r = OutOfFuel \/
  (acquired evs = [] /\ unlocks evs = [] /\ spawned evs = []) \/
  (acquired evs = [(userID, lock)] /\ unlocks evs = [(userID, lock)] /\
   spawned evs = [] /\ lock_flag (table w') userID lock <> Some (AttrBool true)) \/
  (acquired evs = [(userID, lock)] /\ unlocks evs = [] /\
   exists g, spawned evs = [g] /\ lock_of g = (userID, lock)).

(** How a goroutine leaves the lock it was handed: released by one call,
    the flag not being true at the end. *)
Definition goroutine_post (g : Goroutine)
    (r : Outcome unit) (evs : list Event) (w' : World) : Prop :=
  r = OutOfFuel \/
  (acquired evs = [] /\ unlocks evs = [lock_of g] /\ spawned evs = [] /\
   lock_flag (table w') (fst (lock_of g)) (snd (lock_of g)) <> Some (AttrBool true)).

(** The address the faucet is meant to pay: the miner's ID address for a
    miner who has requested before, else the address of the request. *)
Definition payment_target (lib : Library) (targetAddr minerAddr : Address)
    (user : User) : Address :=
  if negb (Address_Empty minerAddr) && HasRequestedFromFaucetAsMiner lib user
  then minerAddr else targetAddr.

(** What holds of the messages pushed in a run of [serveFaucet]. *)
Definition pays_target (lib : Library) (c : Request) (evs : list Event) : Prop :=
  forall msg, In msg (pushed evs) ->
    exists targetAddr user minerAddr err,
      address_NewFromString lib (Param_target_addr c) = Ok targetAddr /\
      In (EvGetUser (fst (getUserIDFromJWT c)) (user, None)) evs /\
      In (EvGetMinerAddr targetAddr (minerAddr, err)) evs /\
      msg_To msg = payment_target lib targetAddr minerAddr user.

(** The poll of a goroutine started at [w], under its own deadline of ten
    minutes. *)
Definition poll (node : Node) (fuel : nat) (cid : Cid) (w : World)
    : Outcome (bool * option error) * World :=
  lotusWaitMessageResult node fuel
    (mkContext (Some (Time_Add (clock w) (10 * Minute)))) cid w.

(** ** Worlds, requests and runs of the examples *)

(** A record whose verifier lock is held. *)
Definition held_table : gmap string Item :=
  sample_table (sample_user 0) {[ lock_attr UserLock_Verifier := AttrBool true ]}.

Definition held_world : World := mkWorld sample_now held_table [].

(** A closure that fails at every call and takes no time. *)
Definition always_fails : unit -> M (unit * option error) :=
  fun _ => ret (tt, Some "unavailable").

Definition gas_ctx : Context := mkContext (Some (sample_now + 2 * Minute)).

Definition gas_msg : Message := mkMessage "t3wallet" "t3wallet" (Big 100) (NewInt 0) 0 0 "".

Definition gas_world : World := mkWorld sample_now ∅ [].

(** Requests to [/verify] by the subject ["alice"], whose account was
    linked [age] days ago. *)
Definition verify_request : Request := mkRequest (Ok "t3target") "t3target" ("alice", None).

Definition world_of (user : User) : World :=
  mkWorld sample_now (sample_table user ∅) [].

Definition verify_run (node : Node) (age : Z) : Outcome unit * World :=
  serve node 20 (serveVerifyAccount sample_env node sample_lib 20 verify_request)
        (world_of (sample_user (sample_now - age * day))).

(** Requests to [/faucet/t3target] by the subject ["alice"]. *)
Definition faucet_request : Request := mkRequest (Err "no body") "t3target" ("alice", None).

(** A node for which [t3target] is the miner [t01000], whose power was
    [before] at the tipset of the last grant and is [now]. *)
Definition miner_node (before now : Z) : Node :=
  sample_node_of (Ok (mkMsgLookup 0 "tipset-1")) (Big GiB) (Ok "bafy-message")
                 ("t01000", MinerNil)
                 (fun tsk => if bool_decide (tsk = EmptyTSK) then Ok (Big now)
                             else Ok (Big before)).

(** A subject old enough, who has had a miner grant before or not. *)
Definition faucet_user (repeat : bool) : User :=
  mkUser "alice" {[ "github" := mkAccountData "gh-1" "alice" (sample_now - 40 * day) ]}
         Time_zero "" false Time_zero (if repeat then "bafy-grant" else Cid_Undef).

Definition faucet_run (node : Node) (user : User) : Outcome unit * World :=
  serveFaucet sample_env node sample_lib 20 faucet_request (world_of user).

(** ** More readings of a trace *)

Definition reply_of (e : Event) : option (Z * Body) :=
  match e with EvJSON status body => Some (status, body) | _ => None end.

(** The HTTP replies written with [c.JSON], in order. *)
Definition replies (evs : list Event) : list (Z * Body) := omap reply_of evs.

Definition accept_of (e : Event) : option (Message * Cid) :=
  match e with EvMpoolPushMessage msg (Ok c) => Some (msg, c) | _ => None end.

(** The messages the node has taken into its pool, each with the cid it
    answered. *)
Definition accepted (evs : list Event) : list (Message * Cid) := omap accept_of evs.

(** ** A node that serves a faucet request *)

(** The node accepts the connection, knows its default address,
    estimates gas and takes the message, whenever it is asked. *)
Definition responsive (node : Node) : Prop :=
  (forall w, snd (NewFullNodeRPC node w) = None) /\
  (forall w, exists wallet, snd (WalletDefaultAddress node w) = Ok wallet) /\
  (forall msg w, exists gasLimit, snd (GasEstimateGasLimit node msg w) = Ok gasLimit) /\
  (forall n a l w, exists gasPrice,
      snd (GasEstimateGasPrice node n a l w) = Ok (Big gasPrice)) /\
  (forall msg w, exists cid, snd (MpoolPushMessage node msg w) = Ok cid).

(** Each call [serveFaucet] makes before it sends takes at most ten
    seconds, so that its deadline of two minutes is not reached. *)
Definition prompt (node : Node) : Prop :=
  (forall w, fst (NewFullNodeRPC node w) <= 10 * Second) /\
  (forall w, fst (WalletDefaultAddress node w) <= 10 * Second) /\
  (forall a w, fst (GetMinerAddr node a w) <= 10 * Second) /\
  (forall c w, fst (StateSearchMsg node c w) <= 10 * Second) /\
  (forall a t w, fst (GetMinerPower node a t w) <= 10 * Second).

(** The grant [amount] is due to [user] for the miner address
    [minerAddr] (empty for an address that is no miner), at the time
    [now]. A miner who has requested before is past the rate limit, the
    last grant is found on the chain, and the power read at its tipset
    exceeds the power read now; the grant is then the halved difference in
    GiB, or the minimum. A miner who asks for the first time is due the
    base rate, and so is an address that is no miner, once. *)
Definition grant_due (env : Env) (node : Node) (lib : Library) (user : User)
    (minerAddr : Address) (now : Time) (amount : FIL) : Prop :=
  if negb (Address_Empty minerAddr) then
    if HasRequestedFromFaucetAsMiner lib user then
      Time_After (Time_Add (MostRecentMinerFaucetGrant user) (FaucetRateLimit env)) now
      = false /\
      exists receipt prevPower currentPower minGrant,
        (forall w, snd (StateSearchMsg node (MostRecentMinerFaucetGrantCid user) w)
                   = Ok (Some receipt)) /\
        (forall w, snd (GetMinerPower node minerAddr (TipSet receipt) w)
                   = Ok (Big prevPower)) /\
        (forall w, snd (GetMinerPower node minerAddr EmptyTSK w) = Ok (Big currentPower)) /\
        FaucetMinGrant env = Big minGrant /\
        0 < prevPower - currentPower /\
        amount = Big (Z.max ((prevPower - currentPower) / 2 ^ 30 / 2) minGrant)
    else amount = FaucetBaseRate env
  else ReceivedNonMinerFaucetGrant user = false /\ amount = FaucetBaseRate env.

(** A run that only reads: it replies nothing, pushes nothing and starts
    no goroutine. *)
Definition silent (evs : list Event) : Prop :=
  pushed evs = [] /\ accepted evs = [] /\ replies evs = [] /\ spawned evs = [].

Definition lookup_of (e : Event) : option (string * (User * option error)) :=
  match e with EvGetUser userID r => Some (userID, r) | _ => None end.

(** The calls to [getUserByID], each with what it returned. *)
Definition lookups (evs : list Event) : list (string * (User * option error)) :=
  omap lookup_of evs.

(** The cid a goroutine polls, and the record it was started with. *)
Definition cid_of (g : Goroutine) : Cid :=
  match g with
  | GoVerifyAccount _ _ _ cid => cid
  | GoFaucet _ _ _ cid => cid
  end.

Definition user_of (g : Goroutine) : User :=
  match g with
  | GoVerifyAccount _ user _ _ => user
  | GoFaucet _ user _ _ => user
  end.

Definition find_of (e : Event) : option (Cid * string * (BigInt * option error)) :=
  match e with EvHamtFind root key r => Some (root, key, r) | _ => None end.

(** The lookups in a table of the registry: the root, the key and the
    answer of each. *)
Definition finds (evs : list Event) : list (Cid * string * (BigInt * option error)) :=
  omap find_of evs.

(** The events of opening a connection: the dial and the waits between
    two attempts. *)
Definition is_connecting (e : Event) : bool :=
  match e with
  | EvNewFullNodeRPC _ | EvSleep _ => true
  | _ => false
  end.

(** ** What a call to the node leaves behind *)

(** The message [lotusSendFIL] submits, from the two estimates. *)
Definition transfer_message (env : Env) (fromAddr toAddr : Address) (filAmount : FIL)
    (gasLimit gasPrice : Z) : Message :=
  mkMessage toAddr fromAddr filAmount (Big (gasPrice * GasMultiple env))
            (wrap64 (gasLimit * wrap64 (GasMultiple env))) 0 "".

(** The message [lotusVerifyAccount] submits. No value is set: the field
    keeps its zero value. *)
Definition allocation_message (env : Env) (params : string) (gasLimit gasPrice : Z)
    : Message :=
  mkMessage VerifiedRegistryActorAddr (LotusVerifierAddr env) BigNil
            (Big (gasPrice * GasMultiple env))
            (wrap64 (gasLimit * wrap64 (GasMultiple env))) AddVerifiedClient params.

(** How a submission ends: with a nil error one message has been pushed,
    [msg], and the node has taken it under the returned cid; with an error
    the cid is undefined and the node has taken nothing; a run that
    panics has pushed nothing. *)
Definition submission (msg : Message -> Prop) (r : Outcome (Cid * option error))
    (evs : list Event) : Prop :=
  match r with
  | Done (c, None) => exists m, msg m /\ pushed evs = [m] /\ accepted evs = [(m, c)]
  | Done (c, Some _) => c = Cid_Undef /\ accepted evs = [] /\ (length (pushed evs) <= 1)%nat
  | Panic _ | OutOfFuel => pushed evs = []
  end.

Definition sendFIL_post (env : Env) (fromAddr toAddr : Address) (filAmount : FIL)
    (r : Outcome (Cid * option error)) (evs : list Event) (w' : World) : Prop :=
  submission
    (fun m => exists wallet gasLimit gasPrice,
       In (EvWalletDefaultAddress (Ok wallet)) evs /\
       In (EvGasEstimateGasLimit
             (mkMessage wallet wallet filAmount (NewInt 0) 0 0 "") (Ok gasLimit)) evs /\
       In (EvGasEstimateGasPrice 0 fromAddr gasLimit (Ok (Big gasPrice))) evs /\
       m = transfer_message env fromAddr toAddr filAmount gasLimit gasPrice)
    r evs.

(** The three conversions [lotusVerifyAccount] starts with. *)
Definition allocation_params (lib : Library) (targetAddr allowanceStr : string)
    : Result string :=
  match address_NewFromString lib targetAddr with
  | Err e => Err e
  | Ok target =>
      match types_BigFromString lib allowanceStr with
      | Err e => Err e
      | Ok allowance => actors_SerializeParams lib target allowance
      end
  end.

Definition verifyAccount_post (env : Env) (lib : Library) (targetAddr allowanceStr : string)
    (r : Outcome (Cid * option error)) (evs : list Event) (w' : World) : Prop :=
  match allocation_params lib targetAddr allowanceStr with
  | Err e => r = Done (Cid_Undef, Some e) /\ evs = []
  | Ok params =>
      submission
        (fun m => exists gasLimit gasPrice,
           In (EvGasEstimateGasLimit
                 (mkMessage VerifiedRegistryActorAddr (LotusVerifierAddr env) BigNil
                            (NewInt 0) 0 AddVerifiedClient params) (Ok gasLimit)) evs /\
           In (EvGasEstimateGasPrice 0 (LotusVerifierAddr env) gasLimit
                                     (Ok (Big gasPrice))) evs /\
           m = allocation_message env params gasLimit gasPrice)
        r evs
  end.

(** How [lotusGetFullNodeAPI] ends: a nil error comes with a client,
    unless the context was done at the call; an error comes with no
    client, the context being done. It does not panic. *)
Definition connection (ctx : Context) (w : World)
    (r : Outcome (FullNode * option error)) (w' : World) : Prop :=
  match r with
  | Done (api, None) =>
      if ctx_done ctx w then api = ApiNil /\ w' = w else api = ApiClient
  | Done (api, Some _) => api = ApiNil /\ ctx_done ctx w = false /\ ctx_done ctx w' = true
  | Panic _ => False
  | OutOfFuel => True
  end.

(** ** [lotus.go]: the registry tables *)

(** What the functions below ask beyond [Node]: the root of the
    verifiers' table in the registry state read with [cst.Get]
    ([st.Verifiers]; [CborGet] of [Node] gives [st.VerifiedClients]), and
    the entries [vh.ForEach] visits, in order, each a key and the raw CBOR
    of its value, with the error the iteration itself ends with, if any. *)
Record Registry : Type := mkRegistry {
  CborGet_Verifiers : Cid -> World -> Duration * Result Cid;
  HamtForEach : Cid -> World -> Duration * (list (string * string) * option error);
}.

(** [address.NewFromBytes] and [DataCap.UnmarshalCBOR]. *)
Record Codec : Type := mkCodec {
  address_NewFromBytes : string -> Result Address;
  DataCap_UnmarshalCBOR : string -> Result BigInt;
}.

Record AddrAndDataCap : Type := mkAddrAndDataCap {
  adc_Address : Address;
  adc_DataCap : BigInt;
}.

(** A call that is not recorded in the trace; it takes its time. *)
Definition consult {A} (oracle : World -> Duration * A) : M A :=
  fun w =>
    let '(d, a) := oracle w in
    (Done a, mkWorld (clock w + Z.max 0 d) (table w) (trace w)).

Section Registry.

Context (node : Node) (lib : Library) (reg : Registry) (codec : Codec).

(** [lotusCheckVerifierRemainingBytes]: the reads of
    [lotusCheckAccountRemainingBytes] on the verifiers' table, without
    [ignoreNotFound] and without the test for the nil pointer. *)
Definition lotusCheckVerifierRemainingBytes (fuel : nat) (ctx : Context)
    (targetAddr : string) : M (BigInt * option error) :=
  match address_NewFromString lib targetAddr with
  | Err e => ret (BigNil, Some e)
  | Ok vaddr =>
  a <- lotusGetFullNodeAPI node fuel ctx ;;
  match snd a with
  | Some e => ret (BigNil, Some e)
  | None =>
  let api := fst a in
  defer_closer api (
    act <- api_call api (StateGetActor node VerifiedRegistryActorAddr)
                        (EvStateGetActor VerifiedRegistryActorAddr) ;;
    match act with
    | Err e => ret (BigNil, Some e)
    | Ok head =>
    st <- ask (CborGet_Verifiers reg head) (EvCborGet head) ;;
    match st with
    | Err e => ret (BigNil, Some e)
    | Ok Verifiers =>
    ld <- ask (HamtLoadNode node Verifiers) (EvHamtLoadNode Verifiers) ;;
    match ld with
    | Some e => ret (BigNil, Some e)
    | None =>
    f <- ask (HamtFind node Verifiers vaddr) (EvHamtFind Verifiers vaddr) ;;
    match snd f with
    | Some e => ret (BigNil, Some e)
    | None => ret (fst f, None)
    end
    end
    end
    end)
  end
  end.

(** The callback of the two listings, run over the entries in the order
    [ForEach] visits them: an entry that does not decode ends the
    iteration with its error; [resp] holds what was appended before. *)
Fixpoint collect (entries : list (string * string)) (resp : list AddrAndDataCap)
    : list AddrAndDataCap * option error :=
  match entries with
  | [] => (resp, None)
  | (k, raw) :: rest =>
      match address_NewFromBytes codec k with
      | Err e => (resp, Some e)
      | Ok addr =>
          match DataCap_UnmarshalCBOR codec raw with
          | Err e => (resp, Some e)
          | Ok dcap => collect rest (resp ++ [mkAddrAndDataCap addr dcap])
          end
      end
  end.

(** [vh.ForEach(ctx, callback)] and the [return resp, err] after it. *)
Definition forEach_collect (root : Cid) : M (list AddrAndDataCap * option error) :=
  it <- consult (HamtForEach reg root) ;;
  ret (fst (collect (fst it) []),
       match snd (collect (fst it) []) with
       | Some e => Some e
       | None => snd it
       end).

Definition lotusListVerifiers (fuel : nat) (ctx : Context)
    : M (list AddrAndDataCap * option error) :=
  a <- lotusGetFullNodeAPI node fuel ctx ;;
  match snd a with
  | Some e => ret ([], Some e)
  | None =>
  let api := fst a in
  defer_closer api (
    act <- api_call api (StateGetActor node VerifiedRegistryActorAddr)
                        (EvStateGetActor VerifiedRegistryActorAddr) ;;
    match act with
    | Err e => ret ([], Some e)
    | Ok head =>
    st <- ask (CborGet_Verifiers reg head) (EvCborGet head) ;;
    match st with
    | Err e => ret ([], Some e)
    | Ok Verifiers =>
    ld <- ask (HamtLoadNode node Verifiers) (EvHamtLoadNode Verifiers) ;;
    match ld with
    | Some e => ret ([], Some e)
    | None => forEach_collect Verifiers
    end
    end
    end)
  end.

Definition lotusListVerifiedClients (fuel : nat) (ctx : Context)
    : M (list AddrAndDataCap * option error) :=
  a <- lotusGetFullNodeAPI node fuel ctx ;;
  match snd a with
  | Some e => ret ([], Some e)
  | None =>
  let api := fst a in
  defer_closer api (
    act <- api_call api (StateGetActor node VerifiedRegistryActorAddr)
                        (EvStateGetActor VerifiedRegistryActorAddr) ;;
    match act with
    | Err e => ret ([], Some e)
    | Ok head =>
    st <- ask (CborGet node head) (EvCborGet head) ;;
    match st with
    | Err e => ret ([], Some e)
    | Ok VerifiedClients =>
    ld <- ask (HamtLoadNode node VerifiedClients) (EvHamtLoadNode VerifiedClients) ;;
    match ld with
    | Some e => ret ([], Some e)
    | None => forEach_collect VerifiedClients
    end
    end
    end)
  end.

End Registry.

(** An entry and its decoding. *)
Definition decodes (codec : Codec) (entry : string * string) (item : AddrAndDataCap)
    : Prop :=
  address_NewFromBytes codec (fst entry) = Ok (adc_Address item) /\
  DataCap_UnmarshalCBOR codec (snd entry) = Ok (adc_DataCap item).

(** What [lotusCheckAccountRemainingBytes] makes of the answer of
    [vh.Find]: an error that says "not found" is dropped, and a nil amount
    becomes 0. *)
Definition account_answer (found : BigInt) (ferr : option error) : BigInt * option error :=
  match ignoreNotFound ferr with
  | Some _ => (BigNil, ferr)
  | None => (match found with Big z => Big z | BigNil => Big 0 end, None)
  end.

(** What [lotusCheckVerifierRemainingBytes] makes of it: every error is
    returned, and the amount is returned as found. *)
Definition verifier_answer (found : BigInt) (ferr : option error) : BigInt * option error :=
  match ferr with
  | Some e => (BigNil, Some e)
  | None => (found, None)
  end.

(** A run that looks up [key] at most once, and whose result is
    [answer] of what was found; without a lookup it ends with an error and
    the nil amount, or panics. *)
Definition lookup_post (answer : BigInt -> option error -> BigInt * option error)
    (key : string) (r : Outcome (BigInt * option error)) (evs : list Event) (w' : World)
    : Prop :=
  match finds evs with
  | [] =>
      match r with
      | Done (v, None) => False
      | Done (v, Some _) => v = BigNil
      | Panic _ | OutOfFuel => True
      end
  | [(root, k, (found, ferr))] => k = key /\ r = Done (answer found ferr)
  | _ => False
  end.

(** Why an entry does not decode: the error of its key, or, the key
    being an address, the error of its value. *)
Definition decode_error (codec : Codec) (entry : string * string) (e : error) : Prop :=
  address_NewFromBytes codec (fst entry) = Err e \/
  (exists addr, address_NewFromBytes codec (fst entry) = Ok addr) /\
  DataCap_UnmarshalCBOR codec (snd entry) = Err e.

(** A listing of the entries [visited], which the iteration ended with
    [ferr]: [resp] holds the decodings of the entries before the first one
    that does not decode, in order, and [err] is the error of that entry;
    when all decode, [resp] holds them all and [err] is [ferr]. *)
Definition listing (codec : Codec) (visited : list (string * string))
    (ferr : option error) (resp : list AddrAndDataCap) (err : option error) : Prop :=
  exists pre,
    Forall2 (decodes codec) pre resp /\
    (pre = visited /\ err = ferr \/
     exists bad rest e,
       visited = pre ++ bad :: rest /\ decode_error codec bad e /\ err = Some e).

(** How a listing function ends: it has failed before the iteration and
    returns the nil slice, or it returns a listing of what [ForEach]
    visited under some root. *)
Definition listing_post (reg : Registry) (codec : Codec)
    (r : Outcome (list AddrAndDataCap * option error)) (evs : list Event) (w' : World)
    : Prop :=
  match r with
  | Done (resp, err) =>
      (resp = [] /\ err <> None) \/
      exists root w1,
        listing codec (fst (snd (HamtForEach reg root w1)))
                (snd (snd (HamtForEach reg root w1))) resp err
  | Panic _ | OutOfFuel => True
  end.

(** ** What a handler leaves behind *)

(** How a handler replies. When it returns it has replied once. The
    reply is 200 exactly when the node has taken a message in this run;
    the body is then [body_of] that message and its cid, and one goroutine
    has been started, for that cid and with the record that was read in
    this run. Otherwise no goroutine is started. A handler that panics has
    not replied, and the node has taken nothing. *)
Definition reply_post (body_of : Message -> Cid -> Body)
    (r : Outcome unit) (evs : list Event) (w' : World) : Prop :=
  match r with
  | Done _ =>
      exists status body,
        replies evs = [(status, body)] /\
        match accepted evs with
        | [] => status <> StatusOK /\ spawned evs = []
        | [(msg, c)] =>
            status = StatusOK /\ body = body_of msg c /\
            exists g, spawned evs = [g] /\ cid_of g = c /\
                      lookups evs = [(fst (lock_of g), (user_of g, None))]
        | _ => False
        end
  | Panic _ => replies evs = [] /\ accepted evs = [] /\ spawned evs = []
  | OutOfFuel => True
  end.

(** The record a handler works on: [getUserByID] is called at most once,
    for the subject of the request and under its lock, and finds a
    record. *)
Definition record_post (userID : string) (lock : UserLock)
    (r : Outcome unit) (evs : list Event) (w' : World) : Prop :=
  match lookups evs with
  | [] => True
  | [(u, (user, err))] =>
      u = userID /\ err = None /\ acquired evs = [(userID, lock)]
  | _ => False
  end.

(** What has held when the node takes the message [m] in a run of
    [serveVerifyAccount] started at [w]: the request was bound and
    authenticated, the verifier lock of the subject was acquired, the
    record read under it has an account that passes the age test and no
    allocation in the last 30 days (both at the time of [w]; the record
    store answers at once), the allowance found in the registry for the
    target leaves a positive difference to [env.MaxAllowanceBytes], and
    [m] is the allocation message for that difference. *)
Definition verify_conditions (env : Env) (lib : Library) (c : Request) (w : World)
    (evs : list Event) (m : Message) : Prop :=
  let userID := fst (getUserIDFromJWT c) in
  exists TargetAddr user caddr root found ferr maxAllowance remaining params
         gasLimit gasPrice,
    ShouldBindJSON c = Ok TargetAddr /\
    snd (getUserIDFromJWT c) = None /\
    acquired evs = [(userID, UserLock_Verifier)] /\
    lookups evs = [(userID, (user, None))] /\
    existsb (fun kv => account_is_old env (clock w) (snd kv))
            (map_to_list (Accounts user)) = true /\
    Time_After (Time_Add (MostRecentAllocation user) (30 * 24 * Hour)) (clock w) = false /\
    address_NewFromString lib TargetAddr = Ok caddr /\
    In (root, caddr, (found, ferr)) (finds evs) /\
    account_answer found ferr = (Big remaining, None) /\
    MaxAllowanceBytes env = Big maxAllowance /\
    0 < maxAllowance - remaining /\
    allocation_params lib TargetAddr (pretty (maxAllowance - remaining)) = Ok params /\
    m = allocation_message env params gasLimit gasPrice.

(* ===================================================================== *)
(** * Part II: properties *)
(* ===================================================================== *)

(** ** Arithmetic of durations *)

Lemma wrap64_small (z : Z) : - 2 ^ 63 <= z < 2 ^ 63 -> wrap64 z = z.
Proof.
  intros Hz. unfold wrap64.
  rewrite Z.mod_small by lia. lia.
Qed.

Lemma Hour_eq : Hour = 3600000000000.
Proof. reflexivity. Qed.

(** In hours, two durations compare as they do in nanoseconds. *)
Lemma Duration_Hours_le (a b : Duration) :
  Qle_bool (Duration_Hours a) (Duration_Hours b) = (a <=? b).
Proof.
  unfold Duration_Hours. rewrite Hour_eq.
  change (60 * 60 * 1000000000) with 3600000000000.
  unfold Qle_bool, Qdiv, Qinv, Qmult, Qplus, inject_Z.
  cbn [Qnum Qden Pos.mul].
  pose proof (Z.quot_rem' a 3600000000000) as Ha.
  pose proof (Z.quot_rem' b 3600000000000) as Hb.
  apply eq_iff_eq_true. rewrite Z.leb_le, Z.leb_le.
  lia.
Qed.

(** ** The lock: [lockUser] and [unlockUser] *)

(** [lockUser] succeeds on every record that has no attribute ["Locked"],
    whatever the lock flag is, and the flag is true afterwards. *)
Lemma lockUser_without_Locked (userID : string) (lock : UserLock) (w : World) :
  (forall i, table w !! userID = Some i -> item_attrs i !! "Locked" = None) ->
  fst (lockUser userID lock w) = Done None /\
  lock_flag (table (snd (lockUser userID lock w))) userID lock = Some (AttrBool true).
Proof.
  intros Hno. unfold lockUser, Update_Set_If_Run, lock_flag.
  assert (Hc : Cond_eval
            (CondOr (CondEq (lock_attr lock) (AttrBool false)) (CondNotExists "Locked"))
            (table w !! userID) = true).
  { cbn [Cond_eval]. destruct (table w !! userID) as [i|] eqn:Hi.
    - rewrite (Hno i eq_refl). rewrite (bool_decide_eq_true_2 _ eq_refl).
      apply orb_true_r.
    - reflexivity. }
  rewrite Hc. cbn [fst snd table]. split; [reflexivity|].
  rewrite lookup_insert_eq.
  destruct (table w !! userID); cbn [item_attrs].
  - apply lookup_insert_eq.
  - apply lookup_singleton_eq.
Qed.

(** [lockUser] is refused exactly when the record has an attribute
    ["Locked"] and its flag is not false; nothing is written then. *)
Lemma lockUser_conflict (userID : string) (lock : UserLock) (w : World) (e : error) :
  fst (lockUser userID lock w) = Done (Some e) <->
  e = ErrConditionalCheckFailed /\
  exists i, table w !! userID = Some i /\ item_attrs i !! "Locked" <> None /\
            item_attrs i !! lock_attr lock <> Some (AttrBool false).
Proof.
  unfold lockUser, Update_Set_If_Run. cbn [Cond_eval].
  destruct (table w !! userID) as [i|] eqn:Hi; cbn [orb fst].
  - destruct (bool_decide (item_attrs i !! lock_attr lock = Some (AttrBool false))) eqn:H1;
      destruct (bool_decide (item_attrs i !! "Locked" = None)) eqn:H2; cbn [orb fst];
      try apply bool_decide_eq_true_1 in H1; try apply bool_decide_eq_true_1 in H2;
      try apply bool_decide_eq_false_1 in H1; try apply bool_decide_eq_false_1 in H2.
    all: split; [intros H; try discriminate | intros [He (j & Hj & Hl & Hf)]].
    all: try (injection Hj as <-; congruence).
    injection H as <-. split; [reflexivity|]. exists i. auto.
  - split; [discriminate | intros [_ (j & Hj & _)]; discriminate].
Qed.

(** After [unlockUser] the flag is not true, whatever it was. *)
Lemma unlockUser_flag (userID : string) (lock : UserLock) (w : World) :
  lock_flag (table (snd (unlockUser userID lock w))) userID lock <> Some (AttrBool true).
Proof.
  unfold unlockUser, Update_Set_If_Run, lock_flag. cbn [Cond_eval].
  destruct (table w !! userID) as [i|] eqn:Hi.
  - destruct (bool_decide (item_attrs i !! lock_attr lock = Some (AttrBool true))) eqn:H1;
      cbn [snd table].
    + rewrite lookup_insert_eq. cbn [item_attrs]. rewrite lookup_insert_eq. discriminate.
    + rewrite Hi. apply bool_decide_eq_false_1 in H1. exact H1.
  - cbn [snd table]. rewrite Hi. discriminate.
Qed.

(** [unlockUser] writes no field of any record, and creates none. *)
Lemma unlockUser_docs (userID : string) (lock : UserLock) (w : World) :
  docs (table (snd (unlockUser userID lock w))) = docs (table w).
Proof.
  unfold unlockUser, Update_Set_If_Run, docs. cbn [Cond_eval].
  destruct (table w !! userID) as [i|] eqn:Hi; [|reflexivity].
  destruct (bool_decide _); [|reflexivity]. cbn [snd table].
  rewrite fmap_insert. cbn [item_doc].
  apply insert_id. rewrite lookup_fmap, Hi. reflexivity.
Qed.

(** C1 (the code departs from the specification). On a record whose verifier lock
    is already held, [lockUser] does not report a conflict: it returns nil,
    and the flag stays true. The second disjunct of its condition tests the
    attribute ["Locked"], which no record has, instead of the lock flag. *)
Theorem lockUser_held_lock_acquired_again :
  lock_flag (table held_world) "alice" UserLock_Verifier = Some (AttrBool true) /\
  fst (lockUser "alice" UserLock_Verifier held_world) = Done None /\
  lock_flag (table (snd (lockUser "alice" UserLock_Verifier held_world)))
            "alice" UserLock_Verifier = Some (AttrBool true).
Proof. vm_compute. repeat split. Qed.

(** The sibling [unlockUser] tests the flag itself: on a free lock it is
    refused. *)
Example unlockUser_free_lock_refused :
  fst (unlockUser "alice" UserLock_Verifier
         (mkWorld sample_now (sample_table (sample_user 0) ∅) []))
  = Done (Some ErrConditionalCheckFailed).
Proof. vm_compute. reflexivity. Qed.

(** ** Eligibility: [HasAccountOlderThan] *)

Section Eligibility.

Context (env : Env).

(** The result does not depend on the threshold passed in. *)
Lemma HasAccountOlderThan_threshold (user : User) (t1 t2 : Duration) :
  HasAccountOlderThan env user t1 = HasAccountOlderThan env user t2.
Proof. reflexivity. Qed.

(** It reads the clock and changes nothing. *)
Lemma HasAccountOlderThan_world (user : User) (t : Duration) (w : World) :
  snd (HasAccountOlderThan env user t w) = w.
Proof. reflexivity. Qed.

(** What it computes: some linked account is at least
    [env.MinAccountAgeDays] days old. *)
Lemma HasAccountOlderThan_spec (user : User) (t : Duration) (w : World) :
  0 <= MinAccountAgeDays env <= 1000 ->
  (forall k a, Accounts user !! k = Some a ->
               minDuration <= clock w - CreatedAt a <= maxDuration) ->
  fst (HasAccountOlderThan env user t w) = Done true <->
  exists k a, Accounts user !! k = Some a /\
              MinAccountAgeDays env * day <= clock w - CreatedAt a.
Proof.
  intros Hdays Hrange.
  unfold HasAccountOlderThan, bind, time_Now, ret. cbn [fst].
  assert (Hold : forall k a, Accounts user !! k = Some a ->
            account_is_old env (clock w) a
            = (MinAccountAgeDays env * day <=? clock w - CreatedAt a)).
  { intros k a Ha. unfold account_is_old. rewrite Duration_Hours_le.
    unfold Duration_mul. rewrite (wrap64_small (MinAccountAgeDays env)) by lia.
    rewrite (wrap64_small (MinAccountAgeDays env * 24)) by lia.
    rewrite Hour_eq. rewrite wrap64_small by lia.
    unfold Time_Sub. pose proof (Hrange k a Ha) as Hr.
    destruct (Z.ltb_spec (clock w - CreatedAt a) minDuration); [lia|].
    destruct (Z.ltb_spec maxDuration (clock w - CreatedAt a)); [lia|].
    unfold day. rewrite Hour_eq.
    replace (MinAccountAgeDays env * 24 * 3600000000000)
      with (MinAccountAgeDays env * (24 * 3600000000000)) by lia.
    reflexivity. }
  split.
  - intros H. injection H as H. apply existsb_exists in H.
    destruct H as ([k a] & Hin & Ha). cbn [snd] in Ha.
    apply list_elem_of_In, elem_of_map_to_list in Hin.
    exists k, a. split; [exact Hin|].
    rewrite (Hold k a Hin) in Ha. lia.
  - intros (k & a & Hka & Hage). f_equal. apply existsb_exists.
    exists (k, a). split.
    + apply list_elem_of_In, elem_of_map_to_list. exact Hka.
    + cbn [snd]. rewrite (Hold k a Hka). lia.
Qed.

End Eligibility.

(** C3 (the code departs from the specification). With a threshold of 30 days
    passed in and [env.MinAccountAgeDays] at 7, an account linked 29 days
    ago makes the function return true: the argument is not read. *)
Theorem HasAccountOlderThan_29_days_under_30_day_threshold :
  HasAccountOlderThan sample_env (sample_user (sample_now - 29 * day)) (30 * day)
    (mkWorld sample_now ∅ [])
  = (Done true, mkWorld sample_now ∅ []).
Proof. vm_compute. reflexivity. Qed.

(** The other case of the specification, for comparison: 31 days. *)
Example HasAccountOlderThan_31_days :
  fst (HasAccountOlderThan sample_env (sample_user (sample_now - 31 * day)) (30 * day)
         (mkWorld sample_now ∅ []))
  = Done true.
Proof. vm_compute. reflexivity. Qed.

(** ** The faucet quota: [minerGrantSize] *)

Section Quota.

Context (env : Env).

(** A positive difference: the two floor divisions, then the lower bound. *)
Lemma minerGrantSize_positive (p c m : Z) :
  FaucetMinGrant env = Big m ->
  0 < p - c ->
  minerGrantSize env (Big p) (Big c) = Done (Big (Z.max ((p - c) / 2 ^ 30 / 2) m)).
Proof.
  intros Hm Hd. unfold minerGrantSize, BigSub, BigCmp, NewInt, obind.
  destruct (Z.compare_spec (p - c) 0) as [H|H|H]; try lia.
  change (0 <? 1) with true. cbn iota.
  unfold BigDiv. change (1073741824 =? 0) with false. change (2 =? 0) with false.
  cbn iota. unfold euclid_div.
  change (0 <? 1073741824) with true. change (0 <? 2) with true. cbn iota.
  rewrite Hm. change (2 ^ 30) with 1073741824.
  destruct (Z.compare_spec ((p - c) / 1073741824 / 2) m) as [H1|H1|H1].
  - change (0 <? 0) with false. cbn iota. f_equal. f_equal. lia.
  - change (-1 <? 0) with true. cbn iota. f_equal. f_equal. lia.
  - change (1 <? 0) with false. cbn iota. f_equal. f_equal. lia.
Qed.

(** No positive difference: [owed] keeps the zero value of [types.FIL],
    whose pointer is nil, and the comparison with the lower bound
    dereferences it. *)
Lemma minerGrantSize_not_positive (p c : Z) :
  p - c <= 0 ->
  minerGrantSize env (Big p) (Big c) = Panic nil_dereference.
Proof.
  intros Hd. unfold minerGrantSize, BigSub, BigCmp, NewInt, obind.
  destruct (Z.compare_spec (p - c) 0) as [H|H|H]; try lia; reflexivity.
Qed.

End Quota.

(** The example of the specification: 100 GiB before, 80 GiB now. *)
Example minerGrantSize_100_80 :
  minerGrantSize sample_env (Big (100 * GiB)) (Big (80 * GiB)) = Done (Big 10).
Proof. vm_compute. reflexivity. Qed.

(** C5 (the code departs from the specification). With 80 GiB before and 100 GiB
    now the difference is negative; the grant is not raised to the
    configured minimum: the computation panics. *)
Theorem minerGrantSize_negative_difference_panics :
  minerGrantSize sample_env (Big (80 * GiB)) (Big (100 * GiB)) = Panic nil_dereference /\
  minerGrantSize sample_env (Big (80 * GiB)) (Big (80 * GiB)) = Panic nil_dereference.
Proof. split; vm_compute; reflexivity. Qed.

(** ** The effect monad *)


Lemma bind_Done {A B} (m : M A) (k : A -> M B) (w : World) (a : A) (w1 : World) :
  m w = (Done a, w1) -> bind m k w = k a w1.
Proof. unfold bind. intros ->. reflexivity. Qed.

Lemma sleeps_app (l1 l2 : list Event) : sleeps (l1 ++ l2) = sleeps l1 ++ sleeps l2.
Proof. apply omap_app. Qed.

Lemma time_Sleep_run (d : Duration) (w : World) :
  time_Sleep d w
  = (Done tt, mkWorld (clock w + Z.max 0 d) (table w) (trace w ++ [EvSleep d])).
Proof. reflexivity. Qed.

(** ** The retry helper *)

Section Retry.

Context {S : Type}.
Implicit Types (fn : S -> M (S * option error)) (ctx : Context).

(** One turn of the loop. *)
Lemma retry_loop_done fuel ctx fn wait err s w :
  ctx_done ctx w = true ->
  retry_loop (Datatypes.S fuel) ctx fn wait err s w = (Done (s, err), w).
Proof.
  intros Hd. cbn [retry_loop]. unfold bind at 1, ctx_Done. rewrite Hd. reflexivity.
Qed.

Lemma retry_loop_success fuel ctx fn wait err s w s1 w1 :
  ctx_done ctx w = false ->
  fn s w = (Done (s1, None), w1) ->
  retry_loop (Datatypes.S fuel) ctx fn wait err s w = (Done (s1, None), w1).
Proof.
  intros Hd Hfn. cbn [retry_loop]. unfold bind at 1, ctx_Done. rewrite Hd.
  unfold bind at 1. rewrite Hfn. reflexivity.
Qed.

Lemma retry_loop_failure fuel ctx fn wait err s w s1 e w1 :
  ctx_done ctx w = false ->
  fn s w = (Done (s1, Some e), w1) ->
  retry_loop (Datatypes.S fuel) ctx fn wait err s w
  = retry_loop fuel ctx fn (next_wait wait) (Some e) s1
      (mkWorld (clock w1 + Z.max 0 wait) (table w1) (trace w1 ++ [EvSleep wait])).
Proof.
  intros Hd Hfn. cbn [retry_loop]. unfold bind at 1, ctx_Done. rewrite Hd.
  unfold bind at 1. rewrite Hfn. cbn [snd fst].
  unfold bind at 1. rewrite time_Sleep_run. reflexivity.
Qed.

Lemma retry_loop_panic fuel ctx fn wait err s w msg w1 :
  ctx_done ctx w = false ->
  fn s w = (Panic msg, w1) ->
  retry_loop (Datatypes.S fuel) ctx fn wait err s w = (Panic msg, w1).
Proof.
  intros Hd Hfn. cbn [retry_loop]. unfold bind at 1, ctx_Done. rewrite Hd.
  unfold bind at 1. rewrite Hfn. reflexivity.
Qed.

Lemma retry_loop_out_of_fuel fuel ctx fn wait err s w w1 :
  ctx_done ctx w = false ->
  fn s w = (OutOfFuel, w1) ->
  retry_loop (Datatypes.S fuel) ctx fn wait err s w = (OutOfFuel, w1).
Proof.
  intros Hd Hfn. cbn [retry_loop]. unfold bind at 1, ctx_Done. rewrite Hd.
  unfold bind at 1. rewrite Hfn. reflexivity.
Qed.

(** The ways a turn can go, from its result. *)
Lemma retry_loop_inv fuel ctx fn wait err s w r w' :
  retry_loop (Datatypes.S fuel) ctx fn wait err s w = (r, w') ->
  (ctx_done ctx w = true /\ r = Done (s, err) /\ w' = w) \/
  (ctx_done ctx w = false /\ exists s1, r = Done (s1, None) /\ fn s w = (Done (s1, None), w')) \/
  (ctx_done ctx w = false /\ exists s1 e w1, fn s w = (Done (s1, Some e), w1) /\
     retry_loop fuel ctx fn (next_wait wait) (Some e) s1
       (mkWorld (clock w1 + Z.max 0 wait) (table w1) (trace w1 ++ [EvSleep wait]))
     = (r, w')) \/
  (ctx_done ctx w = false /\ exists msg, fn s w = (Panic msg, w') /\ r = Panic msg) \/
  (ctx_done ctx w = false /\ fn s w = (OutOfFuel, w') /\ r = OutOfFuel).
Proof.
  intros H. destruct (ctx_done ctx w) eqn:Hd.
  - rewrite retry_loop_done in H by exact Hd. injection H as <- <-. auto.
  - right. destruct (fn s w) as [[[s1 [e|]]|msg|] w1] eqn:Hfn.
    + rewrite (retry_loop_failure _ _ _ _ _ _ _ _ _ _ Hd Hfn) in H.
      right. left. split; [reflexivity|]. eauto.
    + rewrite (retry_loop_success _ _ _ _ _ _ _ _ _ Hd Hfn) in H.
      injection H as <- <-. left. eauto.
    + rewrite (retry_loop_panic _ _ _ _ _ _ _ _ _ Hd Hfn) in H.
      injection H as <- <-. right. right. left. eauto.
    + rewrite (retry_loop_out_of_fuel _ _ _ _ _ _ _ _ Hd Hfn) in H.
      injection H as <- <-. right. right. right. eauto.
Qed.

(** When [retry] returns without an error, either the context was done
    when it looked first and nothing was called, or the last thing it did
    was a call of [fn] that succeeded. When it returns an error, the
    context is done. *)
Lemma retry_loop_result fuel : forall ctx fn wait err s w s' r w',
  retry_loop fuel ctx fn wait err s w = (Done (s', r), w') ->
  (ctx_done ctx w = true /\ r = err /\ s' = s /\ w' = w) \/
  (r = None /\ exists s0 w0, ctx_done ctx w0 = false /\ fn s0 w0 = (Done (s', None), w')) \/
  (ctx_done ctx w' = true /\ exists e, r = Some e).
Proof.
  induction fuel as [|fuel IH]; intros ctx fn wait err s w s' r w' H.
  - discriminate.
  - apply retry_loop_inv in H.
    destruct H as [(Hd & Hr & ->) | [(Hd & s1 & Hr & Hfn) | [(Hd & s1 & e & w1 & Hfn & Hrec)
      | [(_ & msg & _ & Hr) | (_ & _ & Hr)]]]]; try discriminate.
    + simplify_eq. auto.
    + simplify_eq. right. left. eauto.
    + apply IH in Hrec.
      destruct Hrec as [(Hd' & -> & -> & ->) | [Hs | Hf]]; eauto.
Qed.

End Retry.

(** The attempts recorded by [logged] do not change what [retry] does. *)
Lemma retry_loop_logged {S : Type} fuel :
  forall ctx (fn : S -> M (S * option error)) wait err s l w,
  exists l',
    retry_loop fuel ctx (logged fn) wait err (s, l) w
    = (match fst (retry_loop fuel ctx fn wait err s w) with
       | Done (s', r) => Done ((s', l'), r)
       | Panic msg => Panic msg
       | OutOfFuel => OutOfFuel
       end,
       snd (retry_loop fuel ctx fn wait err s w)).
Proof.
  induction fuel as [|fuel IH]; intros ctx fn wait err s l w.
  - exists l. reflexivity.
  - destruct (ctx_done ctx w) eqn:Hd.
    + exists l.
      rewrite (retry_loop_done fuel ctx (logged fn) wait err (s, l) w Hd).
      rewrite (retry_loop_done fuel ctx fn wait err s w Hd). reflexivity.
    + destruct (fn s w) as [[[s1 [e|]]|msg|] w1] eqn:Hfn.
      * assert (Hl : logged fn (s, l) w = (Done ((s1, l ++ [Some e]), Some e), w1)).
        { unfold logged, bind. cbn [fst snd]. rewrite Hfn. reflexivity. }
        rewrite (retry_loop_failure _ _ _ _ _ _ _ _ _ _ Hd Hl).
        rewrite (retry_loop_failure _ _ _ _ _ _ _ _ _ _ Hd Hfn).
        apply IH.
      * assert (Hl : logged fn (s, l) w = (Done ((s1, l ++ [None]), None), w1)).
        { unfold logged, bind. cbn [fst snd]. rewrite Hfn. reflexivity. }
        rewrite (retry_loop_success _ _ _ _ _ _ _ _ _ Hd Hl).
        rewrite (retry_loop_success _ _ _ _ _ _ _ _ _ Hd Hfn).
        exists (l ++ [None]). reflexivity.
      * assert (Hl : logged fn (s, l) w = (Panic msg, w1)).
        { unfold logged, bind. cbn [fst snd]. rewrite Hfn. reflexivity. }
        rewrite (retry_loop_panic _ _ _ _ _ _ _ _ _ Hd Hl).
        rewrite (retry_loop_panic _ _ _ _ _ _ _ _ _ Hd Hfn).
        exists l. reflexivity.
      * assert (Hl : logged fn (s, l) w = (OutOfFuel, w1)).
        { unfold logged, bind. cbn [fst snd]. rewrite Hfn. reflexivity. }
        rewrite (retry_loop_out_of_fuel _ _ _ _ _ _ _ _ Hd Hl).
        rewrite (retry_loop_out_of_fuel _ _ _ _ _ _ _ _ Hd Hfn).
        exists l. reflexivity.
Qed.

Lemma logged_sleepless {S : Type} (fn : S -> M (S * option error)) :
  sleepless fn -> sleepless (logged fn).
Proof.
  intros Hfn [s l] w. unfold logged, bind. cbn [fst snd].
  specialize (Hfn s w). destruct (fn s w) as [[a|msg|] w1]; exact Hfn.
Qed.

(** The loop from its [n]-th wait on: the errors of the failed attempts,
    one wait after each, and how it ends. *)
Lemma retry_loop_backoff {S : Type} fuel :
  forall ctx (fn : S -> M (S * option error)) n err s l w s' log r w',
  sleepless fn ->
  retry_loop fuel ctx (logged fn) (nth_wait n) err (s, l) w
    = (Done ((s', log), r), w') ->
  exists errs : list error,
    sleeps (trace w') = sleeps (trace w) ++ map nth_wait (seq n (length errs)) /\
    ((r = None /\ log = l ++ map Some errs ++ [None]) \/
     (r = match last errs with Some e => Some e | None => err end /\
      log = l ++ map Some errs /\ ctx_done ctx w' = true)).
Proof.
  induction fuel as [|fuel IH]; intros ctx fn n err s l w s' log r w' Hsl H.
  - discriminate.
  - apply retry_loop_inv in H.
    destruct H as [(Hd & Hr & ->) | [(Hd & s1 & Hr & Hfn) | [(Hd & s1 & e & w1 & Hfn & Hrec)
      | [(_ & msg & _ & Hr) | (_ & _ & Hr)]]]]; try discriminate.
    + simplify_eq. exists []. cbn [length seq map last].
      rewrite !app_nil_r. split; [reflexivity|]. right. auto.
    + simplify_eq.
      pose proof (logged_sleepless fn Hsl (s, l) w) as Hs. rewrite Hfn in Hs.
      exists []. cbn [length seq map app]. rewrite app_nil_r.
      split; [exact Hs|]. left. split; [reflexivity|].
      unfold logged, bind in Hfn. cbn [fst snd] in Hfn.
      destruct (fn s w) as [[[s2 r2]|msg|] w2]; try discriminate.
      cbn [ret fst snd] in Hfn. unfold ret in Hfn. injection Hfn as -> <- <- <-.
      reflexivity.
    + pose proof (logged_sleepless fn Hsl (s, l) w) as Hs. rewrite Hfn in Hs.
      cbn [snd] in Hs.
      assert (Hs1 : s1 = (fst s1, l ++ [Some e])).
      { unfold logged, bind in Hfn. cbn [fst snd] in Hfn.
        destruct (fn s w) as [[[s2 r2]|msg|] w2]; try discriminate.
        unfold ret in Hfn. injection Hfn as <- <- <-. reflexivity. }
      rewrite Hs1 in Hrec. change (next_wait (nth_wait n)) with (nth_wait (Datatypes.S n)) in Hrec.
      apply IH in Hrec; [|exact Hsl].
      destruct Hrec as (errs & Hsleeps & Hend). cbn [trace] in Hsleeps.
      exists (e :: errs). split.
      * rewrite Hsleeps, sleeps_app, Hs. cbn [sleeps length seq map].
        rewrite <- app_assoc. reflexivity.
      * cbn [map]. rewrite <- !app_assoc in Hend. cbn [app] in Hend.
        destruct Hend as [(-> & ->) | (-> & -> & Hd')]; [left; auto|].
        right. split; [|auto].
        destruct errs as [|e' errs]; [reflexivity|].
        rewrite (last_cons_cons e e' errs).
        destruct (last (e' :: errs)) eqn:Hlast; [reflexivity|].
        apply last_None in Hlast. discriminate.
Qed.

(** The first ten waits are the exact multiples; the eleventh is not. *)
Lemma nth_wait_exact (n : nat) :
  (n < 10)%nat -> nth_wait n * 2 ^ Z.of_nat n = 5 * Second * 3 ^ Z.of_nat n.
Proof.
  intros Hn.
  do 10 (destruct n as [|n]; [vm_compute; reflexivity|]). lia.
Qed.

Lemma always_fails_sleepless : sleepless always_fails.
Proof. intros s w. reflexivity. Qed.

(** C7 (the property as specified fails). With a deadline ten minutes away and
    a call that fails at once each time, [retry] sleeps eleven times; the
    eleventh wait is 288325195312 ns, not 5 s times 1.5 to the tenth
    (288325195312.5 ns): the half is taken on [int64]. *)
Lemma retry_eleventh_wait_is_truncated :
  let w' := snd (retry 20 (mkContext (Some (sample_now + 10 * Minute)))
                   always_fails tt (mkWorld sample_now ∅ [])) in
  length (sleeps (trace w')) = 11%nat /\
  nth 10 (sleeps (trace w')) 0 = 288325195312 /\
  nth 10 (sleeps (trace w')) 0 * 2 ^ 10 <> 5 * Second * 3 ^ 10.
Proof. vm_compute. repeat split. discriminate. Qed.

(** C7, amended. The first wait is 5 s; each later wait is the one before
    plus its half, on [int64] and rounded toward zero, which for the first
    ten waits is exactly 5 s times 1.5 to the power n-1. In a run of
    [retry], with the attempts recorded by [logged]: there is one wait
    after each failed attempt, in that order; the run ends with nil right
    after the first attempt that succeeds, or, the context being done,
    with the error of the last failed attempt (nil if there was none). *)
Theorem retry_backoff {S : Type} (fuel : nat) (ctx : Context)
    (fn : S -> M (S * option error)) (s s' : S) (log : list (option error))
    (r : option error) (w w' : World) :
  sleepless fn ->
  retry fuel ctx (logged fn) (s, []) w = (Done ((s', log), r), w') ->
  (nth_wait 0 = 5 * Second /\
   (forall n, nth_wait (Datatypes.S n) = wrap64 (nth_wait n + Z.quot (nth_wait n) 2)) /\
   (forall n, (n < 10)%nat -> nth_wait n * 2 ^ Z.of_nat n = 5 * Second * 3 ^ Z.of_nat n)) /\
  exists errs : list error,
    sleeps (trace w') = sleeps (trace w) ++ waits (length errs) /\
    ((r = None /\ log = map Some errs ++ [None]) \/
     (r = last errs /\ log = map Some errs /\ ctx_done ctx w' = true)).
Proof.
  intros Hsl H. split.
  - split; [reflexivity|]. split; [reflexivity|]. exact nth_wait_exact.
  - unfold retry in H. change (5 * Second) with (nth_wait 0) in H.
    apply retry_loop_backoff in H; [|exact Hsl].
    destruct H as (errs & Hs & Hend). exists errs. split; [exact Hs|].
    cbn [app] in Hend. destruct Hend as [He | (-> & -> & Hd)]; [left; exact He|].
    right. split; [|auto]. destruct (last errs); reflexivity.
Qed.

Lemma retry_backoff_witness :
  sleepless always_fails /\
  exists log r w',
    retry 20 (mkContext (Some (sample_now + 10 * Minute))) (logged always_fails)
      (tt, []) (mkWorld sample_now ∅ []) = (Done ((tt, log), r), w') /\
    exists errs : list error,
      sleeps (trace w') = waits (length errs) /\
      ((r = None /\ log = map Some errs ++ [None]) \/
       (r = last errs /\ log = map Some errs /\
        ctx_done (mkContext (Some (sample_now + 10 * Minute))) w' = true)).
Proof.
  split; [exact always_fails_sleepless|].
  eexists. eexists. eexists. split; [vm_compute; reflexivity|].
  refine (proj2 (retry_backoff 20 (mkContext (Some (sample_now + 10 * Minute)))
                   always_fails tt tt _ _ (mkWorld sample_now ∅ []) _
                   always_fails_sleepless _)).
  vm_compute. reflexivity.
Defined.

(** C8. A context that is done when [retry] first looks makes it return
    nil at once: the closure is not called (the world, whose trace would
    show a call, is as before, and so is the state of the closure). A call
    that succeeds at the first attempt returns the same nil. *)
Theorem retry_done_context_returns_nil {S : Type} (fuel : nat) (ctx : Context)
    (fn : S -> M (S * option error)) (s : S) (w : World) :
  ctx_done ctx w = true ->
  retry (Datatypes.S fuel) ctx fn s w = (Done (s, None), w) /\
  (forall w0 s1 w1,
     fn s w0 = (Done (s1, None), w1) ->
     snd <$> (match fst (retry (Datatypes.S fuel) context_Background fn s w0) with
              | Done a => Some a | _ => None end)
     = snd <$> (match fst (retry (Datatypes.S fuel) ctx fn s w) with
                | Done a => Some a | _ => None end)).
Proof.
  intros Hd. unfold retry.
  rewrite (retry_loop_done fuel ctx fn (5 * Second) None s w Hd).
  split; [reflexivity|]. intros w0 s1 w1 Hfn.
  rewrite (retry_loop_success fuel context_Background fn (5 * Second) None s w0 s1 w1
             eq_refl Hfn).
  reflexivity.
Qed.

Lemma retry_done_context_returns_nil_witness :
  retry 1 (mkContext (Some 0)) always_fails tt (mkWorld sample_now ∅ [])
  = (Done (tt, None), mkWorld sample_now ∅ []).
Proof.
  exact (proj1 (retry_done_context_returns_nil 0 (mkContext (Some 0)) always_fails tt
                  (mkWorld sample_now ∅ []) eq_refl)).
Defined.

(** ** What a computation leaves as it was *)

Global Instance quietly_preorder (E : Event -> bool) : PreOrder (quietly E).
Proof.
  split.
  - intros w. split; [lia|]. split; [reflexivity|]. exists []. rewrite app_nil_r. auto.
  - intros w1 w2 w3 (Hc1 & Ht1 & evs1 & He1 & Hf1) (Hc2 & Ht2 & evs2 & He2 & Hf2).
    split; [lia|]. split; [congruence|]. exists (evs1 ++ evs2).
    rewrite He2, He1, <- app_assoc, forallb_app, Hf1, Hf2. auto.
Qed.

Lemma quietly_weaken (E E' : Event -> bool) (w w' : World) :
  (forall e, E e = true -> E' e = true) -> quietly E w w' -> quietly E' w w'.
Proof.
  intros Himp (Hc & Ht & evs & He & Hf). split; [exact Hc|]. split; [exact Ht|].
  exists evs. split; [exact He|]. rewrite forallb_forall in *. auto.
Qed.

Lemma quietly_event (E : Event -> bool) (w : World) (d : Duration) (e : Event) :
  E e = true ->
  quietly E w (mkWorld (clock w + Z.max 0 d) (table w) (trace w ++ [e])).
Proof.
  intros He. split; [cbn; lia|]. split; [reflexivity|].
  exists [e]. cbn. rewrite He. auto.
Qed.

Lemma quietly_elapse (E : Event -> bool) (w : World) (d : Duration) :
  quietly E w (mkWorld (clock w + Z.max 0 d) (table w) (trace w)).
Proof.
  split; [cbn; lia|]. split; [reflexivity|]. exists []. cbn. rewrite app_nil_r. auto.
Qed.

Section Keeps.

Context (R : relation World) `{!PreOrder R}.

Lemma keeps_ret {A} (a : A) : keeps R (ret a).
Proof. intros w. reflexivity. Qed.

Lemma keeps_lift {A} (o : Outcome A) : keeps R (lift o).
Proof. intros w. reflexivity. Qed.

Lemma keeps_panic {A} (msg : string) : keeps R (@panic A msg).
Proof. intros w. reflexivity. Qed.

Lemma keeps_time_Now : keeps R time_Now.
Proof. intros w. reflexivity. Qed.

Lemma keeps_ctx_Done (ctx : Context) : keeps R (ctx_Done ctx).
Proof. intros w. reflexivity. Qed.

Lemma keeps_context_WithTimeout (d : Duration) : keeps R (context_WithTimeout d).
Proof. intros w. reflexivity. Qed.

Lemma keeps_bind {A B} (m : M A) (k : A -> M B) :
  keeps R m -> (forall a, keeps R (k a)) -> keeps R (bind m k).
Proof.
  intros Hm Hk w. unfold bind. specialize (Hm w).
  destruct (m w) as [[a|msg|] w1]; cbn [snd] in *; [|exact Hm|exact Hm].
  transitivity w1; [exact Hm | apply Hk].
Qed.

Lemma keeps_with_defer {A} (body : M A) (deferred : Outcome A -> M unit) :
  keeps R body -> (forall r, keeps R (deferred r)) -> keeps R (with_defer body deferred).
Proof.
  intros Hb Hd w. unfold with_defer. specialize (Hb w).
  destruct (body w) as [[a|msg|] w1]; cbn [snd] in *; [| |exact Hb].
  - specialize (Hd (Done a) w1).
    destruct (deferred (Done a) w1) as [[u|msg|] w2]; cbn [snd] in *;
      (transitivity w1; [exact Hb | exact Hd]).
  - specialize (Hd (Panic msg) w1).
    destruct (deferred (Panic msg) w1) as [[u|msg'|] w2]; cbn [snd] in *;
      (transitivity w1; [exact Hb | exact Hd]).
Qed.

Lemma keeps_retry_loop {S : Type} (fuel : nat) (ctx : Context)
    (fn : S -> M (S * option error)) :
  (forall s, keeps R (fn s)) -> (forall d, keeps R (time_Sleep d)) ->
  forall wait err s, keeps R (retry_loop fuel ctx fn wait err s).
Proof.
  intros Hfn Hsleep. induction fuel as [|fuel IH]; intros wait err s.
  - apply keeps_lift.
  - cbn [retry_loop]. apply keeps_bind; [apply keeps_ctx_Done|]. intros done.
    destruct done; [apply keeps_ret|].
    apply keeps_bind; [apply Hfn|]. intros r.
    destruct (snd r); [|apply keeps_ret].
    apply keeps_bind; [apply Hsleep|]. intros _. apply IH.
Qed.

Lemma keeps_retry {S : Type} (fuel : nat) (ctx : Context)
    (fn : S -> M (S * option error)) (s : S) :
  (forall s, keeps R (fn s)) -> (forall d, keeps R (time_Sleep d)) ->
  keeps R (retry fuel ctx fn s).
Proof. intros Hfn Hsleep. apply keeps_retry_loop; assumption. Qed.


End Keeps.

Section Quiet.

Context (E : Event -> bool).

Lemma keeps_emit (e : Event) : E e = true -> keeps (quietly E) (emit e).
Proof.
  intros He w. unfold emit. cbn [snd].
  pose proof (quietly_event E w 0 e He) as H.
  replace (clock w + Z.max 0 0) with (clock w) in H by lia. exact H.
Qed.

Lemma keeps_elapse (d : Duration) : keeps (quietly E) (elapse d).
Proof. intros w. apply quietly_elapse. Qed.

Lemma keeps_ask {A} (oracle : World -> Duration * A) (ev : A -> Event) :
  (forall a, E (ev a) = true) -> keeps (quietly E) (ask oracle ev).
Proof.
  intros He w. unfold ask. destruct (oracle w) as [d a]. cbn [snd].
  apply quietly_event, He.
Qed.

Lemma keeps_api_call {A} (api : FullNode) (oracle : World -> Duration * A)
    (ev : A -> Event) :
  (forall a, E (ev a) = true) -> keeps (quietly E) (api_call api oracle ev).
Proof.
  intros He. destruct api; [apply keeps_panic, _ | apply keeps_ask, He].
Qed.

Lemma keeps_time_Sleep (d : Duration) :
  E (EvSleep d) = true -> keeps (quietly E) (time_Sleep d).
Proof.
  intros He. unfold time_Sleep.
  apply keeps_bind; [apply _ | apply keeps_emit, He | intros _; apply keeps_elapse].
Qed.

Lemma keeps_log_Println (msg : string) :
  E (EvLog msg) = true -> keeps (quietly E) (log_Println msg).
Proof. apply keeps_emit. Qed.

Lemma keeps_c_JSON (status : Z) (body : Body) :
  E (EvJSON status body) = true -> keeps (quietly E) (c_JSON status body).
Proof. apply keeps_emit. Qed.

Lemma keeps_defer_closer {A} (closer : FullNode) (body : M A) :
  keeps (quietly E) body -> keeps (quietly E) (defer_closer closer body).
Proof.
  intros Hb. unfold defer_closer. apply keeps_with_defer; [apply _ | exact Hb |].
  intros _. destruct closer; [apply keeps_panic, _ | apply keeps_ret, _].
Qed.

End Quiet.

(** Breaks a goal [keeps (quietly E) m] down along the structure of [m];
    the events are checked against [E] by computation. *)
Ltac keeps_step :=
  first
    [ apply keeps_ret; apply _
    | apply keeps_lift; apply _
    | apply keeps_panic; apply _
    | apply keeps_time_Now; apply _
    | apply keeps_ctx_Done; apply _
    | apply keeps_context_WithTimeout; apply _
    | apply keeps_time_Sleep; reflexivity
    | apply keeps_log_Println; reflexivity
    | apply keeps_c_JSON; reflexivity
    | apply keeps_emit; reflexivity
    | apply keeps_api_call; intros; reflexivity
    | apply keeps_ask; intros; reflexivity
    | apply keeps_defer_closer
    | apply keeps_retry; [apply _ | intros ? | intros ?]
    | apply keeps_bind; [apply _ | | intros ?]
    | apply keeps_with_defer; [apply _ | | intros ?]
    | match goal with
      | |- keeps _ (match ?x with _ => _ end) => destruct x
      | |- keeps _ (let _ := _ in _) => cbv zeta
      end ].

Ltac keeps_auto := repeat (keeps_step; try assumption).

Section LotusKeeps.

Context (env : Env) (node : Node) (lib : Library).

Lemma keeps_lotusGetFullNodeAPI (E : Event -> bool) fuel ctx :
  (forall e, is_reading e = true -> E e = true) ->
  keeps (quietly E) (lotusGetFullNodeAPI node fuel ctx).
Proof.
  intros HE w. apply (quietly_weaken is_reading); [exact HE|]. revert w.
  unfold lotusGetFullNodeAPI. keeps_auto.
Qed.

Lemma keeps_lotusEstimateGasLimit ctx api msg :
  keeps (quietly is_reading) (lotusEstimateGasLimit node ctx api msg).
Proof. unfold lotusEstimateGasLimit. keeps_auto. Qed.

Lemma keeps_lotusEstimateGasPrice ctx api address gasLimit :
  keeps (quietly is_reading) (lotusEstimateGasPrice node ctx api address gasLimit).
Proof. unfold lotusEstimateGasPrice. keeps_auto. Qed.

Lemma keeps_lotusWaitMessageResult fuel ctx cid :
  keeps (quietly is_reading) (lotusWaitMessageResult node fuel ctx cid).
Proof.
  unfold lotusWaitMessageResult.
  apply keeps_bind; [apply _ | apply keeps_lotusGetFullNodeAPI; auto | intros a].
  keeps_auto.
Qed.

Lemma keeps_lotusCheckAccountRemainingBytes fuel ctx targetAddr :
  keeps (quietly is_reading)
        (lotusCheckAccountRemainingBytes node lib fuel ctx targetAddr).
Proof.
  unfold lotusCheckAccountRemainingBytes.
  destruct (address_NewFromString lib targetAddr) as [caddr|]; [|keeps_auto].
  apply keeps_bind; [apply _ | apply keeps_lotusGetFullNodeAPI; auto | intros api].
  keeps_auto.
Qed.

Lemma reads_or_pays_reading to amount e :
  is_reading e = true -> reads_or_pays to amount e = true.
Proof. destruct e; cbn; auto; discriminate. Qed.

Lemma keeps_lotusSendFIL fuel ctx fromAddr toAddr filAmount :
  keeps (quietly (reads_or_pays toAddr filAmount))
        (lotusSendFIL env node fuel ctx fromAddr toAddr filAmount).
Proof.
  unfold lotusSendFIL.
  apply keeps_bind; [apply _ | apply keeps_lotusGetFullNodeAPI;
                               apply reads_or_pays_reading | intros a].
  destruct (snd a); [keeps_auto|].
  apply keeps_defer_closer.
  apply keeps_bind; [apply _ | keeps_auto | intros d].
  destruct d as [resolvableAddress|e]; [|keeps_auto].
  cbv zeta.
  apply keeps_bind; [apply _ | | intros l].
  { intros w. apply (quietly_weaken is_reading); [apply reads_or_pays_reading|].
    apply keeps_lotusEstimateGasLimit. }
  destruct (snd l); [keeps_auto|].
  apply keeps_bind; [apply _ | | intros p].
  { intros w. apply (quietly_weaken is_reading); [apply reads_or_pays_reading|].
    apply keeps_lotusEstimateGasPrice. }
  destruct (snd p); [keeps_auto|].
  apply keeps_bind; [apply _ | keeps_auto | intros price].
  apply keeps_bind; [apply _ | | intros sm; keeps_auto].
  apply keeps_api_call. intros r. cbn.
  rewrite !bool_decide_eq_true_2 by reflexivity. reflexivity.
Qed.

(** The allocation message goes to the verified registry actor. *)
Lemma keeps_lotusVerifyAccount fuel ctx targetAddr allowanceStr :
  keeps (quietly (reads_or_pays VerifiedRegistryActorAddr BigNil))
        (lotusVerifyAccount env node lib fuel ctx targetAddr allowanceStr).
Proof.
  unfold lotusVerifyAccount.
  destruct (address_NewFromString lib targetAddr) as [target|]; [|keeps_auto].
  destruct (types_BigFromString lib allowanceStr) as [allowance|]; [|keeps_auto].
  destruct (actors_SerializeParams lib target allowance) as [params|]; [|keeps_auto].
  apply keeps_bind; [apply _ | apply keeps_lotusGetFullNodeAPI;
                               apply reads_or_pays_reading | intros a].
  destruct (snd a); [keeps_auto|].
  apply keeps_defer_closer. cbv zeta.
  apply keeps_bind; [apply _ | | intros l].
  { intros w. apply (quietly_weaken is_reading); [apply reads_or_pays_reading|].
    apply keeps_lotusEstimateGasLimit. }
  destruct (snd l); [keeps_auto|].
  apply keeps_bind; [apply _ | | intros p].
  { intros w. apply (quietly_weaken is_reading); [apply reads_or_pays_reading|].
    apply keeps_lotusEstimateGasPrice. }
  destruct (snd p); [keeps_auto|].
  apply keeps_bind; [apply _ | keeps_auto | intros price].
  apply keeps_bind; [apply _ | | intros sm; keeps_auto].
  apply keeps_api_call. intros r. cbn.
  rewrite !bool_decide_eq_true_2 by reflexivity. reflexivity.
Qed.

End LotusKeeps.

(** ** Gas estimation *)

(** C6 (the property as specified fails). The node refuses the first
    estimation and would grant the next; the deadline is two minutes away.
    Each estimator asks once, does not wait, and returns the error, with
    the context not done. *)
Lemma estimators_return_first_error :
  let limit := lotusEstimateGasLimit node_flaky gas_ctx ApiClient gas_msg gas_world in
  let price := lotusEstimateGasPrice node_flaky gas_ctx ApiClient "t3faucet" 1000 gas_world in
  (fst limit = Done (0, Some "busy") /\
   estimations (trace (snd limit)) = 1%nat /\ sleeps (trace (snd limit)) = [] /\
   ctx_done gas_ctx (snd limit) = false /\
   snd (GasEstimateGasLimit node_flaky gas_msg (snd limit)) = Ok 1000) /\
  (fst price = Done (NewInt 0, Some "busy") /\
   estimations (trace (snd price)) = 1%nat /\ sleeps (trace (snd price)) = [] /\
   ctx_done gas_ctx (snd price) = false /\
   snd (GasEstimateGasPrice node_flaky 0 "t3faucet" 1000 (snd price)) = Ok (Big 3)).
Proof. vm_compute. repeat split. Qed.

(** C6, amended. On a connected handle each estimator makes one call to
    the node and returns what the node answered: on an error, zero and the
    error, at once. Nothing is slept and nothing is asked twice. *)
Theorem estimators_call_once (node : Node) (ctx : Context) (msg : Message)
    (address : Address) (gasLimit : Z) (w : World) :
  lotusEstimateGasLimit node ctx ApiClient msg w
  = (Done (match snd (GasEstimateGasLimit node msg w) with
           | Ok g => (g, None)
           | Err e => (0, Some e)
           end),
     mkWorld (clock w + Z.max 0 (fst (GasEstimateGasLimit node msg w))) (table w)
             (trace w ++ [EvGasEstimateGasLimit msg (snd (GasEstimateGasLimit node msg w))]))
  /\
  lotusEstimateGasPrice node ctx ApiClient address gasLimit w
  = (Done (match snd (GasEstimateGasPrice node 0 address gasLimit w) with
           | Ok p => (p, None)
           | Err e => (NewInt 0, Some e)
           end),
     mkWorld (clock w + Z.max 0 (fst (GasEstimateGasPrice node 0 address gasLimit w)))
             (table w)
             (trace w ++ [EvGasEstimateGasPrice 0 address gasLimit
                            (snd (GasEstimateGasPrice node 0 address gasLimit w))])).
Proof.
  split.
  - unfold lotusEstimateGasLimit, api_call, bind, ask.
    destruct (GasEstimateGasLimit node msg w) as [d [g|e]]; reflexivity.
  - unfold lotusEstimateGasPrice, api_call, bind, ask.
    destruct (GasEstimateGasPrice node 0 address gasLimit w) as [d [p|e]]; reflexivity.
Qed.

(** In a payment, the first failed estimation ends the submission: one
    estimation call, nothing slept, nothing pushed. *)
Example lotusSendFIL_first_estimation_error :
  let run := lotusSendFIL sample_env node_flaky 3 gas_ctx "t3faucet" "t3target" (Big 100)
               gas_world in
  fst run = Done (Cid_Undef, Some "busy") /\
  estimations (trace (snd run)) = 1%nat /\ sleeps (trace (snd run)) = [] /\
  pushed (trace (snd run)) = [].
Proof. vm_compute. repeat split. Qed.

(** ** The settlement poll *)




(** The other way round: when the node accepts the connection and
    answers the first [StateWaitMsg] with a receipt, both before the
    deadline, the poll returns the verdict of that receipt and no error. *)
Lemma lotusWaitMessageResult_receipt (node : Node) (fuel : nat) (ctx : Context)
    (cid : Cid) (w : World) (d1 d2 : Duration) (mwait : MsgLookup) :
  let w1 := mkWorld (clock w + Z.max 0 d1) (table w) (trace w ++ [EvNewFullNodeRPC None]) in
  let w2 := mkWorld (clock w1 + Z.max 0 d2) (table w)
                    (trace w1 ++ [EvStateWaitMsg cid MessageConfidence (Ok mwait)]) in
  ctx_done ctx w = false ->
  NewFullNodeRPC node w = (d1, None) ->
  ctx_done ctx w1 = false ->
  StateWaitMsg node cid MessageConfidence w1 = (d2, Ok mwait) ->
  lotusWaitMessageResult node (S fuel) ctx cid w
  = (Done (Receipt_ExitCode mwait =? 0, None), w2).
Proof.
  intros w1 w2 Hd Hconn Hd1 Hwait.
  unfold lotusWaitMessageResult, lotusGetFullNodeAPI, retry.
  erewrite bind_Done; cycle 1.
  { apply retry_loop_success; [exact Hd|].
    unfold bind, ask, ret. rewrite Hconn. reflexivity. }
  cbn [fst snd]. fold w1.
  unfold defer_closer, with_defer.
  erewrite bind_Done; cycle 1.
  { apply retry_loop_success; [exact Hd1|].
    unfold bind, api_call, ask, ret. rewrite Hwait. reflexivity. }
  reflexivity.
Qed.


(** Under a context that is already done, [lotusGetFullNodeAPI] reports
    no error and hands back the nil interface: the poll panics. *)
Example lotusWaitMessageResult_done_context :
  lotusGetFullNodeAPI (sample_node 0) 3 (mkContext (Some 0)) gas_world
  = (Done (ApiNil, None), gas_world) /\
  fst (lotusWaitMessageResult (sample_node 0) 3 (mkContext (Some 0)) "bafy-message"
         gas_world) = Panic nil_dereference.
Proof. vm_compute. split; reflexivity. Qed.

(** ** Reading traces *)

Lemma omap_quiet {A} (f : Event -> option A) (E : Event -> bool) (evs : list Event) :
  (forall e, E e = true -> f e = None) ->
  forallb E evs = true -> omap f evs = [].
Proof.
  intros HE. induction evs as [|e evs IH]; [reflexivity|].
  cbn [forallb]. intros H. apply andb_true_iff in H. destruct H as [He Hevs].
  cbn [omap list_omap]. rewrite (HE e He). apply IH, Hevs.
Qed.

Lemma reading_saves evs : forallb is_reading evs = true -> saves evs = [].
Proof. apply omap_quiet. intros e; destruct e; cbn; congruence. Qed.

Lemma reading_unlocks evs : forallb is_reading evs = true -> unlocks evs = [].
Proof. apply omap_quiet. intros e; destruct e; cbn; congruence. Qed.

Lemma reading_acquired evs : forallb is_reading evs = true -> acquired evs = [].
Proof. apply omap_quiet. intros e; destruct e; cbn; congruence. Qed.

Lemma reading_spawned evs : forallb is_reading evs = true -> spawned evs = [].
Proof. apply omap_quiet. intros e; destruct e; cbn; congruence. Qed.

Lemma reading_pushed evs : forallb is_reading evs = true -> pushed evs = [].
Proof. apply omap_quiet. intros e; destruct e; cbn; congruence. Qed.

Lemma saves_app (l1 l2 : list Event) : saves (l1 ++ l2) = saves l1 ++ saves l2.
Proof. apply omap_app. Qed.

Lemma unlocks_app (l1 l2 : list Event) : unlocks (l1 ++ l2) = unlocks l1 ++ unlocks l2.
Proof. apply omap_app. Qed.

Lemma acquired_app (l1 l2 : list Event) : acquired (l1 ++ l2) = acquired l1 ++ acquired l2.
Proof. apply omap_app. Qed.

Lemma spawned_app (l1 l2 : list Event) : spawned (l1 ++ l2) = spawned l1 ++ spawned l2.
Proof. apply omap_app. Qed.

Lemma pushed_app (l1 l2 : list Event) : pushed (l1 ++ l2) = pushed l1 ++ pushed l2.
Proof. apply omap_app. Qed.

(** ** The record store *)

Lemma unlockUser_run (userID : string) (lock : UserLock) (w : World) :
  exists err tbl,
    unlockUser userID lock w
    = (Done err, mkWorld (clock w) tbl (trace w ++ [EvUnlockUser userID lock err])) /\
    docs tbl = docs (table w) /\
    lock_flag tbl userID lock <> Some (AttrBool true).
Proof.
  pose proof (unlockUser_docs userID lock w) as Hdocs.
  pose proof (unlockUser_flag userID lock w) as Hflag.
  unfold unlockUser in *.
  destruct (Update_Set_If_Run _ _ _ _ _) as [err tbl]. cbn [snd table] in *.
  exists err, tbl. auto.
Qed.

Lemma lockUser_run (userID : string) (lock : UserLock) (w : World) :
  exists err tbl,
    lockUser userID lock w
    = (Done err, mkWorld (clock w) tbl (trace w ++ [EvLockUser userID lock err])).
Proof.
  unfold lockUser. destruct (Update_Set_If_Run _ _ _ _ _) as [err tbl]. eauto.
Qed.

Lemma docs_Put_Run (tbl : gmap string Item) (user : User) :
  docs (Put_Run tbl user) = <[ID user := user]> (docs tbl).
Proof. unfold docs, Put_Run. rewrite fmap_insert. reflexivity. Qed.

(** ** Reconciliation: what the goroutines write *)

Section Reconcile.

Context (node : Node) (fuel : nat) (userID : string) (user : User)
        (TargetAddr : string) (minerAddr : Address) (cid : Cid) (w : World).

Local Abbreviation poll := (poll node fuel cid w).

Lemma poll_quiet : quietly is_reading w (snd poll).
Proof. apply keeps_lotusWaitMessageResult. Qed.

(** After the body of a goroutine, the deferred [unlockUser]. *)
Lemma with_defer_unlock (lock : UserLock) (body : M unit) (w0 : World)
    (r : Outcome unit) (w' : World) :
  with_defer body (fun _ => unlockUser userID lock ;;; ret tt) w0 = (r, w') ->
  r = fst (body w0) /\
  (r = OutOfFuel /\ w' = snd (body w0) \/
   r <> OutOfFuel /\
   saves (trace w') = saves (trace (snd (body w0))) /\
   docs (table w') = docs (table (snd (body w0))) /\
   unlocks (trace w') = unlocks (trace (snd (body w0))) ++ [(userID, lock)] /\
   acquired (trace w') = acquired (trace (snd (body w0))) /\
   spawned (trace w') = spawned (trace (snd (body w0))) /\
   lock_flag (table w') userID lock <> Some (AttrBool true)).
Proof.
  unfold with_defer. destruct (body w0) as [o w1]. cbn [fst snd].
  unfold bind, ret.
  destruct (unlockUser_run userID lock w1) as (err & tbl & Hu & Hd & Hflag).
  rewrite Hu. intros H.
  destruct o as [[]|msg|]; simplify_eq; (split; [reflexivity|]); [right|right|left; auto].
  all: cbn [trace table]; rewrite saves_app, unlocks_app, acquired_app, spawned_app; cbn;
    rewrite !app_nil_r; repeat split; auto; discriminate.
Qed.

(** The goroutine of [serveVerifyAccount], from the verdict of the poll. *)
Lemma serveVerifyAccount_go_run :
  let w' := snd (serveVerifyAccount_go node fuel userID user TargetAddr cid w) in
  match fst poll with
  | Done (ok, None) =>
      let saved :=
        (if ok then set_MostRecentAllocation (clock (snd poll)) else id)
          (set_VerifiedFilecoinAddress TargetAddr user) in
      saves (trace w') = saves (trace w) ++ [saved] /\
      docs (table w') = <[ID saved := saved]> (docs (table w))
  | OutOfFuel => w' = snd poll
  | _ => saves (trace w') = saves (trace w) /\ docs (table w') = docs (table w)
  end.
Proof.
  pose proof poll_quiet as (_ & Htbl & evs & Htr & Hevs).
  destruct (serveVerifyAccount_go node fuel userID user TargetAddr cid w)
    as [r w'] eqn:Hrun. cbn [snd].
  unfold serveVerifyAccount_go in Hrun. apply with_defer_unlock in Hrun.
  unfold bind at 1 2 3 4 5 6 7, context_WithTimeout in Hrun.
  unfold bind at 1 2 3 4 5 6 7 in Hrun. change (lotusWaitMessageResult node fuel _ cid w) with poll in Hrun.
  destruct poll as [[[ok [e|]]|msg|] w1]; cbn [fst snd] in *.
  - unfold ret in Hrun. cbn [fst snd] in Hrun.
    destruct Hrun as (-> & [(? & _) | (_ & -> & -> & _)]); [discriminate|].
    rewrite Htr, saves_app, (reading_saves evs Hevs), Htbl, app_nil_r. auto.
  - unfold bind, time_Now, saveUser, ret in Hrun. cbn [fst snd trace table] in Hrun.
    destruct Hrun as (-> & [(? & _) | (_ & -> & -> & _)]); [discriminate|].
    rewrite docs_Put_Run, Htbl, saves_app, Htr, saves_app, (reading_saves evs Hevs).
    destruct ok; cbn; rewrite !app_nil_r; auto.
  - destruct Hrun as (-> & [(? & _) | (_ & -> & -> & _)]); [discriminate|].
    rewrite Htr, saves_app, (reading_saves evs Hevs), Htbl, app_nil_r. auto.
  - destruct Hrun as (-> & [(_ & ->) | (? & _)]); [reflexivity|congruence].
Qed.

(** The goroutine of [serveFaucet], from the verdict of the poll. *)
Lemma serveFaucet_go_run :
  let w' := snd (serveFaucet_go node fuel userID user minerAddr cid w) in
  match fst poll with
  | Done (true, None) =>
      let saved :=
        if negb (Address_Empty minerAddr) then
          set_MostRecentMinerFaucetGrantCid cid
            (set_MostRecentMinerFaucetGrant (clock (snd poll)) user)
        else set_ReceivedNonMinerFaucetGrant true user in
      saves (trace w') = saves (trace w) ++ [saved] /\
      docs (table w') = <[ID saved := saved]> (docs (table w))
  | OutOfFuel => w' = snd poll
  | _ => saves (trace w') = saves (trace w) /\ docs (table w') = docs (table w)
  end.
Proof.
  pose proof poll_quiet as (_ & Htbl & evs & Htr & Hevs).
  destruct (serveFaucet_go node fuel userID user minerAddr cid w)
    as [r w'] eqn:Hrun. cbn [snd].
  unfold serveFaucet_go in Hrun. apply with_defer_unlock in Hrun.
  unfold bind at 1 2 3 4 5 6 7, context_WithTimeout in Hrun.
  unfold bind at 1 2 3 4 5 6 7 in Hrun. change (lotusWaitMessageResult node fuel _ cid w) with poll in Hrun.
  destruct poll as [[[ok [e|]]|msg|] w1]; cbn [fst snd] in *.
  - unfold ret in Hrun. cbn [fst snd] in Hrun.
    destruct Hrun as (-> & [(? & _) | (_ & -> & -> & _)]); [discriminate|].
    rewrite Htr, saves_app, (reading_saves evs Hevs), Htbl, app_nil_r.
    destruct ok; auto.
  - destruct ok; cbn [negb] in Hrun.
    + unfold bind, time_Now, saveUser, ret in Hrun. cbn [fst snd trace table] in Hrun.
      destruct Hrun as (-> & [(? & _) | (_ & -> & -> & _)]); [discriminate|].
      rewrite docs_Put_Run, Htbl, saves_app, Htr, saves_app, (reading_saves evs Hevs).
      cbn. rewrite !app_nil_r. auto.
    + unfold log_Println, emit in Hrun. cbn [fst snd trace table] in Hrun.
      destruct Hrun as (-> & [(? & _) | (_ & -> & -> & _)]); [discriminate|].
      rewrite saves_app, Htr, saves_app, (reading_saves evs Hevs), Htbl.
      cbn. rewrite !app_nil_r. auto.
  - destruct Hrun as (-> & [(? & _) | (_ & -> & -> & _)]); [discriminate|].
    rewrite Htr, saves_app, (reading_saves evs Hevs), Htbl, app_nil_r. auto.
  - destruct Hrun as (-> & [(_ & ->) | (? & _)]); [reflexivity|congruence].
Qed.

End Reconcile.

(** C4 (the property as specified fails). The allocation message is confirmed
    with exit code 1, a failed outcome. The goroutine of
    [serveVerifyAccount] saves the record all the same, with the address
    binding set to the target of the request. *)
Lemma serveVerifyAccount_go_saves_on_failed_outcome :
  let user := sample_user (sample_now - 40 * day) in
  let w := mkWorld sample_now
             (sample_table user {[ lock_attr UserLock_Verifier := AttrBool true ]}) [] in
  let w' := snd (serveVerifyAccount_go (sample_node 1) 3 "alice" user "t3target"
                   "bafy-message" w) in
  fst (poll (sample_node 1) 3 "bafy-message" w) = Done (false, None) /\
  saves (trace w') = [set_VerifiedFilecoinAddress "t3target" user] /\
  VerifiedFilecoinAddress <$> (docs (table w) !! "alice") = Some "" /\
  VerifiedFilecoinAddress <$> (docs (table w') !! "alice") = Some "t3target".
Proof. vm_compute. repeat split. Qed.

(** C4, amended. When the poll ends with an error (a failure of the node
    or the deadline) or with a panic, neither goroutine saves anything and
    every record keeps its fields. When it ends with the verdict false, the
    goroutine of [serveFaucet] likewise writes nothing, while the one of
    [serveVerifyAccount] saves the record with the address binding set and
    the allocation time as it was. The times, the transaction reference
    and the received flag are written on the verdict true only. *)
Theorem reconciliation_writes (node : Node) (fuel : nat) (userID : string)
    (user : User) (TargetAddr : string) (minerAddr : Address) (cid : Cid) (w : World) :
  let v := snd (serveVerifyAccount_go node fuel userID user TargetAddr cid w) in
  let f := snd (serveFaucet_go node fuel userID user minerAddr cid w) in
  let unchanged (w' : World) :=
    saves (trace w') = saves (trace w) /\ docs (table w') = docs (table w) in
  let saved (w' : World) (u : User) :=
    saves (trace w') = saves (trace w) ++ [u] /\
    docs (table w') = <[ID u := u]> (docs (table w)) in
  match fst (poll node fuel cid w) with
  | Done (true, None) =>
      saved v (set_MostRecentAllocation (clock (snd (poll node fuel cid w)))
                 (set_VerifiedFilecoinAddress TargetAddr user)) /\
      saved f (if negb (Address_Empty minerAddr) then
                 set_MostRecentMinerFaucetGrantCid cid
                   (set_MostRecentMinerFaucetGrant
                      (clock (snd (poll node fuel cid w))) user)
               else set_ReceivedNonMinerFaucetGrant true user)
  | Done (false, None) =>
      saved v (set_VerifiedFilecoinAddress TargetAddr user) /\ unchanged f
  | Done (_, Some _) | Panic _ => unchanged v /\ unchanged f
  | OutOfFuel => True
  end.
Proof.
  pose proof (serveVerifyAccount_go_run node fuel userID user TargetAddr cid w) as Hv.
  pose proof (serveFaucet_go_run node fuel userID user minerAddr cid w) as Hf.
  cbv zeta in *.
  destruct (fst (poll node fuel cid w)) as [[[|] [e|]]|msg|]; auto.
Qed.

(** ** Runs, by the events they add *)

Section Wpt.

Context {A : Type}.
Implicit Types (P : Outcome A -> list Event -> World -> Prop) (w : World).

Lemma wpt_ret (a : A) w P : P (Done a) [] w -> wpt (ret a) w P.
Proof. intros H. exists []. cbn. rewrite app_nil_r. auto. Qed.

Lemma wpt_lift (o : Outcome A) w P : P o [] w -> wpt (lift o) w P.
Proof. intros H. exists []. cbn. rewrite app_nil_r. auto. Qed.

Lemma wpt_panic (msg : string) w P : P (Panic msg) [] w -> wpt (panic msg) w P.
Proof. apply wpt_lift. Qed.

Lemma wpt_bind {B} (m : M B) (k : B -> M A) w P :
  wpt m w (fun r evs1 w1 =>
             match r with
             | Done b => wpt (k b) w1 (fun r2 evs2 w2 => P r2 (evs1 ++ evs2) w2)
             | Panic msg => P (Panic msg) evs1 w1
             | OutOfFuel => P OutOfFuel evs1 w1
             end) ->
  wpt (bind m k) w P.
Proof.
  intros (evs1 & Htr & H). unfold wpt, bind.
  destruct (m w) as [[b|msg|] w1]; cbn [fst snd] in *.
  - destruct H as (evs2 & Htr2 & H). exists (evs1 ++ evs2).
    rewrite Htr2, Htr, <- app_assoc. auto.
  - exists evs1. auto.
  - exists evs1. auto.
Qed.

Lemma wpt_with_defer (body : M A) (deferred : Outcome A -> M unit) w P :
  wpt body w (fun r evs1 w1 =>
                match r with
                | OutOfFuel => P OutOfFuel evs1 w1
                | _ =>
                    wpt (deferred r) w1
                        (fun r2 evs2 w2 =>
                           match r2 with
                           | Done _ => P r (evs1 ++ evs2) w2
                           | Panic msg => P (Panic msg) (evs1 ++ evs2) w2
                           | OutOfFuel => P OutOfFuel (evs1 ++ evs2) w2
                           end)
                end) ->
  wpt (with_defer body deferred) w P.
Proof.
  intros (evs1 & Htr & H). unfold wpt, with_defer.
  destruct (body w) as [[a|msg|] w1]; cbn [fst snd] in *.
  - destruct H as (evs2 & Htr2 & H). exists (evs1 ++ evs2).
    destruct (deferred (Done a) w1) as [[u|msg|] w2]; cbn [fst snd] in *;
      rewrite Htr2, Htr, <- app_assoc; auto.
  - destruct H as (evs2 & Htr2 & H). exists (evs1 ++ evs2).
    destruct (deferred (Panic msg) w1) as [[u|msg'|] w2]; cbn [fst snd] in *;
      rewrite Htr2, Htr, <- app_assoc; auto.
  - exists evs1. auto.
Qed.

(** A step known only by what it keeps. *)
Lemma wpt_quiet (E : Event -> bool) (m : M A) w P :
  keeps (quietly E) m ->
  (forall r evs w1, forallb E evs = true -> table w1 = table w ->
                    clock w <= clock w1 -> P r evs w1) ->
  wpt m w P.
Proof.
  intros Hk H. destruct (Hk w) as (Hc & Ht & evs & Htr & HE).
  exists evs. split; [exact Htr|]. apply H; assumption.
Qed.

Lemma wpt_ask (oracle : World -> Duration * A) (ev : A -> Event) w P :
  (forall d a, P (Done a) [ev a]
                 (mkWorld (clock w + Z.max 0 d) (table w) (trace w ++ [ev a]))) ->
  wpt (ask oracle ev) w P.
Proof.
  intros H. unfold wpt, ask. destruct (oracle w) as [d a]. cbn [fst snd trace].
  exists [ev a]. auto.
Qed.

End Wpt.

Lemma wpt_emit (e : Event) (w : World) P :
  P (Done tt) [e] (mkWorld (clock w) (table w) (trace w ++ [e])) -> wpt (emit e) w P.
Proof. intros H. exists [e]. auto. Qed.

Lemma wpt_time_Now (w : World) P : P (Done (clock w)) [] w -> wpt time_Now w P.
Proof. intros H. exists []. cbn. rewrite app_nil_r. auto. Qed.

Lemma wpt_context_WithTimeout (d : Duration) (w : World) P :
  P (Done (mkContext (Some (Time_Add (clock w) d)))) [] w ->
  wpt (context_WithTimeout d) w P.
Proof. intros H. exists []. cbn. rewrite app_nil_r. auto. Qed.

Lemma wpt_HasAccountOlderThan (env : Env) (user : User) (t : Duration) (w : World) P :
  (forall old, P (Done old) [] w) -> wpt (HasAccountOlderThan env user t) w P.
Proof. intros H. exists []. cbn. rewrite app_nil_r. split; [reflexivity|apply H]. Qed.

Lemma wpt_lockUser (userID : string) (lock : UserLock) (w : World) P :
  (forall err tbl,
     P (Done err) [EvLockUser userID lock err]
       (mkWorld (clock w) tbl (trace w ++ [EvLockUser userID lock err]))) ->
  wpt (lockUser userID lock) w P.
Proof.
  intros H. destruct (lockUser_run userID lock w) as (err & tbl & Hrun).
  unfold wpt. rewrite Hrun. cbn [fst snd trace]. eexists. split; [reflexivity|]. apply H.
Qed.

Lemma wpt_unlockUser (userID : string) (lock : UserLock) (w : World) P :
  (forall err tbl,
     docs tbl = docs (table w) ->
     lock_flag tbl userID lock <> Some (AttrBool true) ->
     P (Done err) [EvUnlockUser userID lock err]
       (mkWorld (clock w) tbl (trace w ++ [EvUnlockUser userID lock err]))) ->
  wpt (unlockUser userID lock) w P.
Proof.
  intros H. destruct (unlockUser_run userID lock w) as (err & tbl & Hrun & Hd & Hf).
  unfold wpt. rewrite Hrun. cbn [fst snd trace]. eexists. split; [reflexivity|].
  apply H; assumption.
Qed.

Lemma wpt_getUserByID (userID : string) (w : World) P :
  P (Done (Get_One (table w) userID)) [EvGetUser userID (Get_One (table w) userID)]
    (mkWorld (clock w) (table w)
             (trace w ++ [EvGetUser userID (Get_One (table w) userID)])) ->
  wpt (getUserByID userID) w P.
Proof. intros H. eexists. split; [reflexivity|]. exact H. Qed.

Lemma wpt_saveUser (user : User) (w : World) P :
  P (Done None) [EvSaveUser user]
    (mkWorld (clock w) (Put_Run (table w) user) (trace w ++ [EvSaveUser user])) ->
  wpt (saveUser user) w P.
Proof. intros H. eexists. split; [reflexivity|]. exact H. Qed.

(** Events of a payment run are no lock, unlock, save or [go]. *)
Lemma pays_acquired to amount evs :
  forallb (reads_or_pays to amount) evs = true -> acquired evs = [].
Proof. apply omap_quiet. intros e; destruct e; cbn; congruence. Qed.

Lemma pays_unlocks to amount evs :
  forallb (reads_or_pays to amount) evs = true -> unlocks evs = [].
Proof. apply omap_quiet. intros e; destruct e; cbn; congruence. Qed.

Lemma pays_spawned to amount evs :
  forallb (reads_or_pays to amount) evs = true -> spawned evs = [].
Proof. apply omap_quiet. intros e; destruct e; cbn; congruence. Qed.

Lemma pays_saves to amount evs :
  forallb (reads_or_pays to amount) evs = true -> saves evs = [].
Proof. apply omap_quiet. intros e; destruct e; cbn; congruence. Qed.

Lemma pays_pushed to amount evs msg :
  forallb (reads_or_pays to amount) evs = true ->
  In msg (pushed evs) -> msg_To msg = to /\ msg_Value msg = amount.
Proof.
  induction evs as [|e evs IH]; [intros _ []|].
  cbn [forallb]. intros H. apply andb_true_iff in H. destruct H as [He Hevs].
  unfold pushed. cbn [omap list_omap]. fold (pushed evs).
  destruct e; cbn [push_of]; try (apply IH; assumption).
  intros [<-|Hin]; [|apply IH; assumption].
  cbn in He. apply andb_true_iff in He. destruct He as [H1 H2].
  apply bool_decide_eq_true_1 in H1. apply bool_decide_eq_true_1 in H2. auto.
Qed.

(** Walks a goal [wpt m w P] along the structure of [m]. A step known
    by a [keeps] lemma leaves a fresh world with what is known of the
    events it added. *)
Ltac wpt_known E lem :=
  apply (wpt_quiet E); [lem | intros ?r ?evs ?w ?Hevs ?Htbl ?Hclock];
  cbv beta.

Ltac wpt_step env node lib :=
  cbv beta iota zeta; cbn [clock table trace];
  lazymatch goal with
  | |- wpt (bind _ _) _ _ => apply wpt_bind
  | |- wpt (ret _) _ _ => apply wpt_ret
  | |- wpt (lift ?o) _ _ => apply wpt_lift; destruct o eqn:?
  | |- wpt (panic _) _ _ => apply wpt_panic
  | |- wpt (c_JSON _ _) _ _ => apply wpt_emit
  | |- wpt (log_Println _) _ _ => apply wpt_emit
  | |- wpt (go_ _) _ _ => apply wpt_emit
  | |- wpt time_Now _ _ => apply wpt_time_Now
  | |- wpt (context_WithTimeout _) _ _ => apply wpt_context_WithTimeout
  | |- wpt (HasAccountOlderThan _ _ _) _ _ => apply wpt_HasAccountOlderThan; intros ?old
  | |- wpt (lockUser _ _) _ _ => apply wpt_lockUser; intros ?err ?tbl
  | |- wpt (unlockUser _ _) _ _ => apply wpt_unlockUser; intros ?err ?tbl ?Hdocs ?Hflag
  | |- wpt (getUserByID _) _ _ => apply wpt_getUserByID
  | |- wpt (saveUser _) _ _ => apply wpt_saveUser
  | |- wpt (with_defer _ _) _ _ => apply wpt_with_defer
  | |- wpt (defer_closer _ _) _ _ => unfold defer_closer; apply wpt_with_defer
  | |- wpt (lotusGetFullNodeAPI _ _ _) _ _ =>
      wpt_known is_reading ltac:(apply keeps_lotusGetFullNodeAPI; auto)
  | |- wpt (lotusWaitMessageResult _ _ _ _) _ _ =>
      wpt_known is_reading ltac:(apply keeps_lotusWaitMessageResult)
  | |- wpt (lotusCheckAccountRemainingBytes _ _ _ _ _) _ _ =>
      wpt_known is_reading ltac:(apply keeps_lotusCheckAccountRemainingBytes)
  | |- wpt (lotusVerifyAccount _ _ _ _ _ _ _) _ _ =>
      wpt_known (reads_or_pays VerifiedRegistryActorAddr BigNil)
                ltac:(apply keeps_lotusVerifyAccount)
  | |- wpt (lotusSendFIL _ _ _ _ ?from ?to ?amount) _ _ =>
      wpt_known (reads_or_pays to amount) ltac:(apply keeps_lotusSendFIL)
  | |- wpt (faucetGrant _ _ _ _ _ _ _ _ _) _ _ => unfold faucetGrant
  | |- wpt (lotusGetMinerAddr _ _ _) _ _ => unfold lotusGetMinerAddr
  | |- wpt (lotusGetMinerPower _ _ _ _) _ _ => unfold lotusGetMinerPower
  | |- wpt (api_call ?api _ _) _ _ =>
      destruct api; [apply wpt_panic | apply wpt_ask; intros ?d ?a]
  | |- wpt (ask _ _) _ _ => apply wpt_ask; intros ?d ?a
  | |- wpt (match ?x with _ => _ end) _ _ => destruct x eqn:?
  | |- match ?r with Done _ => _ | Panic _ => _ | OutOfFuel => _ end => destruct r
  end.

(** Rewrites the readings of a trace built by a walk: the events of the
    steps known by a [keeps] lemma contribute nothing to them. *)
Ltac trace_readings :=
  rewrite ?acquired_app, ?unlocks_app, ?spawned_app, ?saves_app;
  repeat match goal with
    | H : forallb is_reading ?evs = true |- _ =>
        progress rewrite ?(reading_acquired evs H), ?(reading_unlocks evs H),
                         ?(reading_spawned evs H), ?(reading_saves evs H)
    | H : forallb (reads_or_pays ?t ?a) ?evs = true |- _ =>
        progress rewrite ?(pays_acquired t a evs H), ?(pays_unlocks t a evs H),
                         ?(pays_spawned t a evs H), ?(pays_saves t a evs H)
    end;
  cbn [acquired unlocks spawned saves omap list_omap acquire_of unlock_of go_of
       save_of app].

(** ** The lock over a whole request *)

Ltac lock_leaves :=
  unfold handler_post, goroutine_post; cbn [clock table trace lock_of fst snd];
  trace_readings;
  solve [ left; reflexivity
        | right; repeat split; try reflexivity; assumption
        | right; left; repeat split; reflexivity
        | right; right; left; repeat split; try reflexivity; assumption
        | right; right; right; repeat split; try reflexivity;
          eexists; split; reflexivity ].

Section Lock.

Context (env : Env) (node : Node) (lib : Library) (fuel : nat).

Lemma serveVerifyAccount_lock (c : Request) (w : World) :
  wpt (serveVerifyAccount env node lib fuel c) w
      (handler_post (fst (getUserIDFromJWT c)) UserLock_Verifier).
Proof.
  unfold serveVerifyAccount.
  repeat wpt_step env node lib.
  all: lock_leaves.
Qed.

Lemma serveFaucet_lock (c : Request) (w : World) :
  wpt (serveFaucet env node lib fuel c) w
      (handler_post (fst (getUserIDFromJWT c)) UserLock_Faucet).
Proof.
  unfold serveFaucet.
  repeat wpt_step env node lib.
  all: lock_leaves.
Qed.

Lemma Goroutine_run_lock (g : Goroutine) (w : World) :
  wpt (Goroutine_run node fuel g) w (goroutine_post g).
Proof.
  destruct g; unfold Goroutine_run, serveVerifyAccount_go, serveFaucet_go.
  all: repeat wpt_step env node lib.
  all: lock_leaves.
Qed.

(** From the handler to the end of its goroutine. *)
Lemma serve_lock (handler : M unit) (userID : string) (lock : UserLock)
    (w : World) (r : Outcome unit) (w' : World) :
  wpt handler w (handler_post userID lock) ->
  serve node fuel handler w = (r, w') ->
  r <> OutOfFuel ->
  exists evs,
    trace w' = trace w ++ evs /\
    unlocks evs = acquired evs /\
    (acquired evs = [] \/
     acquired evs = [(userID, lock)] /\
     lock_flag (table w') userID lock <> Some (AttrBool true)).
Proof.
  intros (evs1 & Htr1 & Hpost) Hserve Hr. unfold serve in Hserve.
  destruct (handler w) as [rh w1]. cbn [fst snd] in *.
  rewrite Htr1, drop_app_length in Hserve.
  assert (Hrun : rh <> OutOfFuel ->
            run_goroutines node fuel (spawned evs1) w1 = (r, w')).
  { destruct rh; congruence. }
  destruct Hpost as [-> | Hpost].
  { simplify_eq. }
  assert (Hrh : rh <> OutOfFuel) by (destruct rh; congruence).
  specialize (Hrun Hrh). clear Hserve.
  destruct Hpost as [(Ha & Hu & Hs) | [(Ha & Hu & Hs & Hflag) | (Ha & Hu & g & Hs & Hg)]];
    rewrite Hs in Hrun.
  - cbn in Hrun. unfold ret in Hrun. simplify_eq.
    exists evs1. rewrite Ha, Hu. auto.
  - cbn in Hrun. unfold ret in Hrun. simplify_eq.
    exists evs1. rewrite Ha, Hu. auto.
  - cbn [run_goroutines] in Hrun.
    destruct (Goroutine_run_lock g w1) as (evs2 & Htr2 & Hgo).
    unfold bind, ret in Hrun.
    destruct (Goroutine_run node fuel g w1) as [[[]|msg|] w2]; cbn [fst snd] in *;
      simplify_eq.
    + destruct Hgo as [? | (Ha2 & Hu2 & _ & Hflag)]; [discriminate|].
      exists (evs1 ++ evs2). rewrite Htr2, Htr1, <- app_assoc.
      rewrite unlocks_app, acquired_app, Ha, Hu, Ha2, Hu2, Hg in *.
      cbn [fst snd app] in *. auto.
    + destruct Hgo as [? | (Ha2 & Hu2 & _ & Hflag)]; [discriminate|].
      exists (evs1 ++ evs2). rewrite Htr2, Htr1, <- app_assoc.
      rewrite unlocks_app, acquired_app, Ha, Hu, Ha2, Hu2, Hg in *.
      cbn [fst snd app] in *. auto.
Qed.

End Lock.


(** ** The address the faucet pays *)

Lemma serveFaucet_pays env node lib fuel c w :
  wpt (serveFaucet env node lib fuel c) w (fun _ evs _ => pays_target lib c evs).
Proof.
  unfold serveFaucet.
  repeat wpt_step env node lib.
  all: unfold pays_target; intros pmsg Hin.
  all: rewrite ?pushed_app in Hin.
  all: repeat match goal with
         | H : forallb is_reading ?evs = true |- _ =>
             rewrite (reading_pushed evs H) in Hin
         end.
  all: cbn [pushed omap list_omap push_of app] in Hin.
  all: try contradiction.
  all: rewrite ?app_nil_r in Hin.
  all: match goal with
       | H : forallb (reads_or_pays ?t ?amount) ?evs = true |- _ =>
           destruct (pays_pushed t amount evs pmsg H Hin) as [HTo _]
       end.
  all: match goal with
       | |- context [Get_One ?t ?u] =>
           remember (Get_One t u) as got eqn:Hgot; clear Hgot;
           destruct got as [user uerr]
       end.
  all: match goal with
       | |- context [EvGetMinerAddr _ ?x] => destruct x as [minerAddr merr]
       end.
  all: cbn [fst snd] in *; subst uerr.
  all: match goal with
       | H : address_NewFromString _ _ = Ok ?t |- _ =>
           exists t, user, minerAddr, merr; split; [exact H|]
       end.
  all: split; [apply list_elem_of_In; set_solver|].
  all: split; [apply list_elem_of_In; set_solver|].
  all: unfold payment_target.
  all: repeat match goal with
         | H : negb (Address_Empty _) = _ |- _ => rewrite H
         | H : HasRequestedFromFaucetAsMiner _ _ = _ |- _ => rewrite H
         end.
  all: cbn [negb andb]; exact HTo.
Qed.

(** A repeat miner is paid at the miner address: 100 GiB before and
    80 GiB now give 10. *)
Example faucet_repeat_miner :
  map (fun m => (msg_To m, msg_Value m))
      (pushed (trace (snd (faucet_run (miner_node (100 * GiB) (80 * GiB)) (faucet_user true)))))
  = [("t01000", Big 10)].
Proof. vm_compute. reflexivity. Qed.

(** A miner who asks for the first time, and an address that is no
    miner, are paid the base rate at the address of the request. *)
Example faucet_first_time_miner :
  map (fun m => (msg_To m, msg_Value m))
      (pushed (trace (snd (faucet_run (miner_node (100 * GiB) (80 * GiB)) (faucet_user false)))))
  = [("t3target", Big 100)].
Proof. vm_compute. reflexivity. Qed.

Example faucet_non_miner :
  map (fun m => (msg_To m, msg_Value m))
      (pushed (trace (snd (faucet_run (sample_node 0) (faucet_user false)))))
  = [("t3target", Big 100)].
Proof. vm_compute. reflexivity. Qed.

(** A repeat miner whose power has not gone down: the handler panics in
    the computation of the grant; nothing is paid, and the lock is
    released by the deferred function. *)
Example faucet_repeat_miner_same_power :
  let run := faucet_run (miner_node (80 * GiB) (80 * GiB)) (faucet_user true) in
  fst run = Panic nil_dereference /\
  pushed (trace (snd run)) = [] /\
  unlocks (trace (snd run)) = [("alice", UserLock_Faucet)].
Proof. vm_compute. repeat split. Qed.

(** ** Fuel: deadlines bound the retries *)

Lemma nth_wait_nonneg (n : nat) : (n <= 11)%nat -> 0 <= nth_wait n.
Proof.
  intros Hn. do 12 (destruct n as [|n]; [vm_compute; discriminate|]). lia.
Qed.

Lemma slept_before_11 : 10 * Minute < slept_before 11.
Proof. vm_compute. reflexivity. Qed.

(** Under such a context the loop of [retry] ends within twelve turns:
    the waits before the twelfth add up to more than ten minutes. *)
Lemma retry_loop_total {S : Type} (fuel : nat) :
  forall (n : nat) (ctx : Context) (fn : S -> M (S * option error)) err s w D,
  (12 <= n + fuel)%nat -> (n <= 11)%nat ->
  ctx_deadline ctx = Some D -> D - clock w <= 10 * Minute - slept_before n ->
  (forall s w, fst (fn s w) <> OutOfFuel) ->
  (forall s w, clock w <= clock (snd (fn s w))) ->
  fst (retry_loop fuel ctx fn (nth_wait n) err s w) <> OutOfFuel.
Proof.
  induction fuel as [|fuel IH]; intros n ctx fn err s w D Hfuel Hn HD Hrem Hfn Hmono.
  - lia.
  - destruct (ctx_done ctx w) eqn:Hd.
    { rewrite (retry_loop_done fuel ctx fn _ err s w Hd). discriminate. }
    assert (Hlt : clock w < D).
    { unfold ctx_done in Hd. rewrite HD in Hd. lia. }
    assert (Hn' : (n <= 10)%nat).
    { destruct (decide (n = 11%nat)) as [->|]; [|lia].
      pose proof slept_before_11. lia. }
    pose proof (Hfn s w) as Hoof. pose proof (Hmono s w) as Hclk.
    destruct (fn s w) as [[[s1 [e|]]|msg|] w1] eqn:Hrun; cbn [fst snd] in *.
    + rewrite (retry_loop_failure fuel ctx fn _ err s w s1 e w1 Hd Hrun).
      change (next_wait (nth_wait n)) with (nth_wait (Datatypes.S n)).
      apply (IH (Datatypes.S n) ctx fn (Some e) s1 _ D); try assumption; try lia.
      cbn [clock slept_before]. pose proof (nth_wait_nonneg n ltac:(lia)). lia.
    + rewrite (retry_loop_success fuel ctx fn _ err s w s1 w1 Hd Hrun). discriminate.
    + rewrite (retry_loop_panic fuel ctx fn _ err s w msg w1 Hd Hrun). discriminate.
    + congruence.
Qed.

Lemma retry_total {S : Type} (fuel : nat) (ctx : Context)
    (fn : S -> M (S * option error)) (s : S) (w : World) :
  (12 <= fuel)%nat -> within ctx w ->
  (forall s w, fst (fn s w) <> OutOfFuel) ->
  (forall s w, clock w <= clock (snd (fn s w))) ->
  fst (retry fuel ctx fn s w) <> OutOfFuel.
Proof.
  intros Hfuel Hw Hfn Hmono. unfold within in Hw.
  destruct (ctx_deadline ctx) as [D|] eqn:HD; [|contradiction].
  unfold retry. change (5 * Second) with (nth_wait 0).
  apply (retry_loop_total fuel 0 ctx fn None s w D); try assumption; lia.
Qed.

Lemma within_later (ctx : Context) (w w1 : World) :
  within ctx w -> clock w <= clock w1 -> within ctx w1.
Proof. unfold within. destruct (ctx_deadline ctx); [lia|auto]. Qed.

(** A step known by what it keeps, and known to end. *)
Lemma wpt_quiet_total {A} (E : Event -> bool) (m : M A) (w : World) P :
  keeps (quietly E) m ->
  fst (m w) <> OutOfFuel ->
  (forall r evs w1, r <> OutOfFuel -> forallb E evs = true -> table w1 = table w ->
                    clock w <= clock w1 -> P r evs w1) ->
  wpt m w P.
Proof.
  intros Hk Hr H. destruct (Hk w) as (Hc & Ht & evs & Htr & HE).
  exists evs. split; [exact Htr|]. apply H; assumption.
Qed.

Lemma wpt_ends {A} (m : M A) (w : World) : wpt m w ends -> fst (m w) <> OutOfFuel.
Proof. intros (evs & _ & H). exact H. Qed.

(** Closes a goal [within ctx w] from the clock facts at hand. *)
Ltac within_tac :=
  cbn [clock] in *;
  first
    [ assumption
    | eapply within_later; [eassumption | lia]
    | unfold within, Time_Add; cbn [ctx_deadline clock];
      unfold Minute, Second, Millisecond, Microsecond, Nanosecond in *; lia ].

Ltac total_known E keeps_lem total_lem :=
  apply (wpt_quiet_total E);
  [ keeps_lem | total_lem | intros ?r ?evs ?w ?Hr ?Hevs ?Htbl ?Hclock ];
  cbv beta.

(** The arithmetic uses no fuel. *)
Lemma BigSub_ends a b : BigSub a b <> OutOfFuel.
Proof. destruct a, b; discriminate. Qed.

Lemma BigMul_ends a b : BigMul a b <> OutOfFuel.
Proof. destruct a, b; discriminate. Qed.

Lemma BigCmp_ends a b : BigCmp a b <> OutOfFuel.
Proof. destruct a, b; discriminate. Qed.

Lemma BigDiv_ends a b : BigDiv a b <> OutOfFuel.
Proof. destruct a as [|x], b as [|y]; try discriminate. cbn. destruct (y =? 0); discriminate. Qed.

Lemma minerGrantSize_ends env p c : minerGrantSize env p c <> OutOfFuel.
Proof.
  unfold minerGrantSize, obind.
  pose proof (BigSub_ends p c). destruct (BigSub p c) as [d| |]; try congruence.
  pose proof (BigCmp_ends d (NewInt 0)).
  destruct (BigCmp d (NewInt 0)) as [z| |]; try congruence.
  destruct (0 <? z).
  - pose proof (BigDiv_ends d (NewInt 1073741824)).
    destruct (BigDiv d (NewInt 1073741824)) as [g| |]; try congruence.
    pose proof (BigDiv_ends g (NewInt 2)).
    destruct (BigDiv g (NewInt 2)) as [o| |]; try congruence.
    pose proof (BigCmp_ends o (FaucetMinGrant env)).
    destruct (BigCmp o (FaucetMinGrant env)) as [z'| |]; try congruence.
    destruct (z' <? 0); discriminate.
  - pose proof (BigCmp_ends BigNil (FaucetMinGrant env)).
    destruct (BigCmp BigNil (FaucetMinGrant env)) as [z'| |]; try congruence.
    destruct (z' <? 0); discriminate.
Qed.

Ltac ends_leaves :=
  unfold ends;
  first
    [ discriminate | assumption | congruence
    | exfalso;
      match goal with
      | H : BigSub _ _ = OutOfFuel |- _ => exact (BigSub_ends _ _ H)
      | H : BigMul _ _ = OutOfFuel |- _ => exact (BigMul_ends _ _ H)
      | H : BigCmp _ _ = OutOfFuel |- _ => exact (BigCmp_ends _ _ H)
      | H : minerGrantSize _ _ _ = OutOfFuel |- _ => exact (minerGrantSize_ends _ _ _ H)
      end ].

Section Total.

Context (env : Env) (node : Node) (lib : Library) (fuel : nat).
Hypothesis enough : (12 <= fuel)%nat.

Lemma lotusGetFullNodeAPI_total ctx w :
  within ctx w -> fst (lotusGetFullNodeAPI node fuel ctx w) <> OutOfFuel.
Proof.
  intros Hw. unfold lotusGetFullNodeAPI. apply retry_total; [exact enough|exact Hw| |].
  - intros s w0. unfold bind, ask, ret. destruct (NewFullNodeRPC node w0) as [d r].
    discriminate.
  - intros s w0. unfold bind, ask, ret. destruct (NewFullNodeRPC node w0) as [d r].
    cbn. lia.
Qed.

Ltac total_step :=
  cbv beta iota zeta; cbn [clock table trace];
  lazymatch goal with
  | |- wpt (lotusGetFullNodeAPI _ _ _) _ _ =>
      total_known is_reading ltac:(apply keeps_lotusGetFullNodeAPI; auto)
                  ltac:(apply lotusGetFullNodeAPI_total; within_tac)
  | |- _ => wpt_step env node lib
  end.

Lemma lotusWaitMessageResult_total ctx cid w :
  within ctx w -> fst (lotusWaitMessageResult node fuel ctx cid w) <> OutOfFuel.
Proof.
  intros Hw. apply wpt_ends. unfold lotusWaitMessageResult.
  repeat total_step; try ends_leaves.
  apply (wpt_quiet_total is_reading).
  - keeps_auto.
  - apply retry_total; [exact enough | within_tac | |].
    + intros s w1. unfold bind, api_call, ask, ret, panic, lift.
      destruct (fst a); [discriminate|].
      destruct (StateWaitMsg node cid MessageConfidence w1) as [d [m|e]]; discriminate.
    + intros s w1. unfold bind, api_call, ask, ret, panic, lift.
      destruct (fst a); [cbn; lia|].
      destruct (StateWaitMsg node cid MessageConfidence w1) as [d [m|e]]; cbn; lia.
  - intros r0 evs0 w1 Hr0 _ _ _. destruct r0 as [x|msg|]; [| |ends_leaves].
    + repeat total_step; ends_leaves.
    + repeat total_step; ends_leaves.
Qed.

Lemma lotusCheckAccountRemainingBytes_total ctx targetAddr w :
  within ctx w ->
  fst (lotusCheckAccountRemainingBytes node lib fuel ctx targetAddr w) <> OutOfFuel.
Proof.
  intros Hw. apply wpt_ends. unfold lotusCheckAccountRemainingBytes.
  repeat total_step; ends_leaves.
Qed.

Lemma lotusVerifyAccount_total ctx targetAddr allowanceStr w :
  within ctx w ->
  fst (lotusVerifyAccount env node lib fuel ctx targetAddr allowanceStr w) <> OutOfFuel.
Proof.
  intros Hw. apply wpt_ends. unfold lotusVerifyAccount.
  repeat (first [ total_step
                | progress unfold lotusEstimateGasLimit, lotusEstimateGasPrice ]);
    ends_leaves.
Qed.

Lemma lotusSendFIL_total ctx fromAddr toAddr filAmount w :
  within ctx w ->
  fst (lotusSendFIL env node fuel ctx fromAddr toAddr filAmount w) <> OutOfFuel.
Proof.
  intros Hw. apply wpt_ends. unfold lotusSendFIL.
  repeat (first [ total_step
                | progress unfold lotusEstimateGasLimit, lotusEstimateGasPrice ]);
    ends_leaves.
Qed.

Ltac handler_step :=
  cbv beta iota zeta; cbn [clock table trace];
  lazymatch goal with
  | |- wpt (lotusWaitMessageResult _ _ _ _) _ _ =>
      total_known is_reading ltac:(apply keeps_lotusWaitMessageResult)
                  ltac:(apply lotusWaitMessageResult_total; within_tac)
  | |- wpt (lotusCheckAccountRemainingBytes _ _ _ _ _) _ _ =>
      total_known is_reading ltac:(apply keeps_lotusCheckAccountRemainingBytes)
                  ltac:(apply lotusCheckAccountRemainingBytes_total; within_tac)
  | |- wpt (lotusVerifyAccount _ _ _ _ _ _ _) _ _ =>
      total_known (reads_or_pays VerifiedRegistryActorAddr BigNil)
                  ltac:(apply keeps_lotusVerifyAccount)
                  ltac:(apply lotusVerifyAccount_total; within_tac)
  | |- wpt (lotusSendFIL _ _ _ _ ?from ?to ?amount) _ _ =>
      total_known (reads_or_pays to amount) ltac:(apply keeps_lotusSendFIL)
                  ltac:(apply lotusSendFIL_total; within_tac)
  | |- _ => total_step
  end.

Lemma serveVerifyAccount_total c w :
  fst (serveVerifyAccount env node lib fuel c w) <> OutOfFuel.
Proof.
  apply wpt_ends. unfold serveVerifyAccount.
  repeat handler_step; ends_leaves.
Qed.

Lemma serveFaucet_total c w :
  fst (serveFaucet env node lib fuel c w) <> OutOfFuel.
Proof.
  apply wpt_ends. unfold serveFaucet.
  repeat handler_step; ends_leaves.
Qed.

Lemma Goroutine_run_total g w :
  fst (Goroutine_run node fuel g w) <> OutOfFuel.
Proof.
  apply wpt_ends.
  destruct g; unfold Goroutine_run, serveVerifyAccount_go, serveFaucet_go.
  all: repeat handler_step; ends_leaves.
Qed.

Lemma run_goroutines_total gs w :
  fst (run_goroutines node fuel gs w) <> OutOfFuel.
Proof.
  revert w. induction gs as [|g gs IH]; intros w; [discriminate|].
  cbn [run_goroutines]. unfold bind.
  pose proof (Goroutine_run_total g w) as Hg.
  destruct (Goroutine_run node fuel g w) as [[[]|msg|] w1]; cbn [fst] in *;
    [apply IH | discriminate | congruence].
Qed.

(** With fuel for twelve turns of each retry loop, a request runs to its
    end. *)
Lemma serve_total (handler : M unit) w :
  fst (handler w) <> OutOfFuel ->
  fst (serve node fuel handler w) <> OutOfFuel.
Proof.
  intros Hh. unfold serve. destruct (handler w) as [[[]|msg|] w1]; cbn [fst] in *.
  - apply run_goroutines_total.
  - apply run_goroutines_total.
  - congruence.
Qed.

End Total.

(** C2. Take a request served by [serveVerifyAccount] or by
    [serveFaucet], from the start of the handler to the end of the
    goroutine it may start, on any path: the replies of the collaborators
    are arbitrary, and panics are included. With fuel for twelve turns of
    each retry loop the request runs to its end. If it acquired the lock
    of its subject, [unlockUser] is called exactly once for that subject
    and lock, by the handler or by the goroutine, never by both, and the
    flag is not true at the end; if it did not acquire the lock,
    [unlockUser] is not called. *)
Theorem lock_released_exactly_once (env : Env) (node : Node) (lib : Library)
    (fuel : nat) (c : Request) (handler : M unit) (lock : UserLock) (w : World) :
  (12 <= fuel)%nat ->
  (handler = serveVerifyAccount env node lib fuel c /\ lock = UserLock_Verifier) \/
  (handler = serveFaucet env node lib fuel c /\ lock = UserLock_Faucet) ->
  fst (serve node fuel handler w) <> OutOfFuel /\
  exists evs,
    trace (snd (serve node fuel handler w)) = trace w ++ evs /\
    unlocks evs = acquired evs /\
    (acquired evs = [] \/
     acquired evs = [(fst (getUserIDFromJWT c), lock)] /\
     lock_flag (table (snd (serve node fuel handler w))) (fst (getUserIDFromJWT c)) lock
     <> Some (AttrBool true)).
Proof.
  intros Hfuel Hh.
  assert (Hends : fst (serve node fuel handler w) <> OutOfFuel).
  { apply serve_total; [exact Hfuel|].
    destruct Hh as [(-> & ->) | (-> & ->)];
      [apply serveVerifyAccount_total | apply serveFaucet_total]; exact Hfuel. }
  split; [exact Hends|].
  destruct Hh as [(-> & ->) | (-> & ->)].
  - eapply serve_lock; eauto using serveVerifyAccount_lock, surjective_pairing.
  - eapply serve_lock; eauto using serveFaucet_lock, surjective_pairing.
Qed.

Lemma lock_released_exactly_once_witness :
  fst (verify_run (sample_node 0) 40) <> OutOfFuel /\
  exists evs,
    trace (snd (verify_run (sample_node 0) 40)) = [] ++ evs /\
    unlocks evs = acquired evs /\
    (acquired evs = [] \/
     acquired evs = [("alice", UserLock_Verifier)] /\
     lock_flag (table (snd (verify_run (sample_node 0) 40))) "alice" UserLock_Verifier
     <> Some (AttrBool true)).
Proof.
  apply (lock_released_exactly_once sample_env (sample_node 0) sample_lib 20
           verify_request
           (serveVerifyAccount sample_env (sample_node 0) sample_lib 20 verify_request)
           UserLock_Verifier
           (world_of (sample_user (sample_now - 40 * day)))).
  - lia.
  - left. split; reflexivity.
Defined.

(** The five ways a request that holds the lock can end, each with one
    call to [unlockUser]: the account is too new; nothing is owed; the
    message is not accepted; the message is confirmed; the message fails,
    or is not seen before the deadline. *)
Example verify_ineligible :
  let w' := snd (verify_run (sample_node 0) 1) in
  acquired (trace w') = [("alice", UserLock_Verifier)] /\
  unlocks (trace w') = [("alice", UserLock_Verifier)] /\ pushed (trace w') = [].
Proof. vm_compute. repeat split. Qed.

Example verify_no_quota :
  let node := sample_node_of (Ok (mkMsgLookup 0 "tipset-1")) (Big (32 * GiB))
                (Ok "bafy-message") (Address_Undef, MinerNotMiner) (fun _ => Ok (Big 0)) in
  let w' := snd (verify_run node 40) in
  acquired (trace w') = [("alice", UserLock_Verifier)] /\
  unlocks (trace w') = [("alice", UserLock_Verifier)] /\ pushed (trace w') = [].
Proof. vm_compute. repeat split. Qed.

Example verify_submit_failed :
  let node := sample_node_of (Ok (mkMsgLookup 0 "tipset-1")) (Big GiB)
                (Err "mpool full") (Address_Undef, MinerNotMiner) (fun _ => Ok (Big 0)) in
  let w' := snd (verify_run node 40) in
  acquired (trace w') = [("alice", UserLock_Verifier)] /\
  unlocks (trace w') = [("alice", UserLock_Verifier)] /\ spawned (trace w') = [].
Proof. vm_compute. repeat split. Qed.

Example verify_confirmed :
  let w' := snd (verify_run (sample_node 0) 40) in
  acquired (trace w') = [("alice", UserLock_Verifier)] /\
  unlocks (trace w') = [("alice", UserLock_Verifier)] /\
  length (spawned (trace w')) = 1%nat /\ length (saves (trace w')) = 1%nat.
Proof. vm_compute. repeat split. Qed.

Example verify_unconfirmed :
  let node := sample_node_of (Err "not yet") (Big GiB)
                (Ok "bafy-message") (Address_Undef, MinerNotMiner) (fun _ => Ok (Big 0)) in
  let w' := snd (verify_run node 40) in
  fst (verify_run node 40) = Done tt /\
  acquired (trace w') = [("alice", UserLock_Verifier)] /\
  unlocks (trace w') = [("alice", UserLock_Verifier)] /\
  length (spawned (trace w')) = 1%nat /\ saves (trace w') = [] /\
  length (sleeps (trace w')) = 11%nat.
Proof. vm_compute. repeat split. Qed.

(** ** The payment of the faucet is made *)

Lemma wpt_ask_exact {A} (oracle : World -> Duration * A) (ev : A -> Event) (w : World)
    (P : Outcome A -> list Event -> World -> Prop) :
  P (Done (snd (oracle w))) [ev (snd (oracle w))]
    (mkWorld (clock w + Z.max 0 (fst (oracle w))) (table w)
             (trace w ++ [ev (snd (oracle w))])) ->
  wpt (ask oracle ev) w P.
Proof.
  intros H. unfold wpt, ask. destruct (oracle w) as [d a]. cbn [fst snd trace] in *.
  exists [ev a]. auto.
Qed.

Lemma wpt_conseq {A} (m : M A) (w : World)
    (P Q : Outcome A -> list Event -> World -> Prop) :
  wpt m w P -> (forall r evs w', P r evs w' -> Q r evs w') -> wpt m w Q.
Proof. intros (evs & Htr & H) HPQ. exists evs. auto. Qed.

Lemma replies_app (l1 l2 : list Event) : replies (l1 ++ l2) = replies l1 ++ replies l2.
Proof. apply omap_app. Qed.

Lemma accepted_app (l1 l2 : list Event) : accepted (l1 ++ l2) = accepted l1 ++ accepted l2.
Proof. apply omap_app. Qed.

Lemma wpt_run {A} (m : M A) (w : World) (r : Outcome A) (w' : World) (evs : list Event)
    (P : Outcome A -> list Event -> World -> Prop) :
  m w = (r, w') -> trace w' = trace w ++ evs -> P r evs w' -> wpt m w P.
Proof. intros Hm Htr H. exists evs. rewrite Hm. auto. Qed.

(** The first dial succeeds. *)
Lemma lotusGetFullNodeAPI_first (node : Node) (fuel : nat) (ctx : Context) (w : World) :
  ctx_done ctx w = false ->
  snd (NewFullNodeRPC node w) = None ->
  lotusGetFullNodeAPI node (S fuel) ctx w
  = (Done (ApiClient, None),
     mkWorld (clock w + Z.max 0 (fst (NewFullNodeRPC node w))) (table w)
             (trace w ++ [EvNewFullNodeRPC None])).
Proof.
  intros Hd Hn. unfold lotusGetFullNodeAPI, retry. apply retry_loop_success; [exact Hd|].
  unfold bind, ask, ret. destruct (NewFullNodeRPC node w) as [d e]. cbn [fst snd] in *.
  subst e. reflexivity.
Qed.

Lemma ctx_fresh (w : World) (d : Duration) :
  0 < d -> ctx_done (mkContext (Some (Time_Add (clock w) d))) w = false.
Proof. intros Hd. unfold ctx_done, Time_Add. cbn. apply Z.leb_gt. lia. Qed.

Lemma wpt_HasAccountOlderThan_now (env : Env) (user : User) (t : Duration) (w : World)
    (P : Outcome bool -> list Event -> World -> Prop) :
  P (Done (existsb (fun kv => account_is_old env (clock w) (snd kv))
                   (map_to_list (Accounts user)))) [] w ->
  wpt (HasAccountOlderThan env user t) w P.
Proof. intros H. exists []. cbn. rewrite app_nil_r. split; [reflexivity|exact H]. Qed.

(** [lockUser] on a record whose flag is false, or that has no attribute
    ["Locked"]. *)
Lemma lockUser_free (userID : string) (lock : UserLock) (w : World) (item : Item) :
  table w !! userID = Some item ->
  item_attrs item !! lock_attr lock = Some (AttrBool false) \/
  item_attrs item !! "Locked" = None ->
  lockUser userID lock w
  = (Done None,
     mkWorld (clock w)
             (<[userID := mkItem (item_doc item)
                            (<[lock_attr lock := AttrBool true]> (item_attrs item))]>
                (table w))
             (trace w ++ [EvLockUser userID lock None])).
Proof.
  intros Hi Hfree. unfold lockUser, Update_Set_If_Run. rewrite Hi. cbn [Cond_eval].
  assert (Hc : bool_decide (item_attrs item !! lock_attr lock = Some (AttrBool false))
               || bool_decide (item_attrs item !! "Locked" = None) = true).
  { destruct Hfree as [H|H]; rewrite (bool_decide_eq_true_2 _ H);
      [reflexivity|apply orb_true_r]. }
  rewrite Hc. reflexivity.
Qed.

Lemma Get_One_insert (tbl : gmap string Item) (key : string) (it : Item) :
  Get_One (<[key := it]> tbl) key = (item_doc it, None).
Proof. unfold Get_One. rewrite lookup_insert_eq. reflexivity. Qed.

(** An account that passes the age test passes it later as well. *)
Lemma account_is_old_later (env : Env) (now now' : Time) (a : AccountData) :
  now <= now' -> account_is_old env now a = true -> account_is_old env now' a = true.
Proof.
  unfold account_is_old. rewrite !Duration_Hours_le. intros Hle H.
  apply Z.leb_le in H. apply Z.leb_le. etransitivity; [exact H|].
  unfold Time_Sub.
  repeat match goal with |- context [?x <? ?y] => destruct (Z.ltb_spec x y) end;
    unfold minDuration, maxDuration in *; lia.
Qed.

Lemma eligible_later (env : Env) (now now' : Time) (user : User) :
  now <= now' ->
  existsb (fun kv => account_is_old env now (snd kv)) (map_to_list (Accounts user)) = true ->
  existsb (fun kv => account_is_old env now' (snd kv)) (map_to_list (Accounts user)) = true.
Proof.
  intros Hle H. apply existsb_exists in H. destruct H as (kv & Hin & Hold).
  apply existsb_exists. exists kv. split; [exact Hin|].
  apply (account_is_old_later env now now'); assumption.
Qed.

Ltac tidy := cbv beta iota zeta; cbn [clock table trace fst snd item_doc].


(** One step of a run whose answers are known. *)
Ltac run_step :=
  cbv beta iota zeta; cbn [clock table trace fst snd];
  lazymatch goal with
  | |- wpt (bind _ _) _ _ => apply wpt_bind
  | |- wpt (ret _) _ _ => apply wpt_ret
  | |- wpt (lift (Done _)) _ _ => apply wpt_lift
  | |- wpt (c_JSON _ _) _ _ => apply wpt_emit
  | |- wpt (go_ _) _ _ => apply wpt_emit
  | |- wpt time_Now _ _ => apply wpt_time_Now
  | |- wpt (context_WithTimeout _) _ _ => apply wpt_context_WithTimeout
  | |- wpt (with_defer _ _) _ _ => apply wpt_with_defer
  | |- wpt (defer_closer ApiClient _) _ _ => unfold defer_closer; apply wpt_with_defer
  | |- wpt (api_call ApiClient _ _) _ _ => unfold api_call; apply wpt_ask_exact
  | |- wpt (ask _ _) _ _ => apply wpt_ask_exact
  | |- wpt (lotusGetMinerAddr _ _ _) _ _ => unfold lotusGetMinerAddr
  | |- wpt (lotusGetMinerPower _ _ _ _) _ _ => unfold lotusGetMinerPower
  | |- wpt (lotusEstimateGasLimit _ _ _ _) _ _ => unfold lotusEstimateGasLimit
  | |- wpt (lotusEstimateGasPrice _ _ _ _ _) _ _ => unfold lotusEstimateGasPrice
  | |- wpt (getUserByID _) _ _ => apply wpt_getUserByID
  end.

Section Payment.

Context (env : Env) (node : Node) (lib : Library) (fuel : nat) (c : Request) (w : World).
Context (targetAddr : Address) (item : Item) (minerAddr : Address) (merr : MinerErr)
        (amount : FIL).

Local Abbreviation userID := (fst (getUserIDFromJWT c)).
Local Abbreviation user := (item_doc item).

Hypothesis Hresponsive : responsive node.
Hypothesis Hprompt : prompt node.
Hypothesis Haddr : address_NewFromString lib (Param_target_addr c) = Ok targetAddr.
Hypothesis Hjwt : snd (getUserIDFromJWT c) = None.
Hypothesis Hitem : table w !! userID = Some item.
Hypothesis Hfree :
  item_attrs item !! lock_attr UserLock_Faucet = Some (AttrBool false) \/
  item_attrs item !! "Locked" = None.
Hypothesis Hold :
  existsb (fun kv => account_is_old env (clock w) (snd kv))
          (map_to_list (Accounts user)) = true.
Hypothesis Hminer : forall w', snd (GetMinerAddr node targetAddr w') = (minerAddr, merr).
Hypothesis Hmerr : forall e, merr <> MinerOther e.
Hypothesis Hdue : grant_due env node lib user minerAddr (clock w) amount.

(** The grant is determined: the amount that is due, to be paid at the
    miner address for a miner who has requested before. *)
Lemma faucetGrant_due (ctx : Context) (w0 : World) :
  clock w <= clock w0 ->
  wpt (faucetGrant env node lib ctx ApiClient user targetAddr minerAddr
         (negb (Address_Empty minerAddr))) w0
      (fun r evs w1 =>
         r = Done (Some (payment_target lib targetAddr minerAddr user, amount)) /\
         silent evs /\ table w1 = table w0 /\
         clock w0 <= clock w1 <= clock w0 + 30 * Second).
Proof.
  intros Hclock.
  destruct Hprompt as (Tdial & Twallet & Tminer & Tsearch & Tpower).
  unfold faucetGrant, payment_target, grant_due in *.
  change (30 * Second) with 30000000000. change (10 * Second) with 10000000000 in *.
  destruct (negb (Address_Empty minerAddr)) eqn:Hem; cbn [andb].
  - destruct (HasRequestedFromFaucetAsMiner lib user) eqn:Hreq.
    + destruct Hdue as (Hrate & receipt & prev & cur & minGrant
                        & Hsearch & Hprev & Hcur & Hmin & Hdiff & ->).
      repeat run_step. tidy.
      assert (Hlater : Time_After (Time_Add (MostRecentMinerFaucetGrant user)
                                            (FaucetRateLimit env)) (clock w0) = false).
      { unfold Time_After, Time_Add in *. apply Z.ltb_ge. apply Z.ltb_ge in Hrate. lia. }
      rewrite Hlater.
      repeat run_step. match goal with
      | |- context [StateSearchMsg node ?cid ?w1] =>
          pose proof (Tsearch cid w1) as T1; rewrite (Hsearch w1)
      end.
      tidy. repeat run_step. match goal with
      | |- context [GetMinerPower node minerAddr (TipSet receipt) ?w1] =>
          pose proof (Tpower minerAddr (TipSet receipt) w1) as T2; rewrite (Hprev w1)
      end.
      tidy. repeat run_step. match goal with
      | |- context [GetMinerPower node minerAddr EmptyTSK ?w1] =>
          pose proof (Tpower minerAddr EmptyTSK w1) as T3; rewrite (Hcur w1)
      end.
      tidy. repeat run_step. rewrite (minerGrantSize_positive env prev cur minGrant Hmin Hdiff).
      repeat run_step. split; [reflexivity|]. split; [repeat split|]. split; [reflexivity|]. tidy. lia.
    + subst amount. repeat run_step. split; [reflexivity|]. split; [repeat split|]. split; [reflexivity|]. tidy. lia.
  - destruct Hdue as [_ ->]. repeat run_step. split; [reflexivity|]. split; [repeat split|]. split; [reflexivity|]. tidy. lia.
Qed.

(** The transfer is submitted and taken. *)
Lemma lotusSendFIL_taken (ctx : Context) (fromAddr toAddr : Address) (filAmount : FIL)
    (w0 : World) :
  ctx_done ctx w0 = false ->
  wpt (lotusSendFIL env node (S fuel) ctx fromAddr toAddr filAmount) w0
      (fun r evs w1 =>
         exists gasLimit gasPrice cid,
           let msg := mkMessage toAddr fromAddr filAmount (Big (gasPrice * GasMultiple env))
                                (wrap64 (gasLimit * wrap64 (GasMultiple env))) 0 "" in
           r = Done (cid, None) /\
           pushed evs = [msg] /\ accepted evs = [(msg, cid)] /\
           replies evs = [] /\ spawned evs = []).
Proof.
  intros Hctx.
  destruct Hresponsive as (Hdial & Hwallet & Hlimit & Hprice & Hpush).
  unfold lotusSendFIL.
  repeat run_step. eapply wpt_run; [apply lotusGetFullNodeAPI_first; [exact Hctx|apply Hdial]|reflexivity|].
  repeat run_step. match goal with
  | |- context [snd (WalletDefaultAddress node ?w1)] =>
      destruct (Hwallet w1) as [wallet Hw]; rewrite Hw
  end.
  tidy. repeat run_step. match goal with
  | |- context [snd (GasEstimateGasLimit node ?m ?w1)] =>
      destruct (Hlimit m w1) as [gasLimit Hl]; rewrite Hl
  end.
  tidy. repeat run_step. match goal with
  | |- context [snd (GasEstimateGasPrice node ?n ?a ?l ?w1)] =>
      destruct (Hprice n a l w1) as [gasPrice Hp]; rewrite Hp
  end.
  tidy. repeat run_step. change (BigMul (Big gasPrice) (NewInt (GasMultiple env)))
    with (Done (Big (gasPrice * GasMultiple env)) : Outcome BigInt).
  repeat run_step. match goal with
  | |- context [snd (MpoolPushMessage node ?m ?w1)] =>
      destruct (Hpush m w1) as [cid Hc]; rewrite Hc
  end.
  tidy. repeat run_step. exists gasLimit, gasPrice, cid. cbv zeta. repeat split.
Qed.

Lemma serveFaucet_sends :
  wpt (serveFaucet env node lib (S fuel) c) w
      (fun r evs _ =>
         r = Done tt /\
         exists faucetAddr gasLimit gasPrice cid,
           let msg := mkMessage (payment_target lib targetAddr minerAddr user)
                                faucetAddr amount (Big (gasPrice * GasMultiple env))
                                (wrap64 (gasLimit * wrap64 (GasMultiple env))) 0 "" in
           (Address_Empty (FaucetAddr env) = false -> faucetAddr = FaucetAddr env) /\
           pushed evs = [msg] /\ accepted evs = [(msg, cid)] /\
           replies evs = [(StatusOK, BodyCidSent cid amount)] /\
           spawned evs = [GoFaucet userID user minerAddr cid]).
Proof.
  destruct Hresponsive as (Hdial & Hwallet & Hlimit & Hprice & Hpush).
  destruct Hprompt as (Tdial & Twallet & Tminer & Tsearch & Tpower).
  change (10 * Second) with 10000000000 in *.
  unfold serveFaucet. rewrite Haddr.
  run_step. run_step. run_step.
  eapply wpt_run;
    [ apply lotusGetFullNodeAPI_first; [apply ctx_fresh; vm_compute; reflexivity | apply Hdial]
    | reflexivity | ].
  pose proof (Tdial w) as T1.
  run_step. run_step.
  destruct (Address_Empty (FaucetAddr env)) eqn:Hfa.
  all: run_step.
  1: match goal with
     | |- context [snd (WalletDefaultAddress node ?w0)] =>
         destruct (Hwallet w0) as [wallet Hw]; rewrite Hw; pose proof (Twallet w0) as T2
     end.
  all: cbv beta iota; rewrite Hjwt.
  all: run_step.
  all: (eapply wpt_run; [apply (lockUser_free _ _ _ item); [exact Hitem|exact Hfree]
                        | reflexivity | ]).
  all: run_step; run_step; run_step; run_step; tidy.
  all: rewrite Get_One_insert.
  all: run_step; tidy.
  all: apply wpt_HasAccountOlderThan_now; tidy.
  all: rewrite (eligible_later env (clock w)); [| lia | exact Hold ..].
  all: tidy; cbn [negb].
  all: run_step; run_step; run_step.
  all: match goal with
       | |- context [GetMinerAddr node targetAddr ?w0] =>
           pose proof (Tminer targetAddr w0) as T3; rewrite (Hminer w0)
       end.
  all: tidy.
  all: assert (Hreceived : negb (negb (Address_Empty minerAddr))
                           && ReceivedNonMinerFaucetGrant user = false)
         by (unfold grant_due in Hdue; destruct (Address_Empty minerAddr);
             [destruct Hdue as [-> _]|]; reflexivity).
  all: rewrite Hreceived.
  all: destruct merr as [| |e]; [| |exfalso; exact (Hmerr e eq_refl)].
  all: run_step.
  all: (eapply wpt_conseq; [apply faucetGrant_due; cbn [clock]; lia|]).
  all: intros r evsA wA (-> & (HpA & HaA & HrA & HsA) & HtA & HcA); cbn [clock] in HcA.
  all: tidy; run_step.
  all: (eapply wpt_conseq;
        [apply lotusSendFIL_taken; unfold ctx_done, Time_Add; cbn [ctx_deadline];
         apply Z.leb_gt; change (2 * Minute) with 120000000000;
         change (30 * Second) with 30000000000 in HcA; lia|]).
  all: intros r evsB wB (gasLimit & gasPrice & cid & -> & HpB & HaB & HrB & HsB).
  all: tidy; repeat run_step.
  all: split; [reflexivity|].
  all: eexists _, gasLimit, gasPrice, cid.
  all: rewrite ?pushed_app, ?accepted_app, ?replies_app, ?spawned_app,
               HpA, HaA, HrA, HsA, HpB, HaB, HrB, HsB.
  all: cbn [pushed accepted replies spawned omap list_omap push_of accept_of reply_of
            go_of app].
  all: split;
    [first [intros Hx; rewrite Hx in Hfa; discriminate | intros _; reflexivity]|].
  all: repeat split; reflexivity.
Qed.

End Payment.

(** C10. A request to the faucet is paid at the miner's ID address, as
    [lotusGetMinerAddr] resolved it, when that address is not empty and
    the subject has requested as a miner before; a miner who asks for the
    first time and an address that is no miner are paid at the address of
    the request path.

    First, in every run of [serveFaucet], whatever the node answers:
    every message pushed goes to that address, the subject being the
    record read with [getUserByID] in that run.

    Second, the payment is made. Let the address of the request convert,
    the subject be authenticated and have a record whose faucet lock can
    be taken, with an account that passes the age test; let the node be
    responsive and prompt and resolve the address to [minerAddr]; and let
    the grant [amount] be due. Then the handler returns, and in its run
    exactly one message is pushed: it goes to the address above, carries
    [amount], is sent from [env.FaucetAddr] when that is set, and the node
    takes it; the handler replies 200 with the cid and [amount], and
    starts the goroutine that reconciles it. *)
Theorem serveFaucet_payment_target (env : Env) (node : Node) (lib : Library)
    (fuel : nat) (c : Request) (w : World) :
  (exists evs,
     trace (snd (serveFaucet env node lib fuel c w)) = trace w ++ evs /\
     forall msg, In msg (pushed evs) ->
       exists targetAddr user minerAddr err,
         address_NewFromString lib (Param_target_addr c) = Ok targetAddr /\
         In (EvGetUser (fst (getUserIDFromJWT c)) (user, None)) evs /\
         In (EvGetMinerAddr targetAddr (minerAddr, err)) evs /\
         msg_To msg =
           if negb (Address_Empty minerAddr) && HasRequestedFromFaucetAsMiner lib user
           then minerAddr else targetAddr) /\
  (forall targetAddr item minerAddr merr amount,
     (0 < fuel)%nat ->
     responsive node ->
     prompt node ->
     address_NewFromString lib (Param_target_addr c) = Ok targetAddr ->
     snd (getUserIDFromJWT c) = None ->
     table w !! fst (getUserIDFromJWT c) = Some item ->
     (item_attrs item !! lock_attr UserLock_Faucet = Some (AttrBool false) \/
      item_attrs item !! "Locked" = None) ->
     existsb (fun kv => account_is_old env (clock w) (snd kv))
             (map_to_list (Accounts (item_doc item))) = true ->
     (forall w', snd (GetMinerAddr node targetAddr w') = (minerAddr, merr)) ->
     (forall e, merr <> MinerOther e) ->
     grant_due env node lib (item_doc item) minerAddr (clock w) amount ->
     fst (serveFaucet env node lib fuel c w) = Done tt /\
     exists evs faucetAddr gasLimit gasPrice cid,
       trace (snd (serveFaucet env node lib fuel c w)) = trace w ++ evs /\
       let msg :=
         mkMessage (if negb (Address_Empty minerAddr)
                       && HasRequestedFromFaucetAsMiner lib (item_doc item)
                    then minerAddr else targetAddr)
                   faucetAddr amount (Big (gasPrice * GasMultiple env))
                   (wrap64 (gasLimit * wrap64 (GasMultiple env))) 0 "" in
       (Address_Empty (FaucetAddr env) = false -> faucetAddr = FaucetAddr env) /\
       pushed evs = [msg] /\
       accepted evs = [(msg, cid)] /\
       replies evs = [(StatusOK, BodyCidSent cid amount)] /\
       spawned evs = [GoFaucet (fst (getUserIDFromJWT c)) (item_doc item) minerAddr cid]).
Proof.
  split; [exact (serveFaucet_pays env node lib fuel c w)|].
  intros targetAddr item minerAddr merr amount Hfuel Hres Hprompt Haddr Hjwt Hitem Hfree
         Hold Hminer Hmerr Hdue.
  destruct fuel as [|fuel]; [lia|].
  destruct (serveFaucet_sends env node lib fuel c w targetAddr item minerAddr merr amount
              Hres Hprompt Haddr Hjwt Hitem Hfree Hold Hminer Hmerr Hdue)
    as (evs & Htr & Hr & faucetAddr & gasLimit & gasPrice & cid & H).
  split; [exact Hr|]. exists evs, faucetAddr, gasLimit, gasPrice, cid.
  split; [exact Htr|]. exact H.
Qed.

(** A repeat miner whose power went from 100 GiB to 80 GiB is paid 10 at
    the miner address ["t01000"]; an address that is no miner is paid the
    base rate, 100, at the address of the request. *)
Lemma serveFaucet_payment_target_witness :
  (let run := faucet_run (miner_node (100 * GiB) (80 * GiB)) (faucet_user true) in
   fst run = Done tt /\
   exists evs faucetAddr gasLimit gasPrice cid,
     trace (snd run) = [] ++ evs /\
     let msg := mkMessage "t01000" faucetAddr (Big 10) (Big (gasPrice * 2))
                          (wrap64 (gasLimit * wrap64 2)) 0 "" in
     (Address_Empty "t3faucet" = false -> faucetAddr = "t3faucet") /\
     pushed evs = [msg] /\
     accepted evs = [(msg, cid)] /\
     replies evs = [(StatusOK, BodyCidSent cid (Big 10))] /\
     spawned evs = [GoFaucet "alice" (faucet_user true) "t01000" cid]) /\
  (let run := faucet_run (sample_node 0) (faucet_user false) in
   fst run = Done tt /\
   exists evs faucetAddr gasLimit gasPrice cid,
     trace (snd run) = [] ++ evs /\
     let msg := mkMessage "t3target" faucetAddr (Big 100) (Big (gasPrice * 2))
                          (wrap64 (gasLimit * wrap64 2)) 0 "" in
     (Address_Empty "t3faucet" = false -> faucetAddr = "t3faucet") /\
     pushed evs = [msg] /\
     accepted evs = [(msg, cid)] /\
     replies evs = [(StatusOK, BodyCidSent cid (Big 100))] /\
     spawned evs = [GoFaucet "alice" (faucet_user false) "" cid]).
Proof.
  split.
  - apply (proj2 (serveFaucet_payment_target sample_env
                    (miner_node (100 * GiB) (80 * GiB)) sample_lib 20 faucet_request
                    (world_of (faucet_user true)))
                 "t3target" (mkItem (faucet_user true) ∅) "t01000" MinerNil (Big 10)).
    + lia.
    + repeat split; intros; eexists; reflexivity.
    + repeat split; intros; vm_compute; discriminate.
    + reflexivity.
    + reflexivity.
    + reflexivity.
    + right. reflexivity.
    + vm_compute. reflexivity.
    + intros w'. reflexivity.
    + intros e. discriminate.
    + split; [vm_compute; reflexivity|].
      exists (mkMsgLookup 0 "tipset-0"), (100 * GiB), (80 * GiB), 5.
      repeat split; try (intros; reflexivity).
  - apply (proj2 (serveFaucet_payment_target sample_env (sample_node 0) sample_lib 20
                    faucet_request (world_of (faucet_user false)))
                 "t3target" (mkItem (faucet_user false) ∅) "" MinerNotMiner (Big 100)).
    + lia.
    + repeat split; intros; eexists; reflexivity.
    + repeat split; intros; vm_compute; discriminate.
    + reflexivity.
    + reflexivity.
    + reflexivity.
    + right. reflexivity.
    + vm_compute. reflexivity.
    + intros w'. reflexivity.
    + intros e. discriminate.
    + split; reflexivity.
Defined.

(* ===================================================================== *)
(** * Part III: further properties of the sources *)
(* ===================================================================== *)

(** ** [aws.go]: the lock protocol and the record store *)

Lemma lock_attr_inj (l1 l2 : UserLock) : lock_attr l1 = lock_attr l2 -> l1 = l2.
Proof. unfold lock_attr. cbn. intros H. injection H as H. exact H. Qed.

(** A conditional update whose condition fails. *)
Lemma unlockUser_refused (userID : string) (lock : UserLock) (w : World) :
  lock_flag (table w) userID lock <> Some (AttrBool true) ->
  unlockUser userID lock w
  = (Done (Some ErrConditionalCheckFailed),
     mkWorld (clock w) (table w)
             (trace w ++ [EvUnlockUser userID lock (Some ErrConditionalCheckFailed)])).
Proof.
  intros Hflag. unfold unlockUser, Update_Set_If_Run, lock_flag in *. cbn [Cond_eval].
  destruct (table w !! userID) as [i|]; [|reflexivity].
  rewrite bool_decide_eq_false_2 by exact Hflag. reflexivity.
Qed.

Lemma unlockUser_held (userID : string) (lock : UserLock) (w : World) (i : Item) :
  table w !! userID = Some i ->
  item_attrs i !! lock_attr lock = Some (AttrBool true) ->
  unlockUser userID lock w
  = (Done None,
     mkWorld (clock w)
             (<[userID := mkItem (item_doc i)
                            (<[lock_attr lock := AttrBool false]> (item_attrs i))]> (table w))
             (trace w ++ [EvUnlockUser userID lock None])).
Proof.
  intros Hi Hflag. unfold unlockUser, Update_Set_If_Run. cbn [Cond_eval].
  rewrite Hi. rewrite bool_decide_eq_true_2 by exact Hflag. reflexivity.
Qed.

(** What [lockUser] writes when it succeeds. *)
Lemma lockUser_acquired (userID : string) (lock : UserLock) (w : World) :
  fst (lockUser userID lock w) = Done None ->
  lockUser userID lock w
  = (Done None,
     mkWorld (clock w)
       (<[userID := match table w !! userID with
                    | Some i => mkItem (item_doc i)
                                  (<[lock_attr lock := AttrBool true]> (item_attrs i))
                    | None => mkItem (set_ID userID User_zero)
                                {[lock_attr lock := AttrBool true]}
                    end]> (table w))
       (trace w ++ [EvLockUser userID lock None])).
Proof.
  unfold lockUser, Update_Set_If_Run.
  destruct (Cond_eval _ _); cbn [fst]; [reflexivity|discriminate].
Qed.

(** X1. [unlockUser] on a lock that is not held (the flag is false or
    absent, or the subject has no record) returns the conditional check
    error and writes nothing: no flag is set and no record is created. *)
Theorem unlockUser_not_held_is_refused (userID : string) (lock : UserLock) (w : World) :
  lock_flag (table w) userID lock <> Some (AttrBool true) ->
  fst (unlockUser userID lock w) = Done (Some ErrConditionalCheckFailed) /\
  table (snd (unlockUser userID lock w)) = table w.
Proof.
  intros Hflag. rewrite (unlockUser_refused userID lock w Hflag). auto.
Qed.

Lemma unlockUser_not_held_is_refused_witness :
  (fst (unlockUser "bob" UserLock_Faucet held_world) = Done (Some ErrConditionalCheckFailed) /\
   table (snd (unlockUser "bob" UserLock_Faucet held_world)) = table held_world) /\
  (fst (unlockUser "alice" UserLock_Faucet held_world) = Done (Some ErrConditionalCheckFailed) /\
   table (snd (unlockUser "alice" UserLock_Faucet held_world)) = table held_world).
Proof.
  split.
  - apply (unlockUser_not_held_is_refused "bob" UserLock_Faucet held_world).
    vm_compute. discriminate.
  - apply (unlockUser_not_held_is_refused "alice" UserLock_Faucet held_world).
    vm_compute. discriminate.
Defined.

(** X2. Acquire and release compose: after a [lockUser] that succeeded,
    [unlockUser] of the same lock succeeds and leaves the flag false; the
    subject's record holds the fields it had before (a record created by
    the lock holds only its ID), the other lock's flag and the other
    subjects' items are untouched; and a second [unlockUser] is refused. *)
Theorem lockUser_unlockUser_round_trip (userID : string) (lock : UserLock) (w : World) :
  fst (lockUser userID lock w) = Done None ->
  let w1 := snd (lockUser userID lock w) in
  let w2 := snd (unlockUser userID lock w1) in
  fst (unlockUser userID lock w1) = Done None /\
  lock_flag (table w2) userID lock = Some (AttrBool false) /\
  fst (Get_One (table w2) userID)
  = match table w !! userID with
    | Some i => item_doc i
    | None => set_ID userID User_zero
    end /\
  (forall other, other <> lock ->
     lock_flag (table w2) userID other = lock_flag (table w) userID other) /\
  (forall u, u <> userID -> table w2 !! u = table w !! u) /\
  fst (unlockUser userID lock w2) = Done (Some ErrConditionalCheckFailed).
Proof.
  intros Hlock. cbv zeta. rewrite (lockUser_acquired userID lock w Hlock). cbn [snd].
  set (it := match table w !! userID with
             | Some i => mkItem (item_doc i) (<[lock_attr lock := AttrBool true]> (item_attrs i))
             | None => mkItem (set_ID userID User_zero) {[lock_attr lock := AttrBool true]}
             end).
  assert (Hit : item_attrs it !! lock_attr lock = Some (AttrBool true)).
  { unfold it. destruct (table w !! userID); cbn [item_attrs].
    - apply lookup_insert_eq.
    - apply lookup_singleton_eq. }
  rewrite (unlockUser_held userID lock _ it); [|apply lookup_insert_eq|exact Hit].
  cbn [fst snd table]. split; [reflexivity|].
  split.
  { unfold lock_flag. rewrite lookup_insert_eq. cbn [item_attrs]. apply lookup_insert_eq. }
  split.
  { unfold Get_One. rewrite lookup_insert_eq. cbn [fst item_doc].
    unfold it. destruct (table w !! userID); reflexivity. }
  split.
  { intros other Hother. unfold lock_flag. rewrite lookup_insert_eq. cbn [item_attrs].
    assert (Hne : lock_attr lock <> lock_attr other).
    { intros H. apply lock_attr_inj in H. congruence. }
    rewrite lookup_insert_ne by exact Hne.
    unfold it. destruct (table w !! userID); cbn [item_attrs].
    - apply lookup_insert_ne. exact Hne.
    - rewrite lookup_singleton_ne by exact Hne. reflexivity. }
  split.
  { intros u Hu. rewrite !lookup_insert_ne by congruence. reflexivity. }
  rewrite unlockUser_refused; [reflexivity|].
  cbn [table]. unfold lock_flag. rewrite lookup_insert_eq. cbn [item_attrs].
  rewrite lookup_insert_eq. discriminate.
Qed.

Lemma lockUser_unlockUser_round_trip_witness :
  let w := world_of (sample_user 0) in
  let w1 := snd (lockUser "alice" UserLock_Verifier w) in
  let w2 := snd (unlockUser "alice" UserLock_Verifier w1) in
  fst (unlockUser "alice" UserLock_Verifier w1) = Done None /\
  lock_flag (table w2) "alice" UserLock_Verifier = Some (AttrBool false) /\
  fst (Get_One (table w2) "alice")
  = match table w !! "alice" with
    | Some i => item_doc i
    | None => set_ID "alice" User_zero
    end /\
  (forall other, other <> UserLock_Verifier ->
     lock_flag (table w2) "alice" other = lock_flag (table w) "alice" other) /\
  (forall u, u <> "alice" -> table w2 !! u = table w !! u) /\
  fst (unlockUser "alice" UserLock_Verifier w2) = Done (Some ErrConditionalCheckFailed).
Proof.
  apply (lockUser_unlockUser_round_trip "alice" UserLock_Verifier
           (world_of (sample_user 0))).
  vm_compute. reflexivity.
Defined.

(** X3. [saveUser] and [getUserByID] round trip: the record read back
    under the saved ID is the record saved, with a nil error. The item is
    replaced as a whole, so every lock flag of that subject is gone after
    the save; the records of the other subjects read as before. *)
Theorem saveUser_getUserByID_round_trip (user : User) (w : World) :
  let w1 := snd (saveUser user w) in
  fst (getUserByID (ID user) w1) = Done (user, None) /\
  (forall lock, lock_flag (table w1) (ID user) lock = None) /\
  (forall u, u <> ID user ->
     fst (getUserByID u w1) = fst (getUserByID u w) /\
     forall lock, lock_flag (table w1) u lock = lock_flag (table w) u lock).
Proof.
  cbv zeta. unfold saveUser, getUserByID, Get_One, Put_Run, lock_flag. cbn [fst snd table].
  split; [rewrite lookup_insert_eq; reflexivity|].
  split; [intros lock; rewrite lookup_insert_eq; reflexivity|].
  intros u Hu. rewrite lookup_insert_ne by congruence. auto.
Qed.

(** ** Runs, by the events they add: more rules *)


Lemma wpt_and {A} (m : M A) (w : World)
    (P Q : Outcome A -> list Event -> World -> Prop) :
  wpt m w P -> wpt m w Q -> wpt m w (fun r evs w' => P r evs w' /\ Q r evs w').
Proof.
  intros (evs & Htr & HP) (evs' & Htr' & HQ). exists evs. split; [exact Htr|].
  rewrite Htr in Htr'. apply app_inv_head in Htr'. subst evs'. auto.
Qed.

Lemma wpt_of_keeps {A} (E : Event -> bool) (m : M A) (w : World) :
  keeps (quietly E) m ->
  wpt m w (fun _ evs w' => forallb E evs = true /\ table w' = table w /\ clock w <= clock w').
Proof. intros Hk. apply (wpt_quiet E); auto. Qed.

(** A step known by what it keeps and by a property of how it ends. *)
Lemma wpt_known_also {A} (E : Event -> bool) (m : M A) (w : World)
    (Q P : Outcome A -> list Event -> World -> Prop) :
  keeps (quietly E) m ->
  wpt m w Q ->
  (forall r evs w1, forallb E evs = true -> table w1 = table w -> clock w <= clock w1 ->
                    Q r evs w1 -> P r evs w1) ->
  wpt m w P.
Proof.
  intros Hk HQ H. apply (wpt_conseq _ _ _ _ (wpt_and _ _ _ _ (wpt_of_keeps E m w Hk) HQ)).
  intros r evs w' ((HE & Ht & Hc) & Hq). auto.
Qed.



Lemma lookups_app (l1 l2 : list Event) : lookups (l1 ++ l2) = lookups l1 ++ lookups l2.
Proof. apply omap_app. Qed.

Lemma reading_replies evs : forallb is_reading evs = true -> replies evs = [].
Proof. apply omap_quiet. intros e; destruct e; cbn; congruence. Qed.

Lemma reading_accepted evs : forallb is_reading evs = true -> accepted evs = [].
Proof. apply omap_quiet. intros e; destruct e; cbn; congruence. Qed.

Lemma reading_lookups evs : forallb is_reading evs = true -> lookups evs = [].
Proof. apply omap_quiet. intros e; destruct e; cbn; congruence. Qed.

Lemma pays_replies to amount evs :
  forallb (reads_or_pays to amount) evs = true -> replies evs = [].
Proof. apply omap_quiet. intros e; destruct e; cbn; congruence. Qed.

Lemma pays_lookups to amount evs :
  forallb (reads_or_pays to amount) evs = true -> lookups evs = [].
Proof. apply omap_quiet. intros e; destruct e; cbn; congruence. Qed.

(** ** [lotus.go]: the connection *)

Lemma connect_loop (node : Node) (ctx : Context) (fuel : nat) :
  forall wait err w api r w',
  retry_loop fuel ctx
    (fun _ : FullNode =>
       innerErr <- ask (NewFullNodeRPC node) EvNewFullNodeRPC ;;
       ret (match innerErr with None => ApiClient | Some _ => ApiNil end, innerErr))
    wait err ApiNil w = (Done (api, r), w') ->
  (ctx_done ctx w = true /\ api = ApiNil /\ r = err /\ w' = w) \/
  (ctx_done ctx w = false /\ api = ApiClient /\ r = None) \/
  (ctx_done ctx w = false /\ api = ApiNil /\ ctx_done ctx w' = true /\ exists e, r = Some e).
Proof.
  induction fuel as [|fuel IH]; intros wait err w api r w' H; [discriminate|].
  apply retry_loop_inv in H.
  destruct H as [(Hd & Hr & ->) | [(Hd & s1 & Hr & Hfn) | [(Hd & s1 & e & w1 & Hfn & Hrec)
      | [(_ & msg & _ & Hr) | (_ & _ & Hr)]]]]; try discriminate.
  - simplify_eq. auto.
  - simplify_eq. right. left.
    unfold bind, ask, ret in Hfn. destruct (NewFullNodeRPC node w) as [d [e|]];
      simplify_eq. auto.
  - assert (s1 = ApiNil) as ->.
    { unfold bind, ask, ret in Hfn. destruct (NewFullNodeRPC node w) as [d [e'|]];
        simplify_eq. reflexivity. }
    apply IH in Hrec.
    destruct Hrec as [(Hd' & -> & -> & ->) | [(Hd' & -> & ->) | (Hd' & -> & Hd'' & e' & ->)]].
    + right. right. repeat split; [exact Hd|exact Hd'|]. exists e. reflexivity.
    + right. left. auto.
    + right. right. repeat split; [exact Hd|exact Hd''|]. exists e'. reflexivity.
Qed.

Lemma connect_loop_no_panic (node : Node) (ctx : Context) (fuel : nat) :
  forall wait err s w msg w',
  retry_loop fuel ctx
    (fun _ : FullNode =>
       innerErr <- ask (NewFullNodeRPC node) EvNewFullNodeRPC ;;
       ret (match innerErr with None => ApiClient | Some _ => ApiNil end, innerErr))
    wait err s w <> (Panic msg, w').
Proof.
  induction fuel as [|fuel IH]; intros wait err s w msg w' H; [discriminate|].
  apply retry_loop_inv in H.
  destruct H as [(Hd & Hr & ->) | [(Hd & s1 & Hr & Hfn) | [(Hd & s1 & e & w1 & Hfn & Hrec)
      | [(_ & msg' & Hfn & Hr) | (_ & _ & Hr)]]]]; try discriminate.
  - apply IH in Hrec. exact Hrec.
  - unfold bind, ask, ret in Hfn. destruct (NewFullNodeRPC node w) as [d [e'|]]; discriminate.
Qed.

Lemma lotusGetFullNodeAPI_connection (node : Node) (fuel : nat) (ctx : Context) (w : World) :
  connection ctx w (fst (lotusGetFullNodeAPI node fuel ctx w))
             (snd (lotusGetFullNodeAPI node fuel ctx w)).
Proof.
  unfold connection, lotusGetFullNodeAPI, retry.
  destruct (retry_loop _ _ _ _ _ _ _) as [[[api [e|]]|msg|] w'] eqn:H; cbn [fst snd].
  - apply connect_loop in H.
    destruct H as [(Hd' & -> & ? & ->) | [(Hd' & -> & ?) | (Hd' & -> & Hd'' & e' & ?)]];
      try discriminate. auto.
  - apply connect_loop in H.
    destruct H as [(Hd' & -> & ? & ->) | [(Hd' & -> & ?) | (Hd' & -> & Hd'' & e' & ?)]];
      try discriminate; rewrite Hd'; auto.
  - apply connect_loop_no_panic in H. exact H.
  - exact I.
Qed.

(** X4. [lotusGetFullNodeAPI] returns a nil error together with a client,
    except when the context is already done at the call: then it returns
    the nil client with a nil error, and has done nothing. When it returns
    an error there is no client and the context is done. It never
    panics. *)
Theorem lotusGetFullNodeAPI_client (node : Node) (fuel : nat) (ctx : Context) (w : World) :
  match lotusGetFullNodeAPI node fuel ctx w with
  | (Done (api, None), w') =>
      if ctx_done ctx w then api = ApiNil /\ w' = w else api = ApiClient
  | (Done (api, Some _), w') =>
      api = ApiNil /\ ctx_done ctx w = false /\ ctx_done ctx w' = true
  | (Panic _, _) => False
  | (OutOfFuel, _) => True
  end.
Proof.
  pose proof (lotusGetFullNodeAPI_connection node fuel ctx w) as H.
  destruct (lotusGetFullNodeAPI node fuel ctx w) as [r w']. exact H.
Qed.

(** ** [lotus.go]: submissions *)

(** The walk of [wpt_step], going into the two estimators as well. *)
Ltac wpt_more :=
  cbv beta iota zeta; cbn [clock table trace];
  lazymatch goal with
  | |- wpt (lotusEstimateGasLimit _ _ _ _) _ _ => unfold lotusEstimateGasLimit
  | |- wpt (lotusEstimateGasPrice _ _ _ _ _) _ _ => unfold lotusEstimateGasPrice
  | |- _ => wpt_step tt tt tt
  end.

Lemma lotusSendFIL_wpt (env : Env) (node : Node) (fuel : nat) (ctx : Context)
    (fromAddr toAddr : Address) (filAmount : FIL) (w : World) :
  wpt (lotusSendFIL env node fuel ctx fromAddr toAddr filAmount) w
      (sendFIL_post env fromAddr toAddr filAmount).
Proof.
  unfold lotusSendFIL.
  repeat wpt_more.
  all: unfold sendFIL_post, submission.
  all: rewrite ?pushed_app, ?accepted_app.
  all: repeat match goal with
         | H : forallb is_reading ?evs = true |- _ =>
             rewrite ?(reading_pushed evs H), ?(reading_accepted evs H)
         end.
  all: cbn [pushed accepted omap list_omap push_of accept_of app length].
  all: try reflexivity.
  all: try (repeat split; try reflexivity; lia).
  all: cbn [fst snd] in *.
  all: match goal with
       | H : BigMul ?p _ = Done _ |- _ => destruct p; cbn in H; simplify_eq
       end.
  all: try (eexists; split;
       [ eexists _, _, _; repeat split;
         [ apply in_or_app; right; cbn [In]; left; reflexivity
         | apply in_or_app; right; cbn [In]; right; left; reflexivity
         | apply in_or_app; right; cbn [In]; right; right; left; reflexivity ]
       | split; reflexivity ]).
Qed.

(** X5. [lotusSendFIL] returns a nil error only after the node has taken
    one message, under the cid returned: the message goes from [fromAddr]
    to [toAddr] with the value [filAmount], method 0, and carries the two
    estimates of the node, each multiplied by [env.GasMultiple] (the limit
    on [int64]). The limit was estimated for a transfer from the wallet's
    default address to itself, the price for [fromAddr]. With an error
    the cid is undefined and the node has taken no message; a run that
    panics has pushed none. Never is more than one message pushed. *)
Theorem lotusSendFIL_submits (env : Env) (node : Node) (fuel : nat) (ctx : Context)
    (fromAddr toAddr : Address) (filAmount : FIL) (w : World) :
  wpt (lotusSendFIL env node fuel ctx fromAddr toAddr filAmount) w
    (fun r evs _ =>
       match r with
       | Done (c, None) =>
           exists m,
             (exists wallet gasLimit gasPrice,
                In (EvWalletDefaultAddress (Ok wallet)) evs /\
                In (EvGasEstimateGasLimit
                      (mkMessage wallet wallet filAmount (NewInt 0) 0 0 "")
                      (Ok gasLimit)) evs /\
                In (EvGasEstimateGasPrice 0 fromAddr gasLimit (Ok (Big gasPrice))) evs /\
                m = mkMessage toAddr fromAddr filAmount (Big (gasPrice * GasMultiple env))
                              (wrap64 (gasLimit * wrap64 (GasMultiple env))) 0 "") /\
             pushed evs = [m] /\ accepted evs = [(m, c)]
       | Done (c, Some _) =>
           c = Cid_Undef /\ accepted evs = [] /\ (length (pushed evs) <= 1)%nat
       | Panic _ | OutOfFuel => pushed evs = []
       end).
Proof. exact (lotusSendFIL_wpt env node fuel ctx fromAddr toAddr filAmount w). Qed.

Lemma lotusVerifyAccount_wpt (env : Env) (node : Node) (lib : Library) (fuel : nat)
    (ctx : Context) (targetAddr allowanceStr : string) (w : World) :
  wpt (lotusVerifyAccount env node lib fuel ctx targetAddr allowanceStr) w
      (verifyAccount_post env lib targetAddr allowanceStr).
Proof.
  unfold lotusVerifyAccount, verifyAccount_post, allocation_params.
  repeat wpt_more.
  all: unfold submission.
  all: rewrite ?pushed_app, ?accepted_app.
  all: repeat match goal with
         | H : forallb is_reading ?evs = true |- _ =>
             rewrite ?(reading_pushed evs H), ?(reading_accepted evs H)
         end.
  all: cbn [pushed accepted omap list_omap push_of accept_of app length].
  all: try reflexivity.
  all: try (repeat split; try reflexivity; lia).
  all: cbn [fst snd] in *.
  all: match goal with
       | H : BigMul ?p _ = Done _ |- _ => destruct p; cbn in H; simplify_eq
       end.
  all: try (eexists; split;
       [ eexists _, _; repeat split;
         [ apply in_or_app; right; cbn [In]; left; reflexivity
         | apply in_or_app; right; cbn [In]; right; left; reflexivity ]
       | split; reflexivity ]).
Qed.

(** X6. [lotusVerifyAccount] asks nothing of the node when the target
    address, the allowance or the parameters do not convert: it returns
    that error at once. Otherwise a nil error means that the node has taken
    one message under the cid returned: it goes to the verified registry
    actor from [env.LotusVerifierAddr], calls [AddVerifiedClient] with the
    serialized parameters, carries no value, and its gas fields are the
    two estimates of the node, made for this message and this sender, each
    multiplied by [env.GasMultiple]. With an error the node has taken no
    message; a run that panics has pushed none. *)
Theorem lotusVerifyAccount_submits (env : Env) (node : Node) (lib : Library) (fuel : nat)
    (ctx : Context) (targetAddr allowanceStr : string) (w : World) :
  wpt (lotusVerifyAccount env node lib fuel ctx targetAddr allowanceStr) w
    (fun r evs _ =>
       match allocation_params lib targetAddr allowanceStr with
       | Err e => r = Done (Cid_Undef, Some e) /\ evs = []
       | Ok params =>
           match r with
           | Done (c, None) =>
               exists m,
                 (exists gasLimit gasPrice,
                    In (EvGasEstimateGasLimit
                          (mkMessage VerifiedRegistryActorAddr (LotusVerifierAddr env)
                                     BigNil (NewInt 0) 0 AddVerifiedClient params)
                          (Ok gasLimit)) evs /\
                    In (EvGasEstimateGasPrice 0 (LotusVerifierAddr env) gasLimit
                                              (Ok (Big gasPrice))) evs /\
                    m = mkMessage VerifiedRegistryActorAddr (LotusVerifierAddr env) BigNil
                                  (Big (gasPrice * GasMultiple env))
                                  (wrap64 (gasLimit * wrap64 (GasMultiple env)))
                                  AddVerifiedClient params) /\
                 pushed evs = [m] /\ accepted evs = [(m, c)]
           | Done (c, Some _) =>
               c = Cid_Undef /\ accepted evs = [] /\ (length (pushed evs) <= 1)%nat
           | Panic _ | OutOfFuel => pushed evs = []
           end
       end).
Proof. exact (lotusVerifyAccount_wpt env node lib fuel ctx targetAddr allowanceStr w). Qed.

(** ** [lotus.go]: a context that is done *)

Lemma lotusGetFullNodeAPI_done (node : Node) (fuel : nat) (ctx : Context) (w : World) :
  ctx_done ctx w = true ->
  lotusGetFullNodeAPI node (S fuel) ctx w = (Done (ApiNil, None), w).
Proof. intros Hd. unfold lotusGetFullNodeAPI, retry. apply retry_loop_done. exact Hd. Qed.

(** X7. Called with a context that is already done, the functions that
    open a connection panic: [lotusGetFullNodeAPI] hands them the nil
    client with a nil error, and they call a method on it (or, for
    [lotusWaitMessageResult], read the receipt that was never assigned).
    Nothing has been asked of the node. For [lotusVerifyAccount] and
    [lotusCheckAccountRemainingBytes] this is so when their arguments
    convert; otherwise they have returned before. *)
Theorem lotus_calls_panic_on_done_context (env : Env) (node : Node) (lib : Library)
    (fuel : nat) (ctx : Context) (w : World) :
  ctx_done ctx w = true ->
  (forall fromAddr toAddr filAmount,
     lotusSendFIL env node (S fuel) ctx fromAddr toAddr filAmount w
     = (Panic nil_dereference, w)) /\
  (forall cid,
     lotusWaitMessageResult node (S fuel) ctx cid w = (Panic nil_dereference, w)) /\
  (forall targetAddr caddr,
     address_NewFromString lib targetAddr = Ok caddr ->
     lotusCheckAccountRemainingBytes node lib (S fuel) ctx targetAddr w
     = (Panic nil_dereference, w)) /\
  (forall targetAddr allowanceStr params,
     allocation_params lib targetAddr allowanceStr = Ok params ->
     lotusVerifyAccount env node lib (S fuel) ctx targetAddr allowanceStr w
     = (Panic nil_dereference, w)).
Proof.
  intros Hd. pose proof (lotusGetFullNodeAPI_done node fuel ctx w Hd) as Hapi.
  repeat split.
  - intros fromAddr toAddr filAmount. unfold lotusSendFIL.
    rewrite (bind_Done _ _ _ _ _ Hapi). reflexivity.
  - intros cid. unfold lotusWaitMessageResult.
    rewrite (bind_Done _ _ _ _ _ Hapi). cbn [fst snd].
    unfold defer_closer, with_defer.
    rewrite (bind_Done _ _ w (None, None) w); [reflexivity|].
    unfold retry. apply retry_loop_done. exact Hd.
  - intros targetAddr caddr Ha. unfold lotusCheckAccountRemainingBytes. rewrite Ha.
    rewrite (bind_Done _ _ _ _ _ Hapi). reflexivity.
  - intros targetAddr allowanceStr params Hp. unfold allocation_params in Hp.
    unfold lotusVerifyAccount.
    destruct (address_NewFromString lib targetAddr) as [target|]; [|discriminate].
    destruct (types_BigFromString lib allowanceStr) as [allowance|]; [|discriminate].
    rewrite Hp. rewrite (bind_Done _ _ _ _ _ Hapi). reflexivity.
Qed.

Lemma lotus_calls_panic_on_done_context_witness :
  lotusSendFIL sample_env (sample_node 0) 1 (mkContext (Some 0)) "t3faucet" "t3target"
    (Big 100) gas_world
  = (Panic nil_dereference, gas_world).
Proof.
  exact (proj1 (lotus_calls_panic_on_done_context sample_env (sample_node 0) sample_lib
                  0 (mkContext (Some 0)) gas_world eq_refl)
               "t3faucet" "t3target" (Big 100)).
Defined.


(** ** [lotus.go]: the reads of the registry *)

Lemma finds_app (l1 l2 : list Event) : finds (l1 ++ l2) = finds l1 ++ finds l2.
Proof. apply omap_app. Qed.

Lemma connecting_reading evs :
  forallb is_connecting evs = true -> forallb is_reading evs = true.
Proof.
  intros H. apply forallb_forall. intros e He.
  rewrite forallb_forall in H. specialize (H e He). destruct e; try discriminate; reflexivity.
Qed.

Lemma connecting_finds evs : forallb is_connecting evs = true -> finds evs = [].
Proof. apply omap_quiet. intros e; destruct e; cbn; congruence. Qed.

Lemma keeps_connecting (node : Node) (fuel : nat) (ctx : Context) :
  keeps (quietly is_connecting) (lotusGetFullNodeAPI node fuel ctx).
Proof. unfold lotusGetFullNodeAPI. keeps_auto. Qed.

(** The connection as a step of a walk. *)
Lemma wpt_lotusGetFullNodeAPI (node : Node) (fuel : nat) (ctx : Context) (w : World)
    (P : Outcome (FullNode * option error) -> list Event -> World -> Prop) :
  (forall r evs w1,
     forallb is_connecting evs = true -> table w1 = table w -> clock w <= clock w1 ->
     connection ctx w r w1 -> P r evs w1) ->
  wpt (lotusGetFullNodeAPI node fuel ctx) w P.
Proof.
  intros H. destruct (keeps_connecting node fuel ctx w) as (Hc & Ht & evs & Htr & HE).
  exists evs. split; [exact Htr|]. apply H; try assumption.
  apply lotusGetFullNodeAPI_connection.
Qed.

Ltac wpt_connect :=
  apply wpt_lotusGetFullNodeAPI;
  intros [[?api [?e|]]|?msg|] ?evs ?w ?Hevs ?Htbl ?Hclock ?Hconn;
  unfold connection in Hconn; try contradiction.

Ltac wpt_reads :=
  cbv beta iota zeta; cbn [clock table trace fst snd];
  lazymatch goal with
  | |- wpt (lotusGetFullNodeAPI _ _ _) _ _ => wpt_connect
  | |- _ => wpt_more
  end.

Lemma lotusCheckAccountRemainingBytes_wpt (node : Node) (lib : Library) (fuel : nat)
    (ctx : Context) (targetAddr : string) (w : World) :
  wpt (lotusCheckAccountRemainingBytes node lib fuel ctx targetAddr) w
    (fun r evs w' =>
       match address_NewFromString lib targetAddr with
       | Err e => r = Done (BigNil, Some e) /\ evs = []
       | Ok caddr => lookup_post account_answer caddr r evs w'
       end).
Proof.
  unfold lotusCheckAccountRemainingBytes.
  repeat wpt_reads.
  all: unfold lookup_post.
  all: rewrite ?finds_app.
  all: repeat match goal with
         | H : forallb is_connecting ?evs = true |- _ =>
             rewrite ?(connecting_finds evs H)
         end.
  all: cbn [finds omap list_omap find_of app fst snd] in *.
  all: try (split; reflexivity).
  all: try exact I.
  all: try reflexivity.
  all: try match goal with
       | H : ignoreNotFound (match ?x with Ok _ => None | Err _ => _ end) = Some _ |- _ =>
           destruct x; cbn in H; [discriminate|reflexivity]
       | H : ignoreNotFound ?x = Some _ |- match ?x with _ => _ end =>
           destruct x; [reflexivity|discriminate]
       end.
  all: match goal with
       | a : BigInt * option error |- _ => destruct a as [found ferr]
       end.
  all: cbn [fst snd] in *; unfold account_answer.
  all: match goal with H : ignoreNotFound _ = _ |- _ => rewrite H end.
  all: subst; split; reflexivity.
Qed.


(** X8. [lotusCheckAccountRemainingBytes] returns at once, asking nothing
    of the node, when the address does not convert. Otherwise it looks the
    address up at most once, and its result is made of the answer of that
    lookup: an error that says "not found" is dropped and read as the
    amount 0, as is a nil amount; another error is returned with the nil
    amount. Without a lookup the call has failed or panicked. A nil error
    never comes with the nil amount. *)
Theorem lotusCheckAccountRemainingBytes_answer (node : Node) (lib : Library) (fuel : nat)
    (ctx : Context) (targetAddr : string) (w : World) :
  wpt (lotusCheckAccountRemainingBytes node lib fuel ctx targetAddr) w
    (fun r evs _ =>
       match address_NewFromString lib targetAddr with
       | Err e => r = Done (BigNil, Some e) /\ evs = []
       | Ok caddr =>
           match finds evs with
           | [] =>
               match r with
               | Done (v, None) => False
               | Done (v, Some _) => v = BigNil
               | Panic _ | OutOfFuel => True
               end
           | [(root, key, (found, ferr))] =>
               key = caddr /\
               r = Done (match ignoreNotFound ferr with
                         | Some _ => (BigNil, ferr)
                         | None => (match found with Big z => Big z | BigNil => Big 0 end,
                                    None)
                         end)
           | _ => False
           end /\
           (forall v, r = Done (v, None) -> v <> BigNil)
       end).
Proof.
  apply (wpt_conseq _ _ _ _
           (lotusCheckAccountRemainingBytes_wpt node lib fuel ctx targetAddr w)).
  intros r evs w'. destruct (address_NewFromString lib targetAddr); [|auto].
  intros H. split; [exact H|]. unfold lookup_post in H.
  intros v ->. destruct (finds evs) as [|[[root key] [found ferr]] [|? ?]]; try contradiction.
  destruct H as [_ H]. unfold account_answer in H.
  destruct (ignoreNotFound ferr) eqn:Hi.
  - injection H as -> <-. discriminate Hi.
  - destruct found; injection H as ->; discriminate.
Qed.

Ltac lookup_leaves answer :=
  unfold lookup_post;
  rewrite ?finds_app;
  repeat match goal with
    | H : forallb is_connecting ?evs = true |- _ => rewrite ?(connecting_finds evs H)
    end;
  cbn [finds omap list_omap find_of app fst snd] in *;
  try (split; reflexivity); try exact I; try reflexivity.

Lemma lotusCheckVerifierRemainingBytes_wpt (node : Node) (lib : Library) (reg : Registry)
    (fuel : nat) (ctx : Context) (targetAddr : string) (w : World) :
  wpt (lotusCheckVerifierRemainingBytes node lib reg fuel ctx targetAddr) w
    (fun r evs w' =>
       match address_NewFromString lib targetAddr with
       | Err e => r = Done (BigNil, Some e) /\ evs = []
       | Ok vaddr => lookup_post verifier_answer vaddr r evs w'
       end).
Proof.
  unfold lotusCheckVerifierRemainingBytes.
  repeat wpt_reads.
  all: lookup_leaves verifier_answer.
  all: match goal with
       | a : BigInt * option error |- _ => destruct a as [found ferr]
       end.
  all: cbn [fst snd] in *; unfold verifier_answer; subst; split; reflexivity.
Qed.

(** X9. [lotusCheckVerifierRemainingBytes] makes the same reads on the
    verifiers' table, but returns every error of the lookup, one that
    says "not found" included, and returns the amount as found, the nil
    amount included. *)
Theorem lotusCheckVerifierRemainingBytes_answer (node : Node) (lib : Library)
    (reg : Registry) (fuel : nat) (ctx : Context) (targetAddr : string) (w : World) :
  wpt (lotusCheckVerifierRemainingBytes node lib reg fuel ctx targetAddr) w
    (fun r evs _ =>
       match address_NewFromString lib targetAddr with
       | Err e => r = Done (BigNil, Some e) /\ evs = []
       | Ok vaddr =>
           match finds evs with
           | [] =>
               match r with
               | Done (v, None) => False
               | Done (v, Some _) => v = BigNil
               | Panic _ | OutOfFuel => True
               end
           | [(root, key, (found, ferr))] =>
               key = vaddr /\
               r = Done (match ferr with
                         | Some e => (BigNil, Some e)
                         | None => (found, None)
                         end)
           | _ => False
           end
       end).
Proof. exact (lotusCheckVerifierRemainingBytes_wpt node lib reg fuel ctx targetAddr w). Qed.

(** ** [lotus.go]: the listings *)

Lemma collect_listing (codec : Codec) (entries : list (string * string)) :
  forall resp,
  exists pre decoded,
    fst (collect codec entries resp) = resp ++ decoded /\
    Forall2 (decodes codec) pre decoded /\
    (pre = entries /\ snd (collect codec entries resp) = None \/
     exists bad rest e,
       entries = pre ++ bad :: rest /\ decode_error codec bad e /\
       snd (collect codec entries resp) = Some e).
Proof.
  induction entries as [|[k raw] rest IH]; intros resp; cbn [collect].
  - exists [], []. rewrite app_nil_r. split; [reflexivity|]. split; [constructor|auto].
  - destruct (address_NewFromBytes codec k) as [addr|e] eqn:Hk.
    + destruct (DataCap_UnmarshalCBOR codec raw) as [dcap|e] eqn:Hraw.
      * destruct (IH (resp ++ [mkAddrAndDataCap addr dcap]))
          as (pre & decoded & Hout & Hdec & Hend).
        exists ((k, raw) :: pre), (mkAddrAndDataCap addr dcap :: decoded).
        rewrite Hout, <- app_assoc. split; [reflexivity|].
        split; [constructor; [split; assumption|exact Hdec]|].
        destruct Hend as [(-> & Herr) | (bad & rest' & e & -> & Hbad & Herr)].
        -- left. auto.
        -- right. exists bad, rest', e. auto.
      * exists [], []. rewrite app_nil_r. split; [reflexivity|]. split; [constructor|].
        right. exists (k, raw), rest, e. split; [reflexivity|]. split; [|reflexivity].
        right. cbn [fst snd]. eauto.
    + exists [], []. rewrite app_nil_r. split; [reflexivity|]. split; [constructor|].
      right. exists (k, raw), rest, e. split; [reflexivity|]. split; [|reflexivity].
      left. exact Hk.
Qed.

Lemma wpt_consult {A} (oracle : World -> Duration * A) (w : World)
    (P : Outcome A -> list Event -> World -> Prop) :
  P (Done (snd (oracle w))) []
    (mkWorld (clock w + Z.max 0 (fst (oracle w))) (table w) (trace w)) ->
  wpt (consult oracle) w P.
Proof.
  intros H. unfold wpt, consult. destruct (oracle w) as [d a]. cbn [fst snd trace] in *.
  exists []. rewrite app_nil_r. auto.
Qed.

Lemma forEach_collect_wpt (reg : Registry) (codec : Codec) (root : Cid) (w : World) :
  wpt (forEach_collect reg codec root) w
      (fun r _ _ =>
         exists resp err,
           r = Done (resp, err) /\
           listing codec (fst (snd (HamtForEach reg root w)))
                   (snd (snd (HamtForEach reg root w))) resp err).
Proof.
  unfold forEach_collect. apply wpt_bind. apply wpt_consult.
  apply wpt_ret. eexists _, _. split; [reflexivity|].
  destruct (collect_listing codec (fst (snd (HamtForEach reg root w))) [])
    as (pre & decoded & Hout & Hdec & Hend).
  cbn [app] in Hout. rewrite Hout. exists pre. split; [exact Hdec|].
  destruct Hend as [(-> & ->) | (bad & rest & e & Hv & Hbad & ->)]; [left; auto|].
  right. eauto 10.
Qed.

Ltac wpt_lists :=
  cbv beta iota zeta; cbn [clock table trace fst snd];
  lazymatch goal with
  | |- wpt (forEach_collect ?reg ?codec ?root) ?w0 _ =>
      apply (wpt_conseq _ _ _ _ (forEach_collect_wpt reg codec root w0));
      intros ?r ?evs ?w (?resp & ?err & -> & ?Hl)
  | |- _ => wpt_reads
  end.

Ltac listing_leaves :=
  unfold listing_post;
  solve [ exact I
        | left; split; [reflexivity|discriminate]
        | right; eexists _, _; eassumption ].

Lemma lotusListVerifiers_wpt (node : Node) (reg : Registry) (codec : Codec)
    (fuel : nat) (ctx : Context) (w : World) :
  wpt (lotusListVerifiers node reg codec fuel ctx) w (listing_post reg codec).
Proof.
  unfold lotusListVerifiers.
  repeat wpt_lists.
  all: listing_leaves.
Qed.

Lemma lotusListVerifiedClients_wpt (node : Node) (reg : Registry) (codec : Codec)
    (fuel : nat) (ctx : Context) (w : World) :
  wpt (lotusListVerifiedClients node reg codec fuel ctx) w (listing_post reg codec).
Proof.
  unfold lotusListVerifiedClients.
  repeat wpt_lists.
  all: listing_leaves.
Qed.

(** X10. The two listings return, with a nil error, one item for each
    entry that [ForEach] visited, in that order, each the decoding of its
    entry. An entry whose key or value does not decode ends the listing
    with its error: the items decoded before it are returned along with
    the error, and the entries after it are not read. A failure before the
    iteration returns the nil slice with the error. *)
Theorem listings_decode_in_order (node : Node) (reg : Registry) (codec : Codec)
    (fuel : nat) (ctx : Context) (w : World) :
  let post (r : Outcome (list AddrAndDataCap * option error))
           (evs : list Event) (w' : World) :=
    match r with
    | Done (resp, err) =>
        (resp = [] /\ err <> None) \/
        exists root w1 pre,
          let visited := fst (snd (HamtForEach reg root w1)) in
          let ferr := snd (snd (HamtForEach reg root w1)) in
          Forall2 (fun entry item =>
                     address_NewFromBytes codec (fst entry) = Ok (adc_Address item) /\
                     DataCap_UnmarshalCBOR codec (snd entry) = Ok (adc_DataCap item))
                  pre resp /\
          (pre = visited /\ err = ferr \/
           exists bad rest e,
             visited = pre ++ bad :: rest /\ err = Some e /\
             (address_NewFromBytes codec (fst bad) = Err e \/
              (exists addr, address_NewFromBytes codec (fst bad) = Ok addr) /\
              DataCap_UnmarshalCBOR codec (snd bad) = Err e))
    | Panic _ | OutOfFuel => True
    end in
  wpt (lotusListVerifiers node reg codec fuel ctx) w post /\
  wpt (lotusListVerifiedClients node reg codec fuel ctx) w post.
Proof.
  cbv zeta. split.
  - apply (wpt_conseq _ _ _ _ (lotusListVerifiers_wpt node reg codec fuel ctx w)).
    intros [[resp err]|msg|] evs w'; [|auto|auto].
    intros [H | (root & w1 & pre & Hdec & Hend)]; [left; exact H|right].
    exists root, w1, pre. split; [exact Hdec|].
    destruct Hend as [H | (bad & rest & e & Hv & Hbad & He)]; [left; exact H|right].
    exists bad, rest, e. auto.
  - apply (wpt_conseq _ _ _ _ (lotusListVerifiedClients_wpt node reg codec fuel ctx w)).
    intros [[resp err]|msg|] evs w'; [|auto|auto].
    intros [H | (root & w1 & pre & Hdec & Hend)]; [left; exact H|right].
    exists root, w1, pre. split; [exact Hdec|].
    destruct Hend as [H | (bad & rest & e & Hv & Hbad & He)]; [left; exact H|right].
    exists bad, rest, e. auto.
Qed.

(** ** The handlers: rules of the walk *)


Lemma wpt_lockUser_record (userID : string) (lock : UserLock) (w : World)
    (P : Outcome (option error) -> list Event -> World -> Prop) :
  (forall err tbl,
     (err = None -> exists i, tbl !! userID = Some i) ->
     P (Done err) [EvLockUser userID lock err]
       (mkWorld (clock w) tbl (trace w ++ [EvLockUser userID lock err]))) ->
  wpt (lockUser userID lock) w P.
Proof.
  intros H. unfold wpt, lockUser, Update_Set_If_Run.
  destruct (Cond_eval _ _); cbn [fst snd trace]; eexists; (split; [reflexivity|]);
    apply H.
  - intros _. rewrite lookup_insert_eq. eauto.
  - discriminate.
Qed.


Lemma wpt_lotusCheckAccountRemainingBytes (node : Node) (lib : Library) (fuel : nat)
    (ctx : Context) (targetAddr : string) (w : World)
    (P : Outcome (BigInt * option error) -> list Event -> World -> Prop) :
  (forall r evs w1,
     forallb is_reading evs = true -> table w1 = table w -> clock w <= clock w1 ->
     match address_NewFromString lib targetAddr with
     | Err e => r = Done (BigNil, Some e) /\ evs = []
     | Ok caddr => lookup_post account_answer caddr r evs w1
     end -> P r evs w1) ->
  wpt (lotusCheckAccountRemainingBytes node lib fuel ctx targetAddr) w P.
Proof.
  intros H. eapply (wpt_known_also is_reading).
  - apply keeps_lotusCheckAccountRemainingBytes.
  - apply lotusCheckAccountRemainingBytes_wpt.
  - exact H.
Qed.

Lemma wpt_lotusVerifyAccount (env : Env) (node : Node) (lib : Library) (fuel : nat)
    (ctx : Context) (targetAddr allowanceStr : string) (w : World)
    (P : Outcome (Cid * option error) -> list Event -> World -> Prop) :
  (forall r evs w1,
     forallb (reads_or_pays VerifiedRegistryActorAddr BigNil) evs = true ->
     table w1 = table w -> clock w <= clock w1 ->
     verifyAccount_post env lib targetAddr allowanceStr r evs w1 -> P r evs w1) ->
  wpt (lotusVerifyAccount env node lib fuel ctx targetAddr allowanceStr) w P.
Proof.
  intros H. eapply (wpt_known_also (reads_or_pays VerifiedRegistryActorAddr BigNil)).
  - apply keeps_lotusVerifyAccount.
  - apply lotusVerifyAccount_wpt.
  - exact H.
Qed.

Lemma wpt_lotusSendFIL (env : Env) (node : Node) (fuel : nat) (ctx : Context)
    (fromAddr toAddr : Address) (filAmount : FIL) (w : World)
    (P : Outcome (Cid * option error) -> list Event -> World -> Prop) :
  (forall r evs w1,
     forallb (reads_or_pays toAddr filAmount) evs = true ->
     table w1 = table w -> clock w <= clock w1 ->
     sendFIL_post env fromAddr toAddr filAmount r evs w1 -> P r evs w1) ->
  wpt (lotusSendFIL env node fuel ctx fromAddr toAddr filAmount) w P.
Proof.
  intros H. eapply (wpt_known_also (reads_or_pays toAddr filAmount)).
  - apply keeps_lotusSendFIL.
  - apply lotusSendFIL_wpt.
  - exact H.
Qed.

(** The walk of a handler: the record store and the node by what is
    known of their results. *)
Ltac wpt_handler :=
  cbv beta iota zeta; cbn [clock table trace fst snd];
  lazymatch goal with
  | |- wpt (lotusGetFullNodeAPI _ _ _) _ _ =>
      wpt_connect; rewrite ?ctx_fresh in * by (vm_compute; reflexivity);
      try match goal with H : ?a = ApiClient |- _ => is_var a; subst a end
  | |- wpt (api_call ApiClient _ _) _ _ =>
      unfold api_call; apply wpt_ask; intros ?d ?a
  | |- wpt (lockUser _ _) _ _ => apply wpt_lockUser_record; intros ?err ?tbl ?Hrecord
  | |- wpt (HasAccountOlderThan _ _ _) _ _ => apply wpt_HasAccountOlderThan_now
  | |- wpt (lotusCheckAccountRemainingBytes _ _ _ _ _) _ _ =>
      apply wpt_lotusCheckAccountRemainingBytes;
      intros [[?remaining [?e|]]|?msg|] ?evs ?w ?Hevs ?Htbl ?Hclock ?Hremaining
  | |- wpt (lotusVerifyAccount _ _ _ _ _ _ _) _ _ =>
      apply wpt_lotusVerifyAccount;
      intros [[?c [?e|]]|?msg|] ?evs ?w ?Hevs ?Htbl ?Hclock ?Hsubmit
  | |- wpt (lotusSendFIL _ _ _ _ _ _ _) _ _ =>
      apply wpt_lotusSendFIL;
      intros [[?c [?e|]]|?msg|] ?evs ?w ?Hevs ?Htbl ?Hclock ?Hsubmit
  | |- _ => wpt_step tt tt tt
  end.

Lemma pushed_accepted evs : pushed evs = [] -> accepted evs = [].
Proof.
  induction evs as [|e evs IH]; [reflexivity|].
  unfold pushed, accepted. cbn [omap list_omap]. fold (pushed evs) (accepted evs).
  destruct e; cbn [push_of accept_of]; try exact IH. discriminate.
Qed.

Lemma connecting_replies evs : forallb is_connecting evs = true -> replies evs = [].
Proof. intros H. apply reading_replies, connecting_reading, H. Qed.

(** What a submission says of the messages taken. *)
Lemma submission_accepted msg r evs :
  submission msg r evs ->
  match r with
  | Done (c, None) => exists m, accepted evs = [(m, c)]
  | _ => accepted evs = []
  end.
Proof.
  destruct r as [[c [e|]]|m|]; cbn.
  - intros (_ & H & _). exact H.
  - intros (m & _ & _ & H). eauto.
  - apply pushed_accepted.
  - apply pushed_accepted.
Qed.

Lemma verifyAccount_accepted env lib targetAddr allowanceStr r evs w' :
  verifyAccount_post env lib targetAddr allowanceStr r evs w' ->
  match r with
  | Done (c, None) => exists m, accepted evs = [(m, c)]
  | _ => accepted evs = []
  end.
Proof.
  unfold verifyAccount_post. destruct (allocation_params lib targetAddr allowanceStr).
  - apply submission_accepted.
  - intros [-> ->]. reflexivity.
Qed.

Lemma sendFIL_accepted env fromAddr toAddr filAmount r evs w' :
  sendFIL_post env fromAddr toAddr filAmount r evs w' ->
  match r with
  | Done (c, None) => exists m, accepted evs = [(m, c)] /\ msg_Value m = filAmount
  | _ => accepted evs = []
  end.
Proof.
  unfold sendFIL_post. intros H. pose proof (submission_accepted _ _ _ H) as Ha.
  destruct r as [[c [e|]]|m|]; try exact Ha.
  destruct H as (m & (wa & gl & gp & _ & _ & _ & ->) & _ & H). eauto.
Qed.

(** Rewrites the readings of a trace built by a walk of a handler. *)
Ltac readings :=
  rewrite ?replies_app, ?accepted_app, ?spawned_app, ?lookups_app, ?acquired_app,
          ?pushed_app, ?unlocks_app, ?saves_app;
  repeat match goal with
    | H : forallb is_connecting ?evs = true |- _ =>
        apply connecting_reading in H
    end;
  repeat match goal with
    | H : forallb is_reading ?evs = true |- _ =>
        progress rewrite ?(reading_replies evs H), ?(reading_accepted evs H),
                         ?(reading_spawned evs H), ?(reading_lookups evs H),
                         ?(reading_acquired evs H), ?(reading_pushed evs H),
                         ?(reading_unlocks evs H), ?(reading_saves evs H)
    | H : forallb (reads_or_pays ?t ?a) ?evs = true |- _ =>
        progress rewrite ?(pays_replies t a evs H), ?(pays_spawned t a evs H),
                         ?(pays_lookups t a evs H), ?(pays_acquired t a evs H),
                         ?(pays_unlocks t a evs H), ?(pays_saves t a evs H)
    end;
  cbn [replies accepted spawned lookups acquired pushed unlocks saves omap list_omap
       reply_of accept_of go_of lookup_of acquire_of push_of unlock_of save_of app].

Ltac submitted :=
  repeat match goal with
    | H : verifyAccount_post _ _ _ _ _ ?evs _ |- _ =>
        apply verifyAccount_accepted in H; cbv beta iota in H
    | H : sendFIL_post _ _ _ _ _ ?evs _ |- _ =>
        apply sendFIL_accepted in H; cbv beta iota in H
    end;
  repeat match goal with
    | H : exists m, accepted ?evs = _ /\ _ |- _ =>
        let m := fresh "m" in let Hv := fresh "Hvalue" in
        destruct H as (m & H & Hv); rewrite H, ?Hv
    | H : exists m, accepted ?evs = _ |- _ =>
        let m := fresh "m" in destruct H as (m & H); rewrite H
    | H : accepted ?evs = [] |- _ => rewrite H
    end.

Ltac got_user :=
  repeat match goal with
    | |- context [Get_One ?t ?u] =>
        let H := fresh in
        remember (Get_One t u) as got eqn:H; clear H;
        destruct got as [?user ?uerr]; cbn [fst snd] in *
    end;
  subst.

Ltac reply_leaves :=
  unfold reply_post; readings; submitted;
  cbv beta; cbn [app cid_of user_of lock_of fst snd];
  repeat match goal with H : msg_Value _ = _ |- _ => rewrite H end;
  solve [ exact I
        | repeat split; reflexivity
        | eexists _, _; split; [reflexivity|];
          first [ split; [vm_compute; discriminate | reflexivity]
                | split; [reflexivity|]; split; [reflexivity|];
                  eexists; split; [reflexivity|]; split; [reflexivity|];
                  cbn [user_of lock_of fst snd]; got_user; reflexivity ] ].

Lemma serveVerifyAccount_replies (env : Env) (node : Node) (lib : Library) (fuel : nat)
    (c : Request) (w : World) :
  wpt (serveVerifyAccount env node lib fuel c) w (reply_post (fun _ cid => BodyCid cid)).
Proof.
  unfold serveVerifyAccount.
  repeat wpt_handler.
  all: reply_leaves.
Qed.

Lemma serveFaucet_replies (env : Env) (node : Node) (lib : Library) (fuel : nat)
    (c : Request) (w : World) :
  wpt (serveFaucet env node lib fuel c) w
      (reply_post (fun msg cid => BodyCidSent cid (msg_Value msg))).
Proof.
  unfold serveFaucet.
  repeat wpt_handler.
  all: reply_leaves.
Qed.


Ltac record_leaves :=
  unfold record_post; readings;
  try match goal with
      | H : None = None -> exists i, _ !! _ = Some i |- _ =>
          let i := fresh "i" in let Hi := fresh "Hi" in
          destruct (H eq_refl) as [i Hi]; unfold Get_One; rewrite Hi
      end;
  cbn [app];
  solve [ exact I | repeat split; reflexivity ].

Lemma serveVerifyAccount_record (env : Env) (node : Node) (lib : Library) (fuel : nat)
    (c : Request) (w : World) :
  wpt (serveVerifyAccount env node lib fuel c) w
      (record_post (fst (getUserIDFromJWT c)) UserLock_Verifier).
Proof.
  unfold serveVerifyAccount.
  repeat wpt_handler.
  all: record_leaves.
Qed.

Lemma serveFaucet_record (env : Env) (node : Node) (lib : Library) (fuel : nat)
    (c : Request) (w : World) :
  wpt (serveFaucet env node lib fuel c) w
      (record_post (fst (getUserIDFromJWT c)) UserLock_Faucet).
Proof.
  unfold serveFaucet.
  repeat wpt_handler.
  all: record_leaves.
Qed.


(** X11. When [serveVerifyAccount] returns it has replied exactly once.
    The reply is 200 exactly when the node has taken a message in this
    run: the body is then the cid the node answered, and exactly one
    goroutine has been started, for that cid and with the record read
    under the lock. With any other reply the node has taken nothing and
    no goroutine is started. A run that panics has written no reply
    itself (the router's recovery does), and the node has taken
    nothing: no accepted message is left without its goroutine. *)
Theorem serveVerifyAccount_replies_once (env : Env) (node : Node) (lib : Library)
    (fuel : nat) (c : Request) (w : World) :
  wpt (serveVerifyAccount env node lib fuel c) w
    (fun r evs _ =>
       match r with
       | Done _ =>
           exists status body,
             replies evs = [(status, body)] /\
             match accepted evs with
             | [] => status <> StatusOK /\ spawned evs = []
             | [(msg, cid)] =>
                 status = StatusOK /\ body = BodyCid cid /\
                 exists g, spawned evs = [g] /\ cid_of g = cid /\
                           lookups evs = [(fst (lock_of g), (user_of g, None))]
             | _ => False
             end
       | Panic _ => replies evs = [] /\ accepted evs = [] /\ spawned evs = []
       | OutOfFuel => True
       end).
Proof. exact (serveVerifyAccount_replies env node lib fuel c w). Qed.

(** X12. The same for [serveFaucet]: one reply when it returns; 200
    exactly when the node has taken the payment, the body then carrying
    the cid and the value of that message, with one goroutine started for
    it; no reply of its own and nothing taken when it panics. *)
Theorem serveFaucet_replies_once (env : Env) (node : Node) (lib : Library)
    (fuel : nat) (c : Request) (w : World) :
  wpt (serveFaucet env node lib fuel c) w
    (fun r evs _ =>
       match r with
       | Done _ =>
           exists status body,
             replies evs = [(status, body)] /\
             match accepted evs with
             | [] => status <> StatusOK /\ spawned evs = []
             | [(msg, cid)] =>
                 status = StatusOK /\ body = BodyCidSent cid (msg_Value msg) /\
                 exists g, spawned evs = [g] /\ cid_of g = cid /\
                           lookups evs = [(fst (lock_of g), (user_of g, None))]
             | _ => False
             end
       | Panic _ => replies evs = [] /\ accepted evs = [] /\ spawned evs = []
       | OutOfFuel => True
       end).
Proof. exact (serveFaucet_replies env node lib fuel c w). Qed.

(** X13. In both handlers [getUserByID] is called at most once, for the
    subject of the request and after its lock was acquired, and it never
    returns an error: [lockUser] has created the record when there was
    none. So the reply "user not found" is never sent; a subject without
    a record is told that the account is too new. *)
Theorem handlers_find_the_record (env : Env) (node : Node) (lib : Library)
    (fuel : nat) (c : Request) (w : World) :
  let post (lock : UserLock) (r : Outcome unit) (evs : list Event) (w' : World) :=
    match lookups evs with
    | [] => True
    | [(userID, (user, err))] =>
        userID = fst (getUserIDFromJWT c) /\ err = None /\
        acquired evs = [(userID, lock)]
    | _ => False
    end in
  wpt (serveVerifyAccount env node lib fuel c) w (post UserLock_Verifier) /\
  wpt (serveFaucet env node lib fuel c) w (post UserLock_Faucet).
Proof.
  cbv zeta. split.
  - apply (wpt_conseq _ _ _ _ (serveVerifyAccount_record env node lib fuel c w)).
    intros r evs w'. unfold record_post.
    destruct (lookups evs) as [|[u [user err]] [|? ?]]; auto.
    intros (-> & -> & ->). auto.
  - apply (wpt_conseq _ _ _ _ (serveFaucet_record env node lib fuel c w)).
    intros r evs w'. unfold record_post.
    destruct (lookups evs) as [|[u [user err]] [|? ?]]; auto.
    intros (-> & -> & ->). auto.
Qed.

Lemma serveVerifyAccount_conditions (env : Env) (node : Node) (lib : Library)
    (fuel : nat) (c : Request) (w : World) :
  wpt (serveVerifyAccount env node lib fuel c) w
      (fun _ evs _ =>
         forall m cid, In (m, cid) (accepted evs) -> verify_conditions env lib c w evs m).
Proof.
  unfold serveVerifyAccount.
  repeat wpt_handler.
  all: intros m0 cid0 Hin; revert Hin; readings.
  all: try match goal with
         | H : verifyAccount_post _ _ _ _ _ ?evs _ |- _ =>
             let H' := fresh in
             pose proof (verifyAccount_accepted _ _ _ _ _ _ _ H) as H';
             cbv beta iota in H'; try rewrite H'
         end.
  all: cbn [app In].
  all: try (intros []; fail).
  (* the one run in which the node takes the message *)
  rewrite !app_nil_r. intros Hin.
  unfold verifyAccount_post in Hsubmit.
  destruct (allocation_params lib a (BigInt_String a0)) as [params|] eqn:Hparams;
    [|destruct Hsubmit; discriminate].
  destruct Hsubmit as (m & (gasLimit & gasPrice & _ & _ & ->) & _ & Hacc).
  rewrite Hacc in Hin. destruct Hin as [Hin|[]]. injection Hin as <- <-.
  destruct (address_NewFromString lib a) as [caddr|] eqn:Hcaddr;
    [|destruct Hremaining; discriminate].
  unfold lookup_post in Hremaining.
  destruct (finds evs) as [|[[root k] [found ferr]] [|? ?]] eqn:Hfinds;
    try contradiction.
  destruct Hremaining as [-> Hanswer]. injection Hanswer as Hanswer.
  destruct (MaxAllowanceBytes env) as [|maxAllowance] eqn:Hmax; [discriminate|].
  destruct remaining as [|rz]; [discriminate|].
  cbn in Heqo2. injection Heqo2 as <-.
  cbn in Heqo3. injection Heqo3 as <-.
  assert (Hpos : 0 < maxAllowance - rz).
  { apply Z.leb_gt in Heqb1.
    destruct (Z.compare_spec (maxAllowance - rz) 0); lia. }
  apply negb_false_iff in Heqb.
  destruct (Get_One tbl (fst (getUserIDFromJWT c))) as [user uerr] eqn:Hgot.
  cbn [fst snd] in *. subst uerr.
  unfold verify_conditions.
  exists a, user, caddr, root, found, ferr, maxAllowance, rz, params, gasLimit, gasPrice.
  readings.
  repeat split; try assumption; try reflexivity.
  - f_equal. match goal with |- omap acquire_of ?l = _ => change (acquired l = []) end.
    readings. reflexivity.
  - f_equal. match goal with |- omap lookup_of ?l = _ => change (lookups l = []) end.
    readings. reflexivity.
  - match goal with
    | |- In _ (finds (?e1 :: ?e2 :: ?l)) => change (e1 :: e2 :: l) with ([e1; e2] ++ l)
    end.
    rewrite !finds_app, Hfinds. apply in_or_app. right. apply in_or_app. left.
    left. reflexivity.
  - symmetry. exact Hanswer.
Qed.

(** X14. The node takes a message in a run of [serveVerifyAccount] only
    if all of this has held: the request was bound and authenticated; the
    verifier lock of the subject was acquired; the record read under the
    lock has an account that passes the age test of [HasAccountOlderThan]
    and no allocation in the last 30 days; the allowance found in the
    registry for the target leaves a positive difference to
    [env.MaxAllowanceBytes]. The message is then the allocation message
    for exactly that difference, written in decimal. *)
Theorem serveVerifyAccount_submits_only_when_due (env : Env) (node : Node)
    (lib : Library) (fuel : nat) (c : Request) (w : World) :
  wpt (serveVerifyAccount env node lib fuel c) w
    (fun _ evs _ =>
       forall m cid, In (m, cid) (accepted evs) ->
         exists TargetAddr user caddr root found ferr maxAllowance remaining params
                gasLimit gasPrice,
           ShouldBindJSON c = Ok TargetAddr /\
           snd (getUserIDFromJWT c) = None /\
           acquired evs = [(fst (getUserIDFromJWT c), UserLock_Verifier)] /\
           lookups evs = [(fst (getUserIDFromJWT c), (user, None))] /\
           existsb (fun kv => account_is_old env (clock w) (snd kv))
                   (map_to_list (Accounts user)) = true /\
           Time_After (Time_Add (MostRecentAllocation user) (30 * 24 * Hour)) (clock w)
           = false /\
           address_NewFromString lib TargetAddr = Ok caddr /\
           In (root, caddr, (found, ferr)) (finds evs) /\
           account_answer found ferr = (Big remaining, None) /\
           MaxAllowanceBytes env = Big maxAllowance /\
           0 < maxAllowance - remaining /\
           allocation_params lib TargetAddr (pretty (maxAllowance - remaining))
           = Ok params /\
           m = allocation_message env params gasLimit gasPrice).
Proof. exact (serveVerifyAccount_conditions env node lib fuel c w). Qed.

